(** * A shallow embedding of [generate.py] (iserv-stac-generator)

    The script lists the keys of the source bucket, builds a tree of
    catalogs keyed by the year / year-month / year-month-day prefix of
    each key, rewrites the assets of every legacy record and writes one
    item per record to the target bucket.  The model follows the module
    level loop statement by statement; Python exceptions are an explicit
    [exn] value that carries the (possibly already mutated) state. *)

From Stdlib Require Import String Ascii List ZArith Bool Lia Permutation.
#[local] Set Warnings "-register-all".
Import ListNotations.
Open Scope string_scope.

(* ------------------------------------------------------------------ *)
(** ** Strings: the [str] methods the script uses *)

(** [s.endswith(suf)] *)
Definition endswith (s suf : string) : bool :=
  (String.length suf <=? String.length s)%nat &&
  String.eqb (substring (String.length s - String.length suf) (String.length suf) s) suf.

(** [s.split("/")] *)
Fixpoint split_slash (s : string) : list string :=
  match s with
  | EmptyString => [""]
  | String c rest =>
      let parts := split_slash rest in
      if Ascii.eqb c "/" then "" :: parts
      else match parts with
           | p :: ps => String c p :: ps
           | [] => [String c ""]
           end
  end.

(** ["/".join(l)] *)
Fixpoint join_slash (l : list string) : string :=
  match l with
  | [] => ""
  | [x] => x
  | x :: r => x ++ "/" ++ join_slash r
  end.

(** Python slice [l[0:-1]] *)
Definition drop_last {A} (l : list A) : list A := firstn (length l - 1) l.

(* ------------------------------------------------------------------ *)
(** ** JSON values as [json.loads] returns them *)

(** Numbers are kept as their JSON literal: the script only copies them
    ([bbox], [geometry]) or writes them back out. *)
Inductive json : Type :=
| JNull
| JBool (b : bool)
| JNum (lit : string)
| JStr (s : string)
| JArr (l : list json)
| JObj (fields : list (string * json)).

(** A Python [dict] in insertion order. *)
Definition dict := list (string * json).

Fixpoint dict_get (k : string) (d : dict) : option json :=
  match d with
  | [] => None
  | (k', v) :: r => if String.eqb k k' then Some v else dict_get k r
  end.

(** [d[k] = v]: an existing key keeps its position, a new key goes last. *)
Fixpoint dict_set (k : string) (v : json) (d : dict) : dict :=
  match d with
  | [] => [(k, v)]
  | (k', v') :: r =>
      if String.eqb k k' then (k', v) :: r else (k', v') :: dict_set k v r
  end.

(** [del d[k]]: [None] is the [KeyError]. *)
Fixpoint dict_del (k : string) (d : dict) : option dict :=
  match d with
  | [] => None
  | (k', v') :: r =>
      if String.eqb k k' then Some r
      else option_map (cons (k', v')) (dict_del k r)
  end.

Definition dict_keys (d : dict) : list string := map fst d.

(** [str(v)] ([repr] = false), which ["{}".format(v)] calls, and [repr(v)]
    ([repr] = true) used inside containers; the escaping of quotes in
    [repr] is left out. *)
Fixpoint py_render (repr : bool) (j : json) : string :=
  match j with
  | JNull => "None"
  | JBool true => "True"
  | JBool false => "False"
  | JNum lit => lit
  | JStr s => if repr then "'" ++ s ++ "'" else s
  | JArr l =>
      "[" ++ (fix go (l : list json) : string :=
                match l with
                | [] => ""
                | [x] => py_render true x
                | x :: r => py_render true x ++ ", " ++ go r
                end) l ++ "]"
  | JObj d =>
      "{" ++ (fix go (d : list (string * json)) : string :=
                match d with
                | [] => ""
                | [(k, x)] => "'" ++ k ++ "': " ++ py_render true x
                | (k, x) :: r => "'" ++ k ++ "': " ++ py_render true x ++ ", " ++ go r
                end) d ++ "}"
  end.

Definition py_str (j : json) : string := py_render false j.

(* ------------------------------------------------------------------ *)
(** ** [datetime.strptime] for the formats ["%Y/%m"] and ["%Y/%m/%d"]

    CPython's [_strptime] compiles the format to the regular expression
    [(?P<Y>\d\d\d\d)/(?P<m>1[0-2]|0[1-9]|[1-9])] (and, for [%d],
    [(?P<d>3[01]|[12]\d|0[1-9]|[1-9]| [1-9])]), takes the first match at
    the start of the string, raises [ValueError] if text is left over,
    and then builds the date, which raises [ValueError] for a day past
    the end of the month or the year 0.  Digits are the ASCII digits. *)

Definition digit (c : ascii) : option Z :=
  let n := nat_of_ascii c in
  if ((48 <=? n) && (n <=? 57))%nat then Some (Z.of_nat (n - 48)) else None.

Definition in_range (c : ascii) (lo hi : Z) : option Z :=
  match digit c with
  | Some d => if (lo <=? d)%Z && (d <=? hi)%Z then Some d else None
  | None => None
  end.

(** [\d\d\d\d] *)
Definition re_year (s : string) : option (Z * string) :=
  match s with
  | String a (String b (String c (String d rest))) =>
      match digit a, digit b, digit c, digit d with
      | Some a, Some b, Some c, Some d =>
          Some (((a * 10 + b) * 10 + c) * 10 + d, rest)%Z
      | _, _, _, _ => None
      end
  | _ => None
  end.

(** The matches of [1[0-2]|0[1-9]|[1-9]] at the start of [s], in the
    order the alternation tries them. *)
Definition re_month (s : string) : list (Z * string) :=
  let alt1 := match s with
              | String "1" (String c rest) =>
                  match in_range c 0 2 with Some d => [(10 + d, rest)%Z] | None => [] end
              | _ => [] end in
  let alt2 := match s with
              | String "0" (String c rest) =>
                  match in_range c 1 9 with Some d => [(d, rest)%Z] | None => [] end
              | _ => [] end in
  let alt3 := match s with
              | String c rest =>
                  match in_range c 1 9 with Some d => [(d, rest)%Z] | None => [] end
              | _ => [] end in
  alt1 ++ alt2 ++ alt3.

(** The matches of [3[01]|[12]\d|0[1-9]|[1-9]| [1-9]], in order. *)
Definition re_day (s : string) : list (Z * string) :=
  let alt1 := match s with
              | String "3" (String c rest) =>
                  match in_range c 0 1 with Some d => [(30 + d, rest)%Z] | None => [] end
              | _ => [] end in
  let alt2 := match s with
              | String a (String c rest) =>
                  match in_range a 1 2, digit c with
                  | Some a, Some d => [(10 * a + d, rest)%Z] | _, _ => [] end
              | _ => [] end in
  let alt3 := match s with
              | String "0" (String c rest) =>
                  match in_range c 1 9 with Some d => [(d, rest)%Z] | None => [] end
              | _ => [] end in
  let alt4 := match s with
              | String c rest =>
                  match in_range c 1 9 with Some d => [(d, rest)%Z] | None => [] end
              | _ => [] end in
  let alt5 := match s with
              | String " " (String c rest) =>
                  match in_range c 1 9 with Some d => [(d, rest)%Z] | None => [] end
              | _ => [] end in
  alt1 ++ alt2 ++ alt3 ++ alt4 ++ alt5.

Definition re_slash (s : string) : option string :=
  match s with String "/" rest => Some rest | _ => None end.

Definition leap (y : Z) : bool :=
  (((y mod 4 =? 0) && negb (y mod 100 =? 0)) || (y mod 400 =? 0))%Z.

Definition days_in_month (y m : Z) : Z :=
  (if m =? 2 then (if leap y then 29 else 28)
   else if (m =? 4) || (m =? 6) || (m =? 9) || (m =? 11) then 30 else 31)%Z.

(** [datetime.date(y, m, d)] accepts the date *)
Definition valid_date (y m d : Z) : bool :=
  ((1 <=? y) && (y <=? 9999) && (1 <=? m) && (m <=? 12) &&
   (1 <=? d) && (d <=? days_in_month y m))%Z.

Definition first_some {A B} (f : A -> option B) (l : list A) : option B :=
  fold_right (fun a acc => match f a with Some b => Some b | None => acc end) None l.

(** [datetime.strptime(s, "%Y/%m")]: [None] is the [ValueError]. *)
Definition strptime_ym (s : string) : option (Z * Z) :=
  match re_year s with
  | Some (y, r1) =>
      match re_slash r1 with
      | Some r2 =>
          match re_month r2 with
          | (m, rest) :: _ =>
              if String.eqb rest "" then
                (if valid_date y m 1 then Some (y, m) else None)
              else None
          | [] => None
          end
      | None => None
      end
  | None => None
  end.

(** [datetime.strptime(s, "%Y/%m/%d")]: the month alternative is chosen
    by backtracking over the rest of the pattern, the day alternative is
    the first one that matches. *)
Definition strptime_ymd (s : string) : option (Z * Z * Z) :=
  match re_year s with
  | Some (y, r1) =>
      match re_slash r1 with
      | Some r2 =>
          let m_then_day (mr : Z * string) : option (Z * Z * string) :=
            let '(m, r3) := mr in
            match re_slash r3 with
            | Some r4 =>
                match re_day r4 with
                | (d, rest) :: _ => Some (m, d, rest)
                | [] => None
                end
            | None => None
            end in
          match first_some m_then_day (re_month r2) with
          | Some (m, d, rest) =>
              if String.eqb rest "" then
                (if valid_date y m d then Some (y, m, d) else None)
              else None
          | None => None
          end
      | None => None
      end
  | None => None
  end.

(* ------------------------------------------------------------------ *)
(** ** Key filter (lines 186-193) *)

(** [true] when the loop [continue]s past the key. *)
Definition skip_key (k : string) : bool :=
  negb (endswith k ".json")
  || endswith k "catalog.json"
  || endswith k "iserv.json"
  || endswith k "product.json".

(* ------------------------------------------------------------------ *)
(** ** Exceptions and a state monad that keeps the state on a raise

    A Python exception leaves every mutation done before it in place, so
    a failed computation returns its state as well. *)

Inductive exn : Type :=
| KeyError (k : string)
| TypeError
| AttributeError
| ValueError
| NameError
| ReadError      (** [obj.get()] or [json.loads] failed *)
| WriteError.    (** [obj.put(...)] failed *)

Inductive res (A : Type) : Type :=
| Ok (a : A)
| Err (e : exn).
Arguments Ok {A} a.
Arguments Err {A} e.

Definition SE (S A : Type) : Type := S -> res A * S.

Definition ret {S A} (a : A) : SE S A := fun s => (Ok a, s).
Definition raise {S A} (e : exn) : SE S A := fun s => (Err e, s).
Definition bind {S A B} (m : SE S A) (k : A -> SE S B) : SE S B :=
  fun s => match m s with
           | (Ok a, s') => k a s'
           | (Err e, s') => (Err e, s')
           end.
Definition lift {S A} (r : res A) : SE S A := fun s => (r, s).
Definition modify {S} (f : S -> S) : SE S unit := fun s => (Ok tt, f s).
Definition gets {S A} (f : S -> A) : SE S A := fun s => (Ok (f s), s).

(** [try: m except Exception as e: h e] *)
Definition try_except {S A} (m : SE S A) (h : exn -> SE S A) : SE S A :=
  fun s => match m s with
           | (Ok a, s') => (Ok a, s')
           | (Err e, s') => h e s'
           end.

Notation "x <- m ;; k" := (bind m (fun x => k))
  (at level 61, m at next level, right associativity).
Notation "m ;; k" := (bind m (fun _ => k))
  (at level 61, right associativity).

(** [d[k]] on a JSON value *)
Definition getitem (j : json) (k : string) : res json :=
  match j with
  | JObj d => match dict_get k d with Some v => Ok v | None => Err (KeyError k) end
  | _ => Err TypeError
  end.

(* ------------------------------------------------------------------ *)
(** ** Asset normalization (lines 244-356)

    The state is the record's [assets] value.  In the mapping shape the
    local variables ([original_tiff], [jpeg], ...) are the dicts stored
    in [assets], so every assignment and [del] through them is an update
    of the state; the dict put into [new_assets] is that same entry. *)

Definition role_get (r : string) : SE json json :=
  fun a => (getitem a r, a).

Definition role_in (r : string) : SE json bool :=
  fun a => match a with
           | JObj d => (Ok (if dict_get r d then true else false), a)
           | _ => (Err TypeError, a)
           end.

(** [x[k]] where [x = assets[r]] *)
Definition field_get (r k : string) : SE json json :=
  x <- role_get r ;; lift (getitem x k).

(** [x[k] = v] where [x = assets[r]] *)
Definition field_set (r k : string) (v : json) : SE json unit :=
  fun a => match a with
           | JObj ad =>
               match dict_get r ad with
               | Some (JObj d) => (Ok tt, JObj (dict_set r (JObj (dict_set k v d)) ad))
               | Some _ => (Err TypeError, a)
               | None => (Err (KeyError r), a)
               end
           | _ => (Err TypeError, a)
           end.

(** [del x[k]] where [x = assets[r]] *)
Definition field_del (r k : string) : SE json unit :=
  fun a => match a with
           | JObj ad =>
               match dict_get r ad with
               | Some (JObj d) =>
                   match dict_del k d with
                   | Some d' => (Ok tt, JObj (dict_set r (JObj d') ad))
                   | None => (Err (KeyError k), a)
                   end
               | Some _ => (Err TypeError, a)
               | None => (Err (KeyError r), a)
               end
           | _ => (Err TypeError, a)
           end.

(** ["{}/{}".format(source_prefix, href)] *)
Definition abs_href (source_prefix : string) (h : json) : json :=
  JStr (source_prefix ++ "/" ++ py_str h).

(** [x["href"] = "{}/{}".format(source_prefix, x["href"])] *)
Definition rewrite_href (pre r : string) : SE json unit :=
  h <- field_get r "href" ;; field_set r "href" (abs_href pre h).

(** Lines 247-252 *)
Definition tiff_block (pre : string) : SE json json :=
  _ <- role_get "RGB Tif" ;;
  rewrite_href pre "RGB Tif" ;;
  field_set "RGB Tif" "title" (JStr "RGB GeoTIFF") ;;
  field_set "RGB Tif" "type" (JStr "image/vnd.stac.geotiff") ;;
  field_set "RGB Tif" "eo:bands" (JArr [JNum "0"; JNum "1"; JNum "2"]) ;;
  field_del "RGB Tif" "name" ;;
  role_get "RGB Tif".

(** Lines 257-267 *)
Definition tiff_world_block (pre : string) : SE json json :=
  _ <- role_get "tiff world file" ;;
  rewrite_href pre "tiff world file" ;;
  field_set "tiff world file" "title" (JStr "RGB GeoTIFF world file") ;;
  field_set "tiff world file" "type" (JStr "text/plain") ;;
  field_del "tiff world file" "name" ;;
  role_get "tiff world file".

(** Lines 271-275 *)
Definition jpeg_block (pre : string) : SE json json :=
  _ <- role_get "RGB JPEG" ;;
  rewrite_href pre "RGB JPEG" ;;
  n <- field_get "RGB JPEG" "name" ;;
  field_set "RGB JPEG" "title" n ;;
  field_set "RGB JPEG" "type" (JStr "image/jpeg") ;;
  field_del "RGB JPEG" "name" ;;
  role_get "RGB JPEG".

(** Lines 279-285 *)
Definition overview_block (pre : string) : SE json json :=
  _ <- role_get "jpg overview" ;;
  rewrite_href pre "jpg overview" ;;
  field_set "jpg overview" "title" (JStr "JPEG overviews") ;;
  field_set "jpg overview" "type" (JStr "image/tiff") ;;
  field_del "jpg overview" "name" ;;
  role_get "jpg overview".

(** Lines 289-293 *)
Definition jpeg_world_block (pre : string) : SE json json :=
  _ <- role_get "jpeg world file" ;;
  rewrite_href pre "jpeg world file" ;;
  field_set "jpeg world file" "title" (JStr "JPEG world file") ;;
  field_set "jpeg world file" "type" (JStr "text/plain") ;;
  field_del "jpeg world file" "name" ;;
  role_get "jpeg world file".

(** Lines 297-301 *)
Definition thumbnail_block (pre : string) : SE json json :=
  _ <- role_get "thumbnail" ;;
  rewrite_href pre "thumbnail" ;;
  field_set "thumbnail" "title" (JStr "Thumbnail") ;;
  field_set "thumbnail" "type" (JStr "image/png") ;;
  field_del "thumbnail" "name" ;;
  role_get "thumbnail".

(** Lines 305-310 *)
Definition visual_block (pre : string) : SE json json :=
  _ <- role_get "cog" ;;
  rewrite_href pre "cog" ;;
  vn <- field_get "cog" "name" ;;
  field_set "cog" "title" vn ;;
  field_set "cog" "type" (JStr "image/vnd.stac.geotiff; cloud-optimized=true") ;;
  field_del "cog" "format" ;;
  field_del "cog" "name" ;;
  role_get "cog".

(** Lines 246-312; each [new_assets[...] = x] stores the entry [x]. *)
Definition mapping_shape (pre : string) : SE json dict :=
  t <- tiff_block pre ;;
  let new_assets := dict_set "original TIFF" t [] in
  has_tw <- role_in "tiff world file" ;;
  new_assets <-
    (if has_tw then
       tw <- tiff_world_block pre ;;
       ret (dict_set "original TIFF world file" tw new_assets)
     else ret new_assets) ;;
  jpeg <- jpeg_block pre ;;
  let new_assets := dict_set "JPEG" jpeg new_assets in
  ov <- overview_block pre ;;
  let new_assets := dict_set "JPEG overviews" ov new_assets in
  jw <- jpeg_world_block pre ;;
  let new_assets := dict_set "JPEG world file" jw new_assets in
  th <- thumbnail_block pre ;;
  let new_assets := dict_set "thumbnail" th new_assets in
  v <- visual_block pre ;;
  ret (dict_set "visual" v new_assets).

(** The six [if asset["href"].endswith(...)] tests of the list shape, in
    source order: suffix, output key, title, media type. *)
Definition list_rules : list (string * string * string * string) :=
  [(".TFW", "original TIFF world file", "RGB GeoTIFF world file", "text/plain");
   (".JPG", "JPEG", "RGB JPEG", "image/jpeg");
   (".png", "thumbnail", "Thumbnail", "image/png");
   (".JGW", "JPEG world file", "JPEG world file", "text/plain");
   (".JPG.ovr", "JPEG overviews", "JPEG overviews", "image/tiff");
   (".TIF", "visual", "3-Band RGB GeoTIFF", "image/vnd.stac.geotiff; cloud-optimized=true")].

(** [asset["href"]] followed by [.endswith]: a non-dict entry is a
    [TypeError], a missing [href] a [KeyError], a non-string [href] an
    [AttributeError]. *)
Definition entry_href (asset : json) : res string :=
  match asset with
  | JObj d =>
      match dict_get "href" d with
      | Some (JStr h) => Ok h
      | Some _ => Err AttributeError
      | None => Err (KeyError "href")
      end
  | _ => Err TypeError
  end.

Definition list_entry (pre h : string) (new_assets : dict) : dict :=
  fold_left
    (fun acc '(suf, key, title, ty) =>
       if endswith h suf then
         dict_set key (JObj [("href", JStr (pre ++ "/" ++ h));
                             ("title", JStr title); ("type", JStr ty)]) acc
       else acc)
    list_rules new_assets.

Fixpoint list_shape (pre : string) (l : list json) (new_assets : dict) : res dict :=
  match l with
  | [] => Ok new_assets
  | asset :: r =>
      match entry_href asset with
      | Ok h => list_shape pre r (list_entry pre h new_assets)
      | Err e => Err e
      end
  end.

(** [if type(assets) is dict: ... elif type(assets) is list: ...] *)
Definition normalize (pre : string) : SE json dict :=
  fun a => match a with
           | JObj _ => mapping_shape pre a
           | JArr l => (list_shape pre l [], a)
           | _ => (Ok [], a)
           end.

(* ------------------------------------------------------------------ *)
(** ** Catalogs, items and the state of the run *)

(** [add_link(rel, href, title=...)] of satstac adds
    [{"rel": rel, "href": href, "title": title}] to [data["links"]], unless
    a link with the same [rel] and [href] is already there. *)
Record link : Type := mk_link {
  rel : string;
  href : string;
  link_title : option json
}.

(** The [description] of a catalog: the root text, or ["Imagery from "]
    followed by the rendering of the date parsed from the catalog id
    ([%B %Y] or [%B %-d, %Y]), kept here as its arguments. *)
Inductive desc : Type :=
| DescRoot
| DescYear (s : string)
| DescMonth (y m : Z)
| DescDay (y m d : Z).

Record node : Type := mk_node {
  cat_id : string;
  cat_desc : desc;
  cat_links : list link
}.

Record item : Type := mk_item {
  item_id : json;
  item_bbox : json;
  item_geometry : json;
  item_datetime : json;
  item_assets : dict;
  item_links : list link
}.

(** What [print] writes: a key, or [json.dumps] of a record. *)
Inductive outline : Type :=
| OutKey (s : string)
| OutJson (j : json).

(** The module-level loop variable [key]: the listed object, the string
    it is rebound to at line 378, or not yet bound. *)
Inductive keyvar : Type :=
| KObj (k : string)
| KStr (s : string)
| KUnbound.

Record st : Type := mk_st {
  catalogs : list (string * node);   (** the dict [catalogs], in insertion order *)
  puts : list (string * item);       (** objects written to the target bucket *)
  outs : list outline;               (** standard output *)
  old_item : option json;            (** the variable [old_item] *)
  key_var : keyvar                   (** the variable [key] *)
}.

Definition SOURCE_BUCKET_NAME := "radiant-nasa-iserv".
Definition root_prefix := "https://iserv-stac.s3.amazonaws.com/0.6.1/".
Definition root_href := root_prefix ++ "catalog.json".

Definition root_catalog : node :=
  mk_node "ISERV" DescRoot [mk_link "root" root_href None; mk_link "self" root_href None].

Definition init_st : st :=
  mk_st [("root", root_catalog)] [] [] None KUnbound.

Fixpoint cat_get (k : string) (cs : list (string * node)) : option node :=
  match cs with
  | [] => None
  | (k', n) :: r => if String.eqb k k' then Some n else cat_get k r
  end.

(** [catalogs[k] = n] *)
Fixpoint cat_set (k : string) (n : node) (cs : list (string * node)) : list (string * node) :=
  match cs with
  | [] => [(k, n)]
  | (k', n') :: r => if String.eqb k k' then (k', n) :: r else (k', n') :: cat_set k n r
  end.

(** [n.add_link(...)]: a link whose [rel] and [href] equal those of a link
    of [n] is not added.  (The links the script gives a fresh catalog or
    item, lines 181-182, 225-227 and 374-376, have distinct [rel]s, so
    those are written out as lists.) *)
Definition add_link (l : link) (n : node) : node :=
  if existsb (fun l' => String.eqb (rel l') (rel l) && String.eqb (href l') (href l)) (cat_links n)
  then n
  else mk_node (cat_id n) (cat_desc n) (cat_links n ++ [l]).

(** [catalogs[k].add_link(...)], through any alias of that node *)
Fixpoint cat_add_link (k : string) (l : link) (cs : list (string * node)) : list (string * node) :=
  match cs with
  | [] => []
  | (k', n) :: r =>
      if String.eqb k k' then (k', add_link l n) :: r
      else (k', n) :: cat_add_link k l r
  end.

Definition set_catalogs (cs : list (string * node)) (s : st) : st :=
  mk_st cs (puts s) (outs s) (old_item s) (key_var s).
Definition set_puts (p : list (string * item)) (s : st) : st :=
  mk_st (catalogs s) p (outs s) (old_item s) (key_var s).
Definition emit (o : outline) (s : st) : st :=
  mk_st (catalogs s) (puts s) (outs s ++ [o]) (old_item s) (key_var s).
Definition set_old_item (j : json) (s : st) : st :=
  mk_st (catalogs s) (puts s) (outs s) (Some j) (key_var s).
Definition set_key_var (kv : keyvar) (s : st) : st :=
  mk_st (catalogs s) (puts s) (outs s) (old_item s) kv.

(* ------------------------------------------------------------------ *)
(** ** The catalog tree (lines 195-232) *)

(** [descriptive_timestamp] for a new catalog at depth [len(parents)] *)
Definition describe (depth : nat) (catalog_id : string) : res desc :=
  match depth with
  | O => Ok (DescYear catalog_id)
  | 1 => match strptime_ym catalog_id with
         | Some (y, m) => Ok (DescMonth y m)
         | None => Err ValueError
         end
  | 2 => match strptime_ymd catalog_id with
         | Some (y, m, d) => Ok (DescDay y m d)
         | None => Err ValueError
         end
  | _ => Err NameError  (* unreachable: at most three components *)
  end.

Definition new_catalog (catalog_id : string) (d : desc) : node :=
  mk_node catalog_id d
    [mk_link "root" root_href None;
     mk_link "collection" root_href None;
     mk_link "parent" "../catalog.json" None].

(** One iteration of [for component in path_components]. *)
Definition tree_component (parents : list string) (component : string) : SE st string :=
  fun s =>
    let catalog_id := join_slash (parents ++ [component]) in
    match cat_get catalog_id (catalogs s) with
    | Some _ => (Ok catalog_id, s)
    | None =>
        let pkey := match parents with [] => "root" | _ => join_slash parents end in
        match cat_get pkey (catalogs s) with
        | None => (Err (KeyError pkey), s)
        | Some _ =>
            match describe (length parents) catalog_id with
            | Err e => (Err e, s)
            | Ok d =>
                let cs := cat_add_link pkey
                            (mk_link "child" (component ++ "/catalog.json") None)
                            (catalogs s) in
                (Ok catalog_id,
                 set_catalogs (cat_set catalog_id (new_catalog catalog_id d) cs) s)
            end
        end
    end.

(** The loop; returns the last [catalog_id]. *)
Fixpoint build_path (parents comps : list string) (last : string) : SE st string :=
  match comps with
  | [] => ret last
  | c :: r =>
      cid <- tree_component parents c ;;
      build_path (parents ++ [c]) r cid
  end.

(** [key.key.split("/")[0:3]] *)
Definition path_components (k : string) : list string := firstn 3 (split_slash k).

(** ["https://{}.s3.amazonaws.com/{}".format(SOURCE_BUCKET_NAME, "/".join(key.key.split("/")[0:-1]))] *)
Definition source_prefix (k : string) : string :=
  "https://" ++ SOURCE_BUCKET_NAME ++ ".s3.amazonaws.com/" ++ join_slash (drop_last (split_slash k)).

(* ------------------------------------------------------------------ *)
(** ** The record of one key (lines 234-389) and the loop (line 186) *)

(** [old_item["properties"].get("datetime", old_item["properties"].get("start"))] *)
Definition props_datetime (p : json) : res json :=
  match p with
  | JObj d =>
      Ok (match dict_get "datetime" d with
          | Some v => v
          | None => match dict_get "start" d with Some v => v | None => JNull end
          end)
  | _ => Err AttributeError
  end.

(** [assets = old_item["assets"]] and the normalization of [assets]; the
    mutated [assets] stays inside [old_item]. *)
Definition normalize_record (pre : string) : SE st dict :=
  fun s =>
    match old_item s with
    | None => (Err NameError, s)
    | Some oi =>
        match getitem oi "assets" with
        | Err e => (Err e, s)
        | Ok a =>
            let '(r, a') := normalize pre a in
            let oi' := match oi with JObj d => JObj (dict_set "assets" a' d) | _ => oi end in
            (r, set_old_item oi' s)
        end
    end.

Section Run.

(** The source bucket: the record [json.loads] decodes from a key, [None]
    when the read or the decoding fails. *)
Variable src : string -> option json.
(** Whether [put] to the target bucket succeeds for a key. *)
Variable tgt_ok : string -> bool.

Definition current_old_item (s : st) : json :=
  match old_item s with Some j => j | None => JNull end.

(** The body of the [try] block. *)
Definition try_body (k catalog_id : string) : SE st unit :=
  j <- lift (match src k with Some j => Ok j | None => Err ReadError end) ;;
  modify (set_old_item j) ;;
  new_assets <- normalize_record (source_prefix k) ;;
  oi <- gets current_old_item ;;
  id <- lift (getitem oi "id") ;;
  bbox <- lift (getitem oi "bbox") ;;
  geometry <- lift (getitem oi "geometry") ;;
  props <- lift (getitem oi "properties") ;;
  dt <- lift (props_datetime props) ;;
  let item_href := py_str id ++ ".json" in
  let it := mk_item id bbox geometry dt new_assets
              [mk_link "root" root_href None;
               mk_link "parent" "../catalog.json" None;
               mk_link "self" (root_prefix ++ catalog_id ++ "/" ++ item_href) None] in
  let tkey := "0.6.1/" ++ catalog_id ++ "/" ++ item_href in
  modify (set_key_var (KStr tkey)) ;;
  modify (emit (OutKey tkey)) ;;
  (if tgt_ok tkey then modify (fun s => set_puts (puts s ++ [(tkey, it)]) s)
   else raise WriteError) ;;
  modify (fun s => set_catalogs
                     (cat_add_link catalog_id (mk_link "item" item_href (Some id)) (catalogs s)) s).

(** [except Exception as e: print(key.key); del old_item["geometry"];
    print(json.dumps(old_item)); raise e] *)
Definition handler (e : exn) : SE st unit :=
  fun s =>
    match key_var s with
    | KObj k =>
        let s1 := emit (OutKey k) s in
        match old_item s1 with
        | None => (Err NameError, s1)
        | Some (JObj d) =>
            match dict_del "geometry" d with
            | None => (Err (KeyError "geometry"), s1)
            | Some d' => (Err e, emit (OutJson (JObj d')) (set_old_item (JObj d') s1))
            end
        | Some _ => (Err TypeError, s1)
        end
    | _ => (Err AttributeError, s)   (* [key] is a str: [key.key] fails *)
    end.

(** One iteration of [for key in source_bucket.objects.all()]. *)
Definition process_key (k : string) : SE st unit :=
  modify (set_key_var (KObj k)) ;;
  if skip_key k then ret tt
  else
    catalog_id <- build_path [] (path_components k) "" ;;
    try_except (try_body k catalog_id) handler.

Fixpoint run (ks : list string) : SE st unit :=
  match ks with
  | [] => ret tt
  | k :: r => process_key k ;; run r
  end.

End Run.

(* ------------------------------------------------------------------ *)
(** ** The catalog objects (lines 390-400) *)

(** [s.replace(old, new)] for a non-empty [old]: the occurrences are
    found left to right without overlap; [skip] counts the characters of
    the occurrence just replaced that are still to be dropped. *)
Fixpoint replace_from (old new : string) (skip : nat) (s : string) : string :=
  match s with
  | EmptyString => EmptyString
  | String c r =>
      match skip with
      | S n => replace_from old new n r
      | O =>
          if String.prefix old s then new ++ replace_from old new (String.length old - 1) r
          else String c (replace_from old new 0 r)
      end
  end.

Definition py_replace (s old new : string) : string := replace_from old new 0 s.

(** [d.update(dict.fromkeys(mapping))] on the keys of [d]: a key not yet
    in [d] goes last. *)
Definition update_keys (ks : list string) (m : dict) : list string :=
  fold_left (fun ks k => if existsb (String.eqb k) ks then ks else (ks ++ [k])%list)
    (dict_keys m) ks.

(** [iter(ChainMap( *maps))]: the keys of the maps, the last map first. *)
Definition chainmap_keys (maps : list dict) : list string :=
  fold_left update_keys (rev maps) [].

(** [dict(ChainMap( *maps))]: [d[k] = cm[k]] for each key, where [cm[k]]
    is the value of the first map holding [k]. *)
Definition chainmap_dict (maps : list dict) : dict :=
  fold_left (fun d k => match first_some (dict_get k) maps with
                        | Some v => dict_set k v d
                        | None => d   (* unreachable: [k] is a key of a map *)
                        end)
    (chainmap_keys maps) [].

(** [element = dict(ChainMap({}, {"stac_version": "0.6.1"}, v.data))] *)
Definition catalog_element (data : dict) : dict :=
  chainmap_dict [[]; [("stac_version", JStr "0.6.1")]; data].

(** The key of the catalog object; [v.id] is [v.data["id"]], compared
    with the string ["ISERV"]. *)
Definition catalog_key (data : dict) : res string :=
  let element := catalog_element data in
  match dict_get "id" data with
  | None => Err (KeyError "id")
  | Some idv =>
      if match idv with JStr i => String.eqb i "ISERV" | _ => false end then
        Ok "0.6.1/catalog.json"
      else
        match dict_get "id" element with
        | Some (JStr e) => Ok ("0.6.1/" ++ py_replace e "ISERV" "" ++ "/catalog.json")
        | Some _ => Err AttributeError
        | None => Err (KeyError "id")
        end
  end.

(** [for v in catalogs.values(): ...]: [data] is [v.data] of each
    catalog, the state the printed lines and the objects written with their
    bodies ([json.dumps(element)], kept as the dict); [tgt_ok] tells
    whether a [put] succeeds. *)
Fixpoint write_catalogs (tgt_ok : string -> bool) (vs : list dict)
  : SE (list outline * list (string * dict)) unit :=
  match vs with
  | [] => ret tt
  | data :: r =>
      key <- lift (catalog_key data) ;;
      modify (fun '(o, p) => ((o ++ [OutKey key])%list, p)) ;;
      (if tgt_ok key then modify (fun '(o, p) => (o, (p ++ [(key, catalog_element data)])%list))
       else raise WriteError) ;;
      write_catalogs tgt_ok r
  end.

(* ================================================================== *)
(** * Auxiliary definitions for the statements *)

(** What each mapping-shape block does to its entry when it succeeds. *)
Definition tf_std (pre : string) (title ty : json) (d : dict) : option dict :=
  match dict_get "href" d with
  | Some h =>
      dict_del "name"
        (dict_set "type" ty (dict_set "title" title (dict_set "href" (abs_href pre h) d)))
  | None => None
  end.

Definition tf_tiff (pre : string) (d : dict) : option dict :=
  match dict_get "href" d with
  | Some h =>
      dict_del "name"
        (dict_set "eo:bands" (JArr [JNum "0"; JNum "1"; JNum "2"])
          (dict_set "type" (JStr "image/vnd.stac.geotiff")
            (dict_set "title" (JStr "RGB GeoTIFF") (dict_set "href" (abs_href pre h) d))))
  | None => None
  end.

Definition tf_named (pre : string) (ty : json) (d : dict) : option dict :=
  match dict_get "href" d, dict_get "name" d with
  | Some h, Some n =>
      dict_del "name" (dict_set "type" ty (dict_set "title" n (dict_set "href" (abs_href pre h) d)))
  | _, _ => None
  end.

Definition tf_visual (pre : string) (d : dict) : option dict :=
  match dict_get "href" d, dict_get "name" d with
  | Some h, Some n =>
      match dict_del "format"
              (dict_set "type" (JStr "image/vnd.stac.geotiff; cloud-optimized=true")
                (dict_set "title" n (dict_set "href" (abs_href pre h) d))) with
      | Some d1 => dict_del "name" d1
      | None => None
      end
  | _, _ => None
  end.

(** The legacy role keys of the mapping shape that must be present. *)
Definition mandatory_roles : list string :=
  ["RGB Tif"; "RGB JPEG"; "jpg overview"; "jpeg world file"; "thumbnail"; "cog"].

(** The fixed table of the mapping shape: legacy role, output key, title
    ([None]: the legacy [name]), media type. *)
Definition role_table : list (string * string * option string * string) :=
  [("RGB Tif", "original TIFF", Some "RGB GeoTIFF", "image/vnd.stac.geotiff");
   ("tiff world file", "original TIFF world file", Some "RGB GeoTIFF world file", "text/plain");
   ("RGB JPEG", "JPEG", None, "image/jpeg");
   ("jpg overview", "JPEG overviews", Some "JPEG overviews", "image/tiff");
   ("jpeg world file", "JPEG world file", Some "JPEG world file", "text/plain");
   ("thumbnail", "thumbnail", Some "Thumbnail", "image/png");
   ("cog", "visual", None, "image/vnd.stac.geotiff; cloud-optimized=true")].

(** A legacy entry the code can rewrite: a dict (with distinct keys, as
    [json.loads] builds it) with [href] and [name], and [format] for [cog]. *)
Definition wf_entry (needs_format : bool) (v : option json) : Prop :=
  exists d, v = Some (JObj d) /\ NoDup (dict_keys d) /\
    dict_get "href" d <> None /\ dict_get "name" d <> None /\
    (needs_format = true -> dict_get "format" d <> None).

(** A legacy entry the code cannot rewrite: not a dict, or a dict without
    [href] or [name], or (for [cog]) without [format]. *)
Definition bad_entry (needs_format : bool) (j : json) : Prop :=
  match j with
  | JObj d => dict_get "href" d = None \/ dict_get "name" d = None \/
              (needs_format = true /\ dict_get "format" d = None)
  | _ => True
  end.

Definition wf_mapping (ad : dict) : Prop :=
  Forall (fun r => wf_entry (String.eqb r "cog") (dict_get r ad)) mandatory_roles /\
  (dict_get "tiff world file" ad = None \/ wf_entry false (dict_get "tiff world file" ad)).

(** The normalized entry [e] made from the legacy entry [d] of role [r]. *)
Definition entry_ok (pre r : string) (t : option string) (ty : string) (d e : dict) : Prop :=
  dict_get "href" e = option_map (abs_href pre) (dict_get "href" d) /\
  dict_get "title" e = match t with Some s => Some (JStr s) | None => dict_get "name" d end /\
  dict_get "type" e = Some (JStr ty) /\
  dict_get "name" e = None /\
  dict_get "format" e = (if String.eqb r "cog" then None else dict_get "format" d).


(** ** A sample legacy record *)

Definition ex_entry (h n f : string) : json :=
  JObj [("href", JStr h); ("name", JStr n); ("format", JStr f)].

(** The [assets] of a mapping-shape record with the six mandatory roles. *)
Definition ex_assets : dict :=
  [("RGB Tif", ex_entry "IP0130327141828.TIF" "RGB Tif" "GeoTIFF");
   ("RGB JPEG", ex_entry "IP0130327141828.JPG" "RGB JPEG" "JPEG");
   ("jpg overview", ex_entry "IP0130327141828.JPG.ovr" "JPEG overview" "TIFF");
   ("jpeg world file", ex_entry "IP0130327141828.JGW" "JPEG world file" "text");
   ("thumbnail", ex_entry "IP0130327141828_thumb.png" "Thumbnail" "PNG");
   ("cog", ex_entry "IP0130327141828_cog.tif" "Cloud optimized GeoTIFF" "COG")].

Definition ex_record_with (props : dict) (assets : json) : json :=
  JObj [("id", JStr "IP0130327141828");
        ("bbox", JArr [JNum "-90.5"; JNum "14.5"; JNum "-90.4"; JNum "14.6"]);
        ("geometry", JObj [("type", JStr "Point")]);
        ("properties", JObj props);
        ("assets", assets)].

Definition ex_record : json :=
  ex_record_with [("datetime", JStr "2013-03-27T14:18:28Z")] (JObj ex_assets).

Definition ex_key : string := "2013/03/27/IP0130327141828.json".

(** A computation on [assets] that, run on a dict whose entry for the
    role [r] is [o] ([None]: absent), leaves that entry as it was when it
    succeeds. *)
Definition keeps_entry {A} (r : string) (o : option json) (m : SE json A) : Prop :=
  forall ad v s', dict_get r ad = o -> m (JObj ad) = (Ok v, s') ->
    exists ad', s' = JObj ad' /\ dict_get r ad' = o.

(** A computation on [assets] that raises on a dict whose entry for the
    role [r] is [o]. *)
Definition fails_entry {A} (r : string) (o : option json) (m : SE json A) : Prop :=
  forall ad, dict_get r ad = o -> exists e s', m (JObj ad) = (Err e, s').

(** [oi] is the record [j] with, at most, its [assets] value replaced. *)
Definition record_rel (j oi : json) : Prop :=
  match j with
  | JObj dj => exists d, oi = JObj d /\ forall x, x <> "assets" -> dict_get x d = dict_get x dj
  | _ => oi = j
  end.

(** The item [try_body] writes for the record [oi] and the assets [out]. *)
Definition item_of (catalog_id : string) (oi : json) (out : dict) : option (string * item) :=
  match getitem oi "id", getitem oi "bbox", getitem oi "geometry", getitem oi "properties" with
  | Ok id, Ok bbox, Ok geometry, Ok props =>
      match props_datetime props with
      | Ok dt =>
          let item_href := py_str id ++ ".json" in
          Some ("0.6.1/" ++ catalog_id ++ "/" ++ item_href,
                mk_item id bbox geometry dt out
                  [mk_link "root" root_href None;
                   mk_link "parent" "../catalog.json" None;
                   mk_link "self" (root_prefix ++ catalog_id ++ "/" ++ item_href) None])
      | Err _ => None
      end
  | _, _, _, _ => None
  end.

(** A source bucket holding the record [r] under [ex_key] only, and a
    target bucket that accepts every write. *)
Definition ex_src (r : json) (k : string) : option json :=
  if String.eqb k ex_key then Some r else None.

Definition all_ok (_ : string) : bool := true.

(** The links of relation [r] of a catalog node. *)
Definition links_with (r : string) (n : node) : list link :=
  filter (fun l => String.eqb (rel l) r) (cat_links n).

(** The keys of the six canonical assets of a record without a
    [tiff world file]. *)
Definition six_asset_keys : list string :=
  ["original TIFF"; "JPEG"; "JPEG overviews"; "JPEG world file"; "thumbnail"; "visual"].

(** The last path segment of a key, [k.split("/")[-1]]. *)
Definition filename (k : string) : string := last (split_slash k) "".

(** ["/" in s] *)
Fixpoint has_slash (s : string) : bool :=
  match s with
  | EmptyString => false
  | String c r => Ascii.eqb c "/" || has_slash r
  end.

(** ** The catalog tree as the claims see it *)

(** [keys] extended by the elements of [l] it does not hold yet, in the
    order of their first occurrence. *)
Fixpoint add_new (keys l : list string) : list string :=
  match l with
  | [] => keys
  | x :: r => add_new (if existsb (String.eqb x) keys then keys else (keys ++ [x])%list) r
  end.

(** The year, year/month and year/month/day prefixes of a key. *)
Definition prefixes (k : string) : list string :=
  map (fun n => join_slash (firstn n (path_components k))) (seq 1 (length (path_components k))).

Definition nonroot (p : string) : bool := negb (String.eqb p "root").

(** The catalog the node of prefix [p] hangs under: the prefix one
    component shorter, or the root. *)
Definition parent_key (p : string) : string :=
  match drop_last (split_slash p) with
  | [] => "root"
  | ps => join_slash ps
  end.

(** The [child] link the parent of the node [p] holds for it: the holder
    and the href, relative to the holder's catalog. *)
Definition child_edge (p : string) : string * string :=
  (parent_key p, filename p ++ "/catalog.json").

(** All [child] links of the catalogs, as (holder, href) pairs. *)
Definition child_edges (cs : list (string * node)) : list (string * string) :=
  flat_map (fun '(k, n) => map (fun l => (k, href l)) (links_with "child" n)) cs.

(** Every catalog key is held once, and a non-root node's id is its key. *)
Definition ids_ok (cs : list (string * node)) : Prop :=
  NoDup (map fst cs) /\ forall p n, In (p, n) cs -> p <> "root" -> cat_id n = p.

(** The tree invariant: the root is a key; the [child] links, as pairs
    (holder key, href), are one per non-root key [p], held by [parent_key p]
    with href [filename p ++ "/catalog.json"]; every non-root node has the
    single [parent] link and its parent key is in the map. *)
Definition tree_ok (cs : list (string * node)) : Prop :=
  In "root" (map fst cs) /\
  Permutation (child_edges cs) (map child_edge (filter nonroot (map fst cs))) /\
  forall p n, In (p, n) cs -> p <> "root" ->
    links_with "parent" n = [mk_link "parent" "../catalog.json" None] /\
    In (parent_key p) (map fst cs).

(** No catalog key has the single component ["root"] above it: the first
    component ["root"] is served by the root node, and the month id
    ["root/..."] never parses. *)
Definition no_root_child (cs : list (string * node)) : Prop :=
  forall p, In p (map fst cs) -> drop_last (split_slash p) <> ["root"].

(** ** For the further properties *)

(** All [item] links of the catalogs, as (holder, href) pairs. *)
Definition item_edges (cs : list (string * node)) : list (string * string) :=
  flat_map (fun '(k, n) => map (fun l => (k, href l)) (links_with "item" n)) cs.

(** The links of relation [rr] of the catalogs, as (holder, href) pairs;
    [child_edges] and [item_edges] are its instances. *)
Definition rel_edges (rr : string) (cs : list (string * node)) : list (string * string) :=
  flat_map (fun '(k, n) => map (fun l => (k, href l)) (links_with rr n)) cs.

(** The target key an [item] link of the catalog [c] resolves to. *)
Definition item_object_key (e : string * string) : string :=
  "0.6.1/" ++ fst e ++ "/" ++ snd e.


(** The description a catalog node carries, read off its key: the root is
    the [ISERV] catalog; a year node is described by its key, a month node
    by the date [strptime(key, "%Y/%m")] gives, a day node by the date
    [strptime(key, "%Y/%m/%d")] gives. *)
Definition node_desc_ok (p : string) (n : node) : Prop :=
  if String.eqb p "root" then cat_id n = "ISERV" /\ cat_desc n = DescRoot
  else match cat_desc n with
       | DescRoot => False
       | DescYear y => length (split_slash p) = 1%nat /\ y = p
       | DescMonth y m => length (split_slash p) = 2%nat /\ strptime_ym p = Some (y, m)
       | DescDay y m d => length (split_slash p) = 3%nat /\ strptime_ymd p = Some (y, m, d)
       end.

Definition desc_ok (cs : list (string * node)) : Prop :=
  In "root" (map fst cs) /\ forall p n, In (p, n) cs -> node_desc_ok p n.

(** The decimal digit [n] and the zero-padded renderings ["%02d" % n] and
    ["%04d" % n]. *)
Definition digit_char (n : Z) : ascii := ascii_of_nat (48 + Z.to_nat n).
Definition pad2 (n : Z) : string :=
  String (digit_char (n / 10)) (String (digit_char (n mod 10)) EmptyString).
Definition pad4 (n : Z) : string :=
  String (digit_char (n / 1000)) (String (digit_char (n / 100 mod 10))
    (String (digit_char (n / 10 mod 10)) (String (digit_char (n mod 10)) EmptyString))).

(** What [strptime_ym] and [strptime_ymd] do after the year. *)
Definition ym_tail (r1 : string) : option Z :=
  match re_slash r1 with
  | Some r2 =>
      match re_month r2 with
      | (m, rest) :: _ => if String.eqb rest "" then Some m else None
      | [] => None
      end
  | None => None
  end.

Definition ymd_tail (r1 : string) : option (Z * Z) :=
  match re_slash r1 with
  | Some r2 =>
      let m_then_day (mr : Z * string) : option (Z * Z * string) :=
        let '(m, r3) := mr in
        match re_slash r3 with
        | Some r4 =>
            match re_day r4 with
            | (d, rest) :: _ => Some (m, d, rest)
            | [] => None
            end
        | None => None
        end in
      match first_some m_then_day (re_month r2) with
      | Some (m, d, rest) => if String.eqb rest "" then Some (m, d) else None
      | None => None
      end
  | None => None
  end.

Definition zrange (n : nat) : list Z := map Z.of_nat (seq 0 n).

(** The last href of [hs] with suffix [suf]. *)
Definition last_match (suf : string) (hs : list string) : option string :=
  fold_left (fun acc h => if endswith h suf then Some h else acc) hs None.

(** The object key the final loop gives the catalog of key [p], whose id
    is [p] (["ISERV"] for the root). *)
Definition catalog_object_key (p : string) : string :=
  if String.eqb p "root" || String.eqb p "ISERV" then "0.6.1/catalog.json"
  else "0.6.1/" ++ py_replace p "ISERV" "" ++ "/catalog.json".

(** Equality tests of the results [ym_tail] and [ymd_tail] give. *)
Definition opt_z_eqb (a b : option Z) : bool :=
  match a, b with Some x, Some y => Z.eqb x y | None, None => true | _, _ => false end.
Definition opt_zz_eqb (a b : option (Z * Z)) : bool :=
  match a, b with
  | Some (x1, x2), Some (y1, y2) => Z.eqb x1 y1 && Z.eqb x2 y2
  | None, None => true | _, _ => false end.

(** The entries of [dict(ChainMap({}, {"stac_version": "0.6.1"}, data))]. *)
Definition element_lookup (data : dict) (k : string) : option json :=
  first_some (dict_get k) [[]; [("stac_version", JStr "0.6.1")]; data].
Definition element_entry (data : dict) (k : string) : list (string * json) :=
  match element_lookup data k with Some x => [(k, x)] | None => [] end.
Definition sv_rep (e : string * json) : string * json :=
  (fst e, if String.eqb (fst e) "stac_version" then JStr "0.6.1" else snd e).

(** The item writes of the run so far: the catalogs hold no [item] link
    twice, their [item] links resolve to exactly the keys written, and each
    write comes from a processed key. *)
Definition items_ok (ks : list string) (s : st) : Prop :=
  NoDup (item_edges (catalogs s)) /\
  (forall x, In x (map item_object_key (item_edges (catalogs s))) <-> In x (map fst (puts s))) /\
  forall tkey it, In (tkey, it) (puts s) ->
    exists k, In k ks /\ skip_key k = false /\
      tkey = "0.6.1/" ++ join_slash (path_components k) ++ "/" ++ py_str (item_id it) ++ ".json" /\
      item_links it = [mk_link "root" root_href None; mk_link "parent" "../catalog.json" None;
                       mk_link "self" ("https://iserv-stac.s3.amazonaws.com/" ++ tkey) None].

(* ================================================================== *)
(** * Lemmas *)

(** ** Dicts *)

Lemma dict_get_set_same k v d : dict_get k (dict_set k v d) = Some v.
Proof.
  induction d as [|[k' v'] r IH]; simpl.
  - now rewrite String.eqb_refl.
  - destruct (String.eqb k k') eqn:E; simpl; rewrite ?E; auto.
Qed.

Lemma dict_get_set_other k k' v d :
  k <> k' -> dict_get k (dict_set k' v d) = dict_get k d.
Proof.
  intros Hne. induction d as [|[k0 v0] r IH]; simpl.
  - destruct (String.eqb_spec k k'); congruence.
  - destruct (String.eqb_spec k' k0) as [->|Hn]; simpl.
    + destruct (String.eqb_spec k k0); congruence.
    + destruct (String.eqb k k0); auto.
Qed.

Lemma dict_set_set k v1 v2 d : dict_set k v2 (dict_set k v1 d) = dict_set k v2 d.
Proof.
  induction d as [|[k0 v0] r IH]; simpl.
  - now rewrite String.eqb_refl.
  - destruct (String.eqb k k0) eqn:E; simpl; rewrite E; f_equal; auto.
Qed.

Lemma dict_keys_set_present k v d :
  dict_get k d <> None -> dict_keys (dict_set k v d) = dict_keys d.
Proof.
  induction d as [|[k0 v0] r IH]; simpl; intros H.
  - congruence.
  - destruct (String.eqb k k0); simpl; f_equal; auto.
Qed.

Lemma dict_get_in k d : dict_get k d <> None <-> In k (dict_keys d).
Proof.
  induction d as [|[k0 v0] r IH]; simpl.
  - split; [congruence | tauto].
  - destruct (String.eqb_spec k k0) as [->|Hn].
    + split; [auto | congruence].
    + rewrite IH. intuition congruence.
Qed.

Lemma dict_keys_set_absent k v d :
  dict_get k d = None -> dict_keys (dict_set k v d) = (dict_keys d ++ [k])%list.
Proof.
  induction d as [|[k0 v0] r IH]; simpl; intros H; auto.
  destruct (String.eqb k k0); [discriminate|]. simpl; f_equal; auto.
Qed.

Lemma dict_set_nodup k v d :
  NoDup (dict_keys d) -> NoDup (dict_keys (dict_set k v d)).
Proof.
  intros Hn. destruct (dict_get k d) eqn:E.
  - rewrite dict_keys_set_present by congruence; auto.
  - rewrite dict_keys_set_absent by auto.
    apply NoDup_app; auto using NoDup_cons, NoDup_nil.
    intros x Hx [<-|[]]. apply (proj2 (dict_get_in k d)) in Hx. congruence.
Qed.

Lemma dict_del_keys k d d' :
  dict_del k d = Some d' -> exists p q, dict_keys d = (p ++ k :: q)%list /\ dict_keys d' = (p ++ q)%list.
Proof.
  revert d'. induction d as [|[k0 v0] r IH]; simpl; intros d' H; [discriminate|].
  destruct (String.eqb_spec k k0) as [->|Hn].
  - inversion H; subst. now exists [], (dict_keys d').
  - destruct (dict_del k r) as [r'|] eqn:E; inversion H; subst.
    destruct (IH r' eq_refl) as (p & q & E1 & E2).
    exists (k0 :: p), q. simpl. rewrite E1, E2. auto.
Qed.

Lemma dict_del_nodup k d d' :
  NoDup (dict_keys d) -> dict_del k d = Some d' ->
  NoDup (dict_keys d') /\ dict_get k d' = None.
Proof.
  intros Hn Hd. destruct (dict_del_keys k d d' Hd) as (p & q & E1 & E2).
  rewrite E1 in Hn. apply NoDup_remove in Hn as [Hn Hk].
  split; [now rewrite E2|].
  destruct (dict_get k d') eqn:E; auto.
  exfalso. apply Hk. rewrite <- E2. apply dict_get_in. congruence.
Qed.

Lemma dict_del_other k k' d d' :
  k <> k' -> dict_del k' d = Some d' -> dict_get k d' = dict_get k d.
Proof.
  intros Hne. revert d'. induction d as [|[k0 v0] r IH]; simpl; intros d' H; [discriminate|].
  destruct (String.eqb_spec k' k0) as [->|Hn].
  - inversion H; subst. destruct (String.eqb_spec k k0); congruence.
  - destruct (dict_del k' r) as [r'|] eqn:E; inversion H; subst; simpl.
    destruct (String.eqb k k0); auto.
Qed.

Lemma dict_del_present k d : dict_get k d <> None -> exists d', dict_del k d = Some d'.
Proof.
  induction d as [|[k0 v0] r IH]; simpl; intros H; [congruence|].
  destruct (String.eqb k k0); eauto.
  destruct (IH H) as [d' ->]. simpl; eauto.
Qed.

Lemma dict_del_absent k d : dict_get k d = None -> dict_del k d = None.
Proof.
  induction d as [|[k0 v0] r IH]; simpl; intros H; auto.
  destruct (String.eqb k k0); [discriminate|]. now rewrite IH.
Qed.

(** ** The monad *)

Lemma bind_ok {S A B} (m : SE S A) (k : A -> SE S B) s a s' :
  m s = (Ok a, s') -> bind m k s = k a s'.
Proof. intros H. unfold bind. now rewrite H. Qed.

Lemma bind_err {S A B} (m : SE S A) (k : A -> SE S B) s e s' :
  m s = (Err e, s') -> bind m k s = (Err e, s').
Proof. intros H. unfold bind. now rewrite H. Qed.

Lemma role_get_ok r ad v : dict_get r ad = Some v -> role_get r (JObj ad) = (Ok v, JObj ad).
Proof. intros H. unfold role_get, getitem. now rewrite H. Qed.

Lemma role_get_absent r ad : dict_get r ad = None -> role_get r (JObj ad) = (Err (KeyError r), JObj ad).
Proof. intros H. unfold role_get, getitem. now rewrite H. Qed.

Lemma field_get_ok r k ad d v :
  dict_get r ad = Some (JObj d) -> dict_get k d = Some v ->
  field_get r k (JObj ad) = (Ok v, JObj ad).
Proof. intros H1 H2. unfold field_get, bind, role_get, getitem, lift. now rewrite H1, H2. Qed.

Lemma field_set_ok r k v ad d :
  dict_get r ad = Some (JObj d) ->
  field_set r k v (JObj ad) = (Ok tt, JObj (dict_set r (JObj (dict_set k v d)) ad)).
Proof. intros H. unfold field_set. now rewrite H. Qed.

Lemma field_del_ok r k ad d d' :
  dict_get r ad = Some (JObj d) -> dict_del k d = Some d' ->
  field_del r k (JObj ad) = (Ok tt, JObj (dict_set r (JObj d') ad)).
Proof. intros H1 H2. unfold field_del. now rewrite H1, H2. Qed.

Lemma rewrite_href_ok pre r ad d h :
  dict_get r ad = Some (JObj d) -> dict_get "href" d = Some h ->
  rewrite_href pre r (JObj ad) = (Ok tt, JObj (dict_set r (JObj (dict_set "href" (abs_href pre h) d)) ad)).
Proof.
  intros H1 H2. unfold rewrite_href.
  rewrite (bind_ok _ _ _ _ _ (field_get_ok _ _ _ _ _ H1 H2)).
  now apply field_set_ok.
Qed.

Lemma role_get_set r v ad : role_get r (JObj (dict_set r v ad)) = (Ok v, JObj (dict_set r v ad)).
Proof. apply role_get_ok, dict_get_set_same. Qed.

Lemma field_set_set r k v d ad :
  field_set r k v (JObj (dict_set r (JObj d) ad)) =
  (Ok tt, JObj (dict_set r (JObj (dict_set k v d)) ad)).
Proof. rewrite field_set_ok with (d := d) by apply dict_get_set_same. now rewrite dict_set_set. Qed.

Lemma field_get_set r k v d ad :
  dict_get k d = Some v ->
  field_get r k (JObj (dict_set r (JObj d) ad)) = (Ok v, JObj (dict_set r (JObj d) ad)).
Proof. intros H. eapply field_get_ok; [apply dict_get_set_same | exact H]. Qed.

Lemma field_del_set r k d d' ad :
  dict_del k d = Some d' ->
  field_del r k (JObj (dict_set r (JObj d) ad)) = (Ok tt, JObj (dict_set r (JObj d') ad)).
Proof.
  intros H. rewrite field_del_ok with (d := d) (d' := d') by auto using dict_get_set_same.
  now rewrite dict_set_set.
Qed.

(** Runs a block forward, one primitive at a time. *)
Ltac run_block :=
  repeat first
    [ erewrite bind_ok by (apply role_get_set)
    | erewrite bind_ok by (apply field_set_set)
    | erewrite bind_ok by (eapply field_get_set;
                           rewrite ?dict_get_set_other by discriminate; eassumption)
    | erewrite bind_ok by (eapply field_del_set; eassumption)
    | erewrite bind_ok by (apply role_get_ok; eassumption)
    | erewrite bind_ok by (eapply rewrite_href_ok; eassumption)
    | apply role_get_set ].

Lemma tiff_block_ok pre ad d d' :
  dict_get "RGB Tif" ad = Some (JObj d) -> tf_tiff pre d = Some d' ->
  tiff_block pre (JObj ad) = (Ok (JObj d'), JObj (dict_set "RGB Tif" (JObj d') ad)).
Proof.
  intros H1 H2. unfold tf_tiff in H2.
  destruct (dict_get "href" d) as [h|] eqn:Eh; [|discriminate].
  unfold tiff_block. run_block.
Qed.

Lemma tiff_world_block_ok pre ad d d' :
  dict_get "tiff world file" ad = Some (JObj d) ->
  tf_std pre (JStr "RGB GeoTIFF world file") (JStr "text/plain") d = Some d' ->
  tiff_world_block pre (JObj ad) = (Ok (JObj d'), JObj (dict_set "tiff world file" (JObj d') ad)).
Proof.
  intros H1 H2. unfold tf_std in H2.
  destruct (dict_get "href" d) as [h|] eqn:Eh; [|discriminate].
  unfold tiff_world_block. run_block.
Qed.

Lemma overview_block_ok pre ad d d' :
  dict_get "jpg overview" ad = Some (JObj d) ->
  tf_std pre (JStr "JPEG overviews") (JStr "image/tiff") d = Some d' ->
  overview_block pre (JObj ad) = (Ok (JObj d'), JObj (dict_set "jpg overview" (JObj d') ad)).
Proof.
  intros H1 H2. unfold tf_std in H2.
  destruct (dict_get "href" d) as [h|] eqn:Eh; [|discriminate].
  unfold overview_block. run_block.
Qed.

Lemma jpeg_world_block_ok pre ad d d' :
  dict_get "jpeg world file" ad = Some (JObj d) ->
  tf_std pre (JStr "JPEG world file") (JStr "text/plain") d = Some d' ->
  jpeg_world_block pre (JObj ad) = (Ok (JObj d'), JObj (dict_set "jpeg world file" (JObj d') ad)).
Proof.
  intros H1 H2. unfold tf_std in H2.
  destruct (dict_get "href" d) as [h|] eqn:Eh; [|discriminate].
  unfold jpeg_world_block. run_block.
Qed.

Lemma thumbnail_block_ok pre ad d d' :
  dict_get "thumbnail" ad = Some (JObj d) ->
  tf_std pre (JStr "Thumbnail") (JStr "image/png") d = Some d' ->
  thumbnail_block pre (JObj ad) = (Ok (JObj d'), JObj (dict_set "thumbnail" (JObj d') ad)).
Proof.
  intros H1 H2. unfold tf_std in H2.
  destruct (dict_get "href" d) as [h|] eqn:Eh; [|discriminate].
  unfold thumbnail_block. run_block.
Qed.

Lemma jpeg_block_ok pre ad d d' :
  dict_get "RGB JPEG" ad = Some (JObj d) ->
  tf_named pre (JStr "image/jpeg") d = Some d' ->
  jpeg_block pre (JObj ad) = (Ok (JObj d'), JObj (dict_set "RGB JPEG" (JObj d') ad)).
Proof.
  intros H1 H2. unfold tf_named in H2.
  destruct (dict_get "href" d) as [h|] eqn:Eh; [|discriminate].
  destruct (dict_get "name" d) as [n|] eqn:En; [|discriminate].
  unfold jpeg_block. run_block.
Qed.

Lemma visual_block_ok pre ad d d' :
  dict_get "cog" ad = Some (JObj d) ->
  tf_visual pre d = Some d' ->
  visual_block pre (JObj ad) = (Ok (JObj d'), JObj (dict_set "cog" (JObj d') ad)).
Proof.
  intros H1 H2. unfold tf_visual in H2.
  destruct (dict_get "href" d) as [h|] eqn:Eh; [|discriminate].
  destruct (dict_get "name" d) as [n|] eqn:En; [|discriminate].
  match type of H2 with
  | match ?x with _ => _ end = _ => destruct x as [d1|] eqn:E1; [|discriminate]
  end.
  unfold visual_block. run_block.
Qed.

Lemma role_in_obj r ad :
  role_in r (JObj ad) = (Ok (if dict_get r ad then true else false), JObj ad).
Proof. reflexivity. Qed.

Ltac other_role := rewrite ?dict_get_set_other by discriminate; eassumption.

Ltac run_mapping :=
  repeat first
    [ erewrite bind_ok by (eapply tiff_block_ok; [other_role | eassumption])
    | erewrite bind_ok by (eapply tiff_world_block_ok; [other_role | eassumption])
    | erewrite bind_ok by (eapply jpeg_block_ok; [other_role | eassumption])
    | erewrite bind_ok by (eapply overview_block_ok; [other_role | eassumption])
    | erewrite bind_ok by (eapply jpeg_world_block_ok; [other_role | eassumption])
    | erewrite bind_ok by (eapply thumbnail_block_ok; [other_role | eassumption])
    | erewrite bind_ok by (eapply visual_block_ok; [other_role | eassumption])
    | erewrite bind_ok by (apply role_in_obj)
    | erewrite bind_ok by (erewrite bind_ok by (eapply tiff_world_block_ok;
                                                [other_role | eassumption]); reflexivity) ].

Section Mapping.
Variables (pre : string) (ad : dict).
Variables (d1 d2 d3 d4 d5 d6 e1 e2 e3 e4 e5 e6 : dict).
Hypothesis H1 : dict_get "RGB Tif" ad = Some (JObj d1).
Hypothesis T1 : tf_tiff pre d1 = Some e1.
Hypothesis H2 : dict_get "RGB JPEG" ad = Some (JObj d2).
Hypothesis T2 : tf_named pre (JStr "image/jpeg") d2 = Some e2.
Hypothesis H3 : dict_get "jpg overview" ad = Some (JObj d3).
Hypothesis T3 : tf_std pre (JStr "JPEG overviews") (JStr "image/tiff") d3 = Some e3.
Hypothesis H4 : dict_get "jpeg world file" ad = Some (JObj d4).
Hypothesis T4 : tf_std pre (JStr "JPEG world file") (JStr "text/plain") d4 = Some e4.
Hypothesis H5 : dict_get "thumbnail" ad = Some (JObj d5).
Hypothesis T5 : tf_std pre (JStr "Thumbnail") (JStr "image/png") d5 = Some e5.
Hypothesis H6 : dict_get "cog" ad = Some (JObj d6).
Hypothesis T6 : tf_visual pre d6 = Some e6.

Lemma mapping_shape_no_world :
  dict_get "tiff world file" ad = None ->
  mapping_shape pre (JObj ad) =
  (Ok [("original TIFF", JObj e1); ("JPEG", JObj e2); ("JPEG overviews", JObj e3);
       ("JPEG world file", JObj e4); ("thumbnail", JObj e5); ("visual", JObj e6)],
   JObj (dict_set "cog" (JObj e6) (dict_set "thumbnail" (JObj e5)
          (dict_set "jpeg world file" (JObj e4) (dict_set "jpg overview" (JObj e3)
            (dict_set "RGB JPEG" (JObj e2) (dict_set "RGB Tif" (JObj e1) ad))))))).
Proof.
  intros H0. unfold mapping_shape. run_mapping.
  rewrite dict_get_set_other, H0 by discriminate.
  unfold ret at 1. rewrite (bind_ok _ _ _ _ _ eq_refl). run_mapping. reflexivity.
Qed.

Lemma mapping_shape_world d0 e0 :
  dict_get "tiff world file" ad = Some (JObj d0) ->
  tf_std pre (JStr "RGB GeoTIFF world file") (JStr "text/plain") d0 = Some e0 ->
  mapping_shape pre (JObj ad) =
  (Ok [("original TIFF", JObj e1); ("original TIFF world file", JObj e0);
       ("JPEG", JObj e2); ("JPEG overviews", JObj e3);
       ("JPEG world file", JObj e4); ("thumbnail", JObj e5); ("visual", JObj e6)],
   JObj (dict_set "cog" (JObj e6) (dict_set "thumbnail" (JObj e5)
          (dict_set "jpeg world file" (JObj e4) (dict_set "jpg overview" (JObj e3)
            (dict_set "RGB JPEG" (JObj e2) (dict_set "tiff world file" (JObj e0)
              (dict_set "RGB Tif" (JObj e1) ad)))))))).
Proof.
  intros H0 T0. unfold mapping_shape. run_mapping.
  rewrite dict_get_set_other, H0 by discriminate. cbn iota beta.
  run_mapping. reflexivity.
Qed.

End Mapping.

(** ** What the blocks do to an entry *)

Lemma dict_del_spec k d :
  NoDup (dict_keys d) -> dict_get k d <> None ->
  exists d', dict_del k d = Some d' /\ NoDup (dict_keys d') /\ dict_get k d' = None /\
             forall k', k' <> k -> dict_get k' d' = dict_get k' d.
Proof.
  intros Hn Hk. destruct (dict_del_present k d Hk) as [d' Hd].
  destruct (dict_del_nodup k d d' Hn Hd) as [Hn' Hg].
  exists d'. repeat split; auto. intros k' Hne. eapply dict_del_other; eauto.
Qed.

Ltac gso := repeat (rewrite dict_get_set_same || rewrite dict_get_set_other by congruence).

Lemma tf_std_spec pre title ty d h :
  NoDup (dict_keys d) -> dict_get "href" d = Some h -> dict_get "name" d <> None ->
  exists e, tf_std pre title ty d = Some e /\ NoDup (dict_keys e) /\
    dict_get "href" e = Some (abs_href pre h) /\ dict_get "title" e = Some title /\
    dict_get "type" e = Some ty /\ dict_get "name" e = None /\
    forall k, k <> "href" -> k <> "title" -> k <> "type" -> k <> "name" ->
      dict_get k e = dict_get k d.
Proof.
  intros Hn Hh Hm. unfold tf_std. rewrite Hh.
  edestruct (dict_del_spec "name"
    (dict_set "type" ty (dict_set "title" title (dict_set "href" (abs_href pre h) d))))
    as (e & He & Hne & Hname & Hoth).
  - repeat apply dict_set_nodup; auto.
  - gso. exact Hm.
  - exists e. rewrite He. repeat split; auto; rewrite ?Hoth by discriminate; gso; auto.
    intros k H1 H2 H3 H4. rewrite Hoth by auto. gso. reflexivity.
Qed.

Lemma tf_tiff_spec pre d h :
  NoDup (dict_keys d) -> dict_get "href" d = Some h -> dict_get "name" d <> None ->
  exists e, tf_tiff pre d = Some e /\ NoDup (dict_keys e) /\
    dict_get "href" e = Some (abs_href pre h) /\
    dict_get "title" e = Some (JStr "RGB GeoTIFF") /\
    dict_get "type" e = Some (JStr "image/vnd.stac.geotiff") /\
    dict_get "eo:bands" e = Some (JArr [JNum "0"; JNum "1"; JNum "2"]) /\
    dict_get "name" e = None /\
    forall k, k <> "href" -> k <> "title" -> k <> "type" -> k <> "eo:bands" -> k <> "name" ->
      dict_get k e = dict_get k d.
Proof.
  intros Hn Hh Hm. unfold tf_tiff. rewrite Hh.
  edestruct (dict_del_spec "name"
    (dict_set "eo:bands" (JArr [JNum "0"; JNum "1"; JNum "2"])
      (dict_set "type" (JStr "image/vnd.stac.geotiff")
        (dict_set "title" (JStr "RGB GeoTIFF") (dict_set "href" (abs_href pre h) d)))))
    as (e & He & Hne & Hname & Hoth).
  - repeat apply dict_set_nodup; auto.
  - gso. exact Hm.
  - exists e. rewrite He. repeat split; auto; rewrite ?Hoth by discriminate; gso; auto.
    intros k H1 H2 H3 H4 H5. rewrite Hoth by auto. gso. reflexivity.
Qed.

Lemma tf_named_spec pre ty d h n :
  NoDup (dict_keys d) -> dict_get "href" d = Some h -> dict_get "name" d = Some n ->
  exists e, tf_named pre ty d = Some e /\ NoDup (dict_keys e) /\
    dict_get "href" e = Some (abs_href pre h) /\ dict_get "title" e = Some n /\
    dict_get "type" e = Some ty /\ dict_get "name" e = None /\
    forall k, k <> "href" -> k <> "title" -> k <> "type" -> k <> "name" ->
      dict_get k e = dict_get k d.
Proof.
  intros Hn Hh Hm. unfold tf_named. rewrite Hh, Hm.
  edestruct (dict_del_spec "name"
    (dict_set "type" ty (dict_set "title" n (dict_set "href" (abs_href pre h) d))))
    as (e & He & Hne & Hname & Hoth).
  - repeat apply dict_set_nodup; auto.
  - gso. congruence.
  - exists e. rewrite He. repeat split; auto; rewrite ?Hoth by discriminate; gso; auto.
    intros k H1 H2 H3 H4. rewrite Hoth by auto. gso. reflexivity.
Qed.

Lemma tf_visual_spec pre d h n :
  NoDup (dict_keys d) -> dict_get "href" d = Some h -> dict_get "name" d = Some n ->
  dict_get "format" d <> None ->
  exists e, tf_visual pre d = Some e /\ NoDup (dict_keys e) /\
    dict_get "href" e = Some (abs_href pre h) /\ dict_get "title" e = Some n /\
    dict_get "type" e = Some (JStr "image/vnd.stac.geotiff; cloud-optimized=true") /\
    dict_get "name" e = None /\ dict_get "format" e = None /\
    forall k, k <> "href" -> k <> "title" -> k <> "type" -> k <> "name" -> k <> "format" ->
      dict_get k e = dict_get k d.
Proof.
  intros Hn Hh Hm Hf. unfold tf_visual. rewrite Hh, Hm.
  edestruct (dict_del_spec "format"
    (dict_set "type" (JStr "image/vnd.stac.geotiff; cloud-optimized=true")
      (dict_set "title" n (dict_set "href" (abs_href pre h) d))))
    as (e1 & He1 & Hne1 & Hfmt & Hoth1).
  - repeat apply dict_set_nodup; auto.
  - gso. exact Hf.
  - rewrite He1.
    edestruct (dict_del_spec "name" e1) as (e & He & Hne & Hname & Hoth); auto.
    { rewrite Hoth1 by discriminate. gso. congruence. }
    exists e. rewrite He. repeat split; auto; rewrite ?Hoth, ?Hoth1 by discriminate; gso; auto.
    intros k H1 H2 H3 H4 H5. rewrite Hoth, Hoth1 by auto. gso. reflexivity.
Qed.

Lemma wf_entry_inv b v :
  wf_entry b v ->
  exists d h n, v = Some (JObj d) /\ NoDup (dict_keys d) /\
    dict_get "href" d = Some h /\ dict_get "name" d = Some n /\
    (b = true -> dict_get "format" d <> None).
Proof.
  intros (d & -> & Hn & Hh & Hm & Hf).
  destruct (dict_get "href" d) as [h|] eqn:Eh; [|congruence].
  destruct (dict_get "name" d) as [n|] eqn:En; [|congruence].
  exists d, h, n. auto.
Qed.

Ltac finish_entry :=
  first
  [ match goal with A : dict_get "href" ?e = Some _, B : dict_get "href" ?x = Some _
      |- dict_get "href" ?e = option_map _ (dict_get "href" ?x) => rewrite A, B; reflexivity end
  | match goal with P : forall k, _ |- dict_get "format" _ = _ =>
      rewrite P by discriminate; reflexivity end ].

Lemma mapping_wf_result pre ad :
  wf_mapping ad ->
  exists out a', normalize pre (JObj ad) = (Ok out, JObj a') /\
    dict_keys out =
      (if dict_get "tiff world file" ad
       then ["original TIFF"; "original TIFF world file"; "JPEG"; "JPEG overviews";
             "JPEG world file"; "thumbnail"; "visual"]
       else ["original TIFF"; "JPEG"; "JPEG overviews"; "JPEG world file";
             "thumbnail"; "visual"]) /\
    forall r c t ty d, In (r, c, t, ty) role_table -> dict_get r ad = Some (JObj d) ->
      exists e, dict_get c out = Some (JObj e) /\ dict_get r a' = Some (JObj e) /\
                NoDup (dict_keys e) /\ entry_ok pre r t ty d e.
Proof.
  intros [Hall Htw]. unfold mandatory_roles in Hall.
  repeat match type of Hall with
         | Forall _ (_ :: _) => apply Forall_cons_iff in Hall as [? Hall]
         end.
  repeat match goal with
         | H : wf_entry _ _ |- _ => apply wf_entry_inv in H as (? & ? & ? & ? & ? & ? & ? & ?)
         end.
  match goal with
  | H1 : dict_get "RGB Tif" ad = Some (JObj ?d1), N1 : NoDup (dict_keys ?d1),
    K1 : dict_get "href" ?d1 = Some _, M1 : dict_get "name" ?d1 = Some _ |- _ =>
      destruct (tf_tiff_spec pre d1 _ N1 K1 ltac:(congruence)) as (e1 & T1 & P1)
  end.
  match goal with
  | H1 : dict_get "RGB JPEG" ad = Some (JObj ?d1), N1 : NoDup (dict_keys ?d1),
    K1 : dict_get "href" ?d1 = Some _, M1 : dict_get "name" ?d1 = Some _ |- _ =>
      destruct (tf_named_spec pre (JStr "image/jpeg") d1 _ _ N1 K1 M1) as (e2 & T2 & P2)
  end.
  match goal with
  | H1 : dict_get "jpg overview" ad = Some (JObj ?d1), N1 : NoDup (dict_keys ?d1),
    K1 : dict_get "href" ?d1 = Some _, M1 : dict_get "name" ?d1 = Some _ |- _ =>
      destruct (tf_std_spec pre (JStr "JPEG overviews") (JStr "image/tiff") d1 _ N1 K1
                  ltac:(congruence)) as (e3 & T3 & P3)
  end.
  match goal with
  | H1 : dict_get "jpeg world file" ad = Some (JObj ?d1), N1 : NoDup (dict_keys ?d1),
    K1 : dict_get "href" ?d1 = Some _, M1 : dict_get "name" ?d1 = Some _ |- _ =>
      destruct (tf_std_spec pre (JStr "JPEG world file") (JStr "text/plain") d1 _ N1 K1
                  ltac:(congruence)) as (e4 & T4 & P4)
  end.
  match goal with
  | H1 : dict_get "thumbnail" ad = Some (JObj ?d1), N1 : NoDup (dict_keys ?d1),
    K1 : dict_get "href" ?d1 = Some _, M1 : dict_get "name" ?d1 = Some _ |- _ =>
      destruct (tf_std_spec pre (JStr "Thumbnail") (JStr "image/png") d1 _ N1 K1
                  ltac:(congruence)) as (e5 & T5 & P5)
  end.
  match goal with
  | H1 : dict_get "cog" ad = Some (JObj ?d1), N1 : NoDup (dict_keys ?d1),
    K1 : dict_get "href" ?d1 = Some _, M1 : dict_get "name" ?d1 = Some _,
    F1 : _ = true -> dict_get "format" ?d1 <> None |- _ =>
      destruct (tf_visual_spec pre d1 _ _ N1 K1 M1 (F1 eq_refl)) as (e6 & T6 & P6)
  end.
  destruct Htw as [Htw | Htw].
  - eexists _, _. split.
    { unfold normalize. eapply mapping_shape_no_world; eassumption. }
    rewrite Htw. split; [reflexivity|].
    intros r c t ty d Hin Hr.
    simpl in Hin; repeat destruct Hin as [Hin|Hin]; inversion Hin; subst; clear Hin;
      [ | congruence | | | | | ];
      match goal with H : dict_get ?r ad = Some (JObj ?x), H' : dict_get ?r ad = Some (JObj d) |- _ =>
        rewrite H in H'; injection H' as <- end;
      eexists; (split; [reflexivity|]); (split; [gso; reflexivity|]);
      unfold entry_ok; simpl; intuition (try congruence); finish_entry.
  - apply wf_entry_inv in Htw as (d0 & h0 & n0 & Htw & N0 & K0 & M0 & _).
    destruct (tf_std_spec pre (JStr "RGB GeoTIFF world file") (JStr "text/plain") d0 _ N0 K0
                ltac:(congruence)) as (e0 & T0 & P0).
    eexists _, _. split.
    { unfold normalize. eapply mapping_shape_world; eassumption. }
    rewrite Htw. split; [reflexivity|].
    intros r c t ty d Hin Hr.
    simpl in Hin; repeat destruct Hin as [Hin|Hin]; inversion Hin; subst; clear Hin;
      match goal with H : dict_get ?r ad = Some (JObj ?x), H' : dict_get ?r ad = Some (JObj d) |- _ =>
        rewrite H in H'; injection H' as <- end;
      eexists; (split; [reflexivity|]); (split; [gso; reflexivity|]);
      unfold entry_ok; simpl; intuition (try congruence); finish_entry.
Qed.

(** ** Sample data *)

Ltac wf_entry_tac :=
  eexists; split; [reflexivity|];
  split; [repeat constructor; simpl; intuition discriminate|];
  repeat split; simpl; discriminate.

Lemma ex_assets_wf : wf_mapping ex_assets.
Proof.
  split.
  - repeat constructor; simpl; wf_entry_tac.
  - left; reflexivity.
Qed.

(** ** A missing role makes the mapping shape raise *)

Lemma keeps_bind {A B} r o (m : SE json A) (k : A -> SE json B) :
  keeps_entry r o m -> (forall a, keeps_entry r o (k a)) -> keeps_entry r o (bind m k).
Proof.
  intros Hm Hk ad v s' Hr. unfold bind.
  destruct (m (JObj ad)) as [[a|e] s1] eqn:E; [|discriminate].
  destruct (Hm ad a s1 Hr E) as (ad1 & -> & Hr1).
  intros H. exact (Hk a ad1 v s' Hr1 H).
Qed.

Lemma fails_bind_first {A B} r o (m : SE json A) (k : A -> SE json B) :
  fails_entry r o m -> fails_entry r o (bind m k).
Proof.
  intros Hm ad Hr. destruct (Hm ad Hr) as (e & s' & E).
  exists e, s'. unfold bind. now rewrite E.
Qed.

Lemma fails_bind_next {A B} r o (m : SE json A) (k : A -> SE json B) :
  keeps_entry r o m -> (forall a, fails_entry r o (k a)) -> fails_entry r o (bind m k).
Proof.
  intros Hm Hk ad Hr. unfold bind.
  destruct (m (JObj ad)) as [[a|e] s1] eqn:E.
  - destruct (Hm ad a s1 Hr E) as (ad1 & -> & Hr1). exact (Hk a ad1 Hr1).
  - eauto.
Qed.

Lemma keeps_ret {A} r o (a : A) : keeps_entry r o (ret a).
Proof. intros ad v s' Hr H. injection H as _ <-. eauto. Qed.

Lemma keeps_lift {A} r o (x : res A) : keeps_entry r o (lift x).
Proof. intros ad v s' Hr H. injection H as _ <-. eauto. Qed.

Lemma keeps_role_get r o r' : keeps_entry r o (role_get r').
Proof. intros ad v s' Hr H. injection H as _ <-. eauto. Qed.

Lemma keeps_role_in r o r' : keeps_entry r o (role_in r').
Proof. intros ad v s' Hr H. injection H as _ <-. eauto. Qed.

Lemma keeps_field_get r o r' k : keeps_entry r o (field_get r' k).
Proof.
  unfold field_get. apply keeps_bind; [apply keeps_role_get | intros; apply keeps_lift].
Qed.

Lemma keeps_field_set r o r' k v : r' <> r -> keeps_entry r o (field_set r' k v).
Proof.
  intros Hne ad v' s' Hr. simpl.
  destruct (dict_get r' ad) as [[]|]; try discriminate.
  intros H. injection H as _ <-. eexists; split; [reflexivity|].
  rewrite dict_get_set_other by congruence. exact Hr.
Qed.

Lemma keeps_field_del r o r' k : r' <> r -> keeps_entry r o (field_del r' k).
Proof.
  intros Hne ad v' s' Hr. simpl.
  destruct (dict_get r' ad) as [[]|]; try discriminate.
  destruct (dict_del k _); [|discriminate].
  intros H. injection H as _ <-. eexists; split; [reflexivity|].
  rewrite dict_get_set_other by congruence. exact Hr.
Qed.

Lemma keeps_rewrite_href r o pre r' : r' <> r -> keeps_entry r o (rewrite_href pre r').
Proof.
  intros Hne. unfold rewrite_href.
  apply keeps_bind; [apply keeps_field_get | intros; now apply keeps_field_set].
Qed.

Lemma keeps_if {A} r o (b : bool) (m1 m2 : SE json A) :
  keeps_entry r o m1 -> keeps_entry r o m2 -> keeps_entry r o (if b then m1 else m2).
Proof. now destruct b. Qed.

Lemma fails_role_get r : fails_entry r None (role_get r).
Proof. intros ad Hr. unfold role_get, getitem. rewrite Hr. eauto. Qed.

Ltac keeps_tac :=
  repeat first
    [ apply keeps_bind; [ | intros ?; cbv beta ]
    | apply keeps_ret | apply keeps_lift | apply keeps_role_get | apply keeps_role_in
    | apply keeps_field_get
    | apply keeps_field_set; congruence
    | apply keeps_field_del; congruence
    | apply keeps_rewrite_href; congruence
    | apply keeps_if ].

Ltac block_fails := apply fails_bind_first, fails_role_get.

Section Blocks.
Variables (pre r : string) (o : option json).

Lemma tiff_block_keeps : r <> "RGB Tif" -> keeps_entry r o (tiff_block pre).
Proof. intros. unfold tiff_block. keeps_tac. Qed.
Lemma tiff_world_block_keeps : r <> "tiff world file" -> keeps_entry r o (tiff_world_block pre).
Proof. intros. unfold tiff_world_block. keeps_tac. Qed.
Lemma jpeg_block_keeps : r <> "RGB JPEG" -> keeps_entry r o (jpeg_block pre).
Proof. intros. unfold jpeg_block. keeps_tac. Qed.
Lemma overview_block_keeps : r <> "jpg overview" -> keeps_entry r o (overview_block pre).
Proof. intros. unfold overview_block. keeps_tac. Qed.
Lemma jpeg_world_block_keeps : r <> "jpeg world file" -> keeps_entry r o (jpeg_world_block pre).
Proof. intros. unfold jpeg_world_block. keeps_tac. Qed.
Lemma thumbnail_block_keeps : r <> "thumbnail" -> keeps_entry r o (thumbnail_block pre).
Proof. intros. unfold thumbnail_block. keeps_tac. Qed.
Lemma visual_block_keeps : r <> "cog" -> keeps_entry r o (visual_block pre).
Proof. intros. unfold visual_block. keeps_tac. Qed.

End Blocks.

Ltac absent_chain :=
  repeat first
    [ apply fails_bind_first;
      first [ unfold tiff_block | unfold jpeg_block | unfold overview_block
            | unfold jpeg_world_block | unfold thumbnail_block | unfold visual_block ];
      block_fails
    | apply fails_bind_next;
      [ first [ apply tiff_block_keeps | apply jpeg_block_keeps | apply overview_block_keeps
              | apply jpeg_world_block_keeps | apply thumbnail_block_keeps
              | apply visual_block_keeps | apply keeps_role_in
              | apply keeps_if; [ apply keeps_bind; [ apply tiff_world_block_keeps | intros; apply keeps_ret ]
                                | apply keeps_ret ] ];
        discriminate
      | intros ?; cbv beta ] ].

Lemma mapping_shape_absent pre r :
  In r mandatory_roles -> fails_entry r None (mapping_shape pre).
Proof.
  simpl. intros Hin.
  repeat destruct Hin as [<-|Hin]; [..|destruct Hin]; unfold mapping_shape; absent_chain.
Qed.

(** ** A malformed entry makes the mapping shape raise *)

Lemma rewrite_href_err pre r ad j e :
  dict_get r ad = Some j -> getitem j "href" = Err e ->
  rewrite_href pre r (JObj ad) = (Err e, JObj ad).
Proof.
  intros H1 H2. unfold rewrite_href. apply bind_err. unfold field_get.
  rewrite (bind_ok _ _ _ _ _ (role_get_ok _ _ _ H1)). unfold lift. now rewrite H2.
Qed.

Lemma field_get_set_none r k d ad :
  dict_get k d = None ->
  field_get r k (JObj (dict_set r (JObj d) ad)) = (Err (KeyError k), JObj (dict_set r (JObj d) ad)).
Proof.
  intros H. unfold field_get. rewrite (bind_ok _ _ _ _ _ (role_get_set r (JObj d) ad)).
  unfold lift, getitem. now rewrite H.
Qed.

Lemma field_del_set_none r k d ad :
  dict_del k d = None ->
  field_del r k (JObj (dict_set r (JObj d) ad)) = (Err (KeyError k), JObj (dict_set r (JObj d) ad)).
Proof. intros H. unfold field_del. cbv beta iota. now rewrite dict_get_set_same, H. Qed.

Ltac bad_step :=
  first
    [ erewrite bind_err by (eapply field_get_set_none;
                            rewrite ?dict_get_set_other by discriminate; eassumption)
    | erewrite bind_err by (eapply field_del_set_none; apply dict_del_absent;
                            rewrite ?dict_get_set_other by discriminate; eassumption) ].

Ltac bad_block j :=
  let ad := fresh "ad" in let Hr := fresh "Hr" in
  intros Hb ad Hr;
  unfold tiff_block, tiff_world_block, jpeg_block, overview_block, jpeg_world_block,
    thumbnail_block, visual_block;
  erewrite bind_ok by (apply role_get_ok; exact Hr);
  destruct j as [| | | | |d];
  [ do 2 eexists; erewrite bind_err by (eapply rewrite_href_err; [exact Hr | reflexivity]); reflexivity .. | ];
  simpl in Hb;
  destruct (dict_get "href" d) as [h|] eqn:Eh;
  [ | do 2 eexists;
      erewrite bind_err by (eapply rewrite_href_err; [exact Hr | unfold getitem; now rewrite Eh]);
      reflexivity ];
  destruct (dict_get "name" d) as [n|] eqn:En;
  [ destruct (dict_get "format" d) as [f|] eqn:Ef;
    [ exfalso; intuition discriminate | try (exfalso; intuition discriminate) ] | ];
  do 2 eexists; erewrite bind_ok by (eapply rewrite_href_ok; eassumption);
  run_block; bad_step; reflexivity.

Section BadBlocks.
Variables (pre : string) (j : json).

Lemma tiff_block_bad : bad_entry false j -> fails_entry "RGB Tif" (Some j) (tiff_block pre).
Proof. bad_block j. Qed.
Lemma tiff_world_block_bad :
  bad_entry false j -> fails_entry "tiff world file" (Some j) (tiff_world_block pre).
Proof. bad_block j. Qed.
Lemma jpeg_block_bad : bad_entry false j -> fails_entry "RGB JPEG" (Some j) (jpeg_block pre).
Proof. bad_block j. Qed.
Lemma overview_block_bad : bad_entry false j -> fails_entry "jpg overview" (Some j) (overview_block pre).
Proof. bad_block j. Qed.
Lemma jpeg_world_block_bad :
  bad_entry false j -> fails_entry "jpeg world file" (Some j) (jpeg_world_block pre).
Proof. bad_block j. Qed.
Lemma thumbnail_block_bad : bad_entry false j -> fails_entry "thumbnail" (Some j) (thumbnail_block pre).
Proof. bad_block j. Qed.
Lemma visual_block_bad : bad_entry true j -> fails_entry "cog" (Some j) (visual_block pre).
Proof. bad_block j. Qed.

End BadBlocks.

Ltac bad_chain Hb :=
  repeat first
    [ apply fails_bind_first;
      first [ apply tiff_block_bad | apply jpeg_block_bad | apply overview_block_bad
            | apply jpeg_world_block_bad | apply thumbnail_block_bad | apply visual_block_bad ];
      exact Hb
    | apply fails_bind_next;
      [ first [ apply tiff_block_keeps | apply jpeg_block_keeps | apply overview_block_keeps
              | apply jpeg_world_block_keeps | apply thumbnail_block_keeps
              | apply visual_block_keeps | apply keeps_role_in
              | apply keeps_if; [ apply keeps_bind; [ apply tiff_world_block_keeps | intros; apply keeps_ret ]
                                | apply keeps_ret ] ];
        discriminate
      | intros ?; cbv beta ] ].

Lemma mapping_shape_bad pre r j :
  In r mandatory_roles -> bad_entry (String.eqb r "cog") j -> fails_entry r (Some j) (mapping_shape pre).
Proof.
  simpl. intros Hin Hb.
  repeat destruct Hin as [<-|Hin]; [..|destruct Hin]; unfold mapping_shape; bad_chain Hb.
Qed.

Lemma mapping_shape_bad_world pre ad j :
  dict_get "tiff world file" ad = Some j -> bad_entry false j ->
  exists e s', mapping_shape pre (JObj ad) = (Err e, s').
Proof.
  intros Hr Hb. unfold mapping_shape.
  destruct (tiff_block pre (JObj ad)) as [[t|e] s1] eqn:E1;
    [|exists e, s1; now rewrite (bind_err _ _ _ _ _ E1)].
  destruct (tiff_block_keeps pre "tiff world file" (Some j) ltac:(discriminate) ad t s1 Hr E1)
    as (ad1 & -> & Hr1).
  rewrite (bind_ok _ _ _ _ _ E1). cbv beta zeta.
  rewrite (bind_ok _ _ _ _ _ (role_in_obj _ _)), Hr1. cbv beta iota.
  apply (fails_bind_first "tiff world file" (Some j)); [|exact Hr1].
  apply fails_bind_first, tiff_world_block_bad, Hb.
Qed.

(** ** The list shape *)

Lemma list_shape_err pre l acc :
  (exists e, list_shape pre l acc = Err e) <-> Exists (fun a => exists e, entry_href a = Err e) l.
Proof.
  revert acc. induction l as [|a l IH]; intros acc; simpl.
  - split; [intros [e H]; discriminate | intros H; inversion H].
  - destruct (entry_href a) as [h|e] eqn:E.
    + rewrite IH. split.
      * intros H. now apply Exists_cons_tl.
      * intros H. inversion H as [? ? [e He]|]; subst; [congruence | assumption].
    + split; [intros _; apply Exists_cons_hd; eauto | eauto].
Qed.

Lemma list_entry_nomatch pre h acc :
  forallb (fun '(suf, _, _, _) => negb (endswith h suf)) list_rules = true ->
  list_entry pre h acc = acc.
Proof.
  unfold list_entry, list_rules. simpl.
  destruct (endswith h ".TFW"), (endswith h ".JPG"), (endswith h ".png"),
    (endswith h ".JGW"), (endswith h ".JPG.ovr"), (endswith h ".TIF");
    simpl; congruence.
Qed.

(** ** Normalizing a record twice *)

Lemma dict_set_get k v d : dict_get k d = Some v -> dict_set k v d = d.
Proof.
  induction d as [|[k' v'] r IH]; simpl; [discriminate|].
  destruct (String.eqb k k') eqn:E.
  - apply String.eqb_eq in E as ->. intros H. now injection H as ->.
  - intros H. now rewrite IH.
Qed.

Lemma set_old_item_same s j : old_item s = Some j -> set_old_item j s = s.
Proof. destruct s; simpl; intros ->; reflexivity. Qed.

Lemma field_del_set_err r k d ad :
  dict_del k d = None ->
  field_del r k (JObj (dict_set r (JObj d) ad)) = (Err (KeyError k), JObj (dict_set r (JObj d) ad)).
Proof. intros H. unfold field_del. now rewrite dict_get_set_same, H. Qed.

Lemma tiff_block_no_name pre ad e h :
  dict_get "RGB Tif" ad = Some (JObj e) -> dict_get "href" e = Some h ->
  dict_get "name" e = None ->
  exists s', tiff_block pre (JObj ad) = (Err (KeyError "name"), s').
Proof.
  intros H Hh Hn. unfold tiff_block.
  rewrite (bind_ok _ _ _ _ _ (role_get_ok _ _ _ H)).
  rewrite (bind_ok _ _ _ _ _ (rewrite_href_ok pre _ _ _ _ H Hh)).
  rewrite !(bind_ok _ _ _ _ _ (field_set_set _ _ _ _ _)).
  eexists. apply bind_err, field_del_set_err, dict_del_absent.
  gso. exact Hn.
Qed.

Lemma normalize_record_obj pre s d a :
  old_item s = Some (JObj d) -> dict_get "assets" d = Some a ->
  normalize_record pre s =
  (fst (normalize pre a),
   set_old_item (JObj (dict_set "assets" (snd (normalize pre a)) d)) s).
Proof.
  intros Ho Ha. unfold normalize_record. rewrite Ho. simpl. rewrite Ha.
  destruct (normalize pre a). reflexivity.
Qed.

(** ** The body of the [try] block *)

Lemma record_rel_refl j : record_rel j j.
Proof. destruct j; simpl; eauto. Qed.

Lemma normalize_record_frame pre s r s1 :
  normalize_record pre s = (r, s1) ->
  catalogs s1 = catalogs s /\ puts s1 = puts s /\ outs s1 = outs s /\ key_var s1 = key_var s /\
  forall j, old_item s = Some j -> exists oi, old_item s1 = Some oi /\ record_rel j oi.
Proof.
  unfold normalize_record. destruct (old_item s) as [oi|] eqn:E.
  - destruct (getitem oi "assets") as [a|e] eqn:G.
    + destruct (normalize pre a) as [r' a']. intros H. injection H as <- <-.
      simpl. repeat split; auto. intros j Hj. injection Hj as ->.
      eexists; split; [reflexivity|]. destruct j; simpl; eauto.
      eexists; split; [reflexivity|]. intros x Hx. now apply dict_get_set_other.
    + intros H. injection H as <- <-. repeat split; auto.
      intros j Hj. injection Hj as ->. eauto using record_rel_refl.
  - intros H. injection H as <- <-. repeat split; auto. congruence.
Qed.

Section TryBody.
Variables (src : string -> option json) (tgt_ok : string -> bool).

Lemma try_body_ok k cid s s1 :
  try_body src tgt_ok k cid s = (Ok tt, s1) ->
  exists j out s2 oi tkey it,
    src k = Some j /\
    normalize_record (source_prefix k) (set_old_item j s) = (Ok out, s2) /\
    old_item s2 = Some oi /\ record_rel j oi /\
    item_of cid oi out = Some (tkey, it) /\ tgt_ok tkey = true /\
    s1 = set_catalogs
           (cat_add_link cid (mk_link "item" (py_str (item_id it) ++ ".json") (Some (item_id it)))
              (catalogs s2))
           (set_puts (puts s2 ++ [(tkey, it)]) (emit (OutKey tkey) (set_key_var (KStr tkey) s2))).
Proof.
  unfold try_body, bind, lift, modify, gets.
  destruct (src k) as [j|] eqn:Hj; [|discriminate].
  destruct (normalize_record (source_prefix k) (set_old_item j s)) as [[out|e] s2] eqn:N;
    [|discriminate].
  destruct (normalize_record_frame _ _ _ _ N) as (_ & _ & _ & _ & Ho).
  destruct (Ho j eq_refl) as (oi & Hoi & Hrel).
  unfold current_old_item. rewrite Hoi.
  destruct (getitem oi "id") as [id|] eqn:G1; [|discriminate].
  destruct (getitem oi "bbox") as [bbox|] eqn:G2; [|discriminate].
  destruct (getitem oi "geometry") as [geom|] eqn:G3; [|discriminate].
  destruct (getitem oi "properties") as [props|] eqn:G4; [|discriminate].
  destruct (props_datetime props) as [dt|] eqn:G5; [|discriminate].
  destruct (tgt_ok _) eqn:T; [|discriminate].
  intros H. injection H as <-.
  do 6 eexists. split; [reflexivity|]. split; [exact N|]. split; [exact Hoi|]. split; [exact Hrel|].
  split; [unfold item_of; rewrite G1, G2, G3, G4, G5; reflexivity|].
  split; [exact T | reflexivity].
Qed.

Lemma try_body_err k cid s e s1 :
  try_body src tgt_ok k cid s = (Err e, s1) ->
  catalogs s1 = catalogs s /\ puts s1 = puts s /\
  (src k = None -> e = ReadError /\ s1 = s) /\
  (forall j, src k = Some j -> (forall t, tgt_ok t = true) ->
     key_var s1 = key_var s /\ outs s1 = outs s /\
     exists oi, old_item s1 = Some oi /\ record_rel j oi).
Proof.
  unfold try_body, bind, lift, modify, gets.
  destruct (src k) as [j|] eqn:Hj.
  2:{ intros H. injection H as <- <-. repeat split; congruence. }
  destruct (normalize_record (source_prefix k) (set_old_item j s)) as [[out|e'] s2] eqn:N;
    destruct (normalize_record_frame _ _ _ _ N) as (C & P & O & K & Ho);
    destruct (Ho j eq_refl) as (oi & Hoi & Hrel);
    simpl in C, P, O, K.
  2:{ intros H. injection H as <- <-. repeat split; try congruence.
      repeat intro; match goal with H : Some _ = Some _ |- _ => injection H as <- end; eauto. }
  unfold current_old_item. rewrite Hoi.
  destruct (getitem oi "id") as [id|];
  [destruct (getitem oi "bbox") as [bbox|];
   [destruct (getitem oi "geometry") as [geom|];
    [destruct (getitem oi "properties") as [props|];
     [destruct (props_datetime props) as [dt|]|]|]|]|].
  all: try (intros H; injection H as <- <-; repeat split; try congruence;
            repeat intro; match goal with H : Some _ = Some _ |- _ => injection H as <- end;
            eauto; fail).
  destruct (tgt_ok _) eqn:T; [discriminate|].
  intros H. injection H as <- <-. simpl. repeat split; try congruence.
  all: repeat intro; match goal with H : forall t, tgt_ok t = true |- _ => rewrite H in T end;
    discriminate.
Qed.

End TryBody.

Lemma handler_catalogs e s : catalogs (snd (handler e s)) = catalogs s /\ puts (snd (handler e s)) = puts s.
Proof.
  unfold handler. destruct (key_var s); simpl; auto.
  destruct (old_item s) as [[| | | | | d]|]; simpl; auto.
  destruct (dict_del "geometry" d); simpl; auto.
Qed.

Lemma handler_raises e s : exists e', fst (handler e s) = Err e'.
Proof.
  unfold handler. destruct (key_var s); simpl; eauto.
  destruct (old_item s) as [[| | | | | d]|]; simpl; eauto.
  destruct (dict_del "geometry" d); simpl; eauto.
Qed.

Lemma try_body_forward src tgt k cid s j out s2 oi tkey it :
  src k = Some j ->
  normalize_record (source_prefix k) (set_old_item j s) = (Ok out, s2) ->
  old_item s2 = Some oi -> item_of cid oi out = Some (tkey, it) -> tgt tkey = true ->
  try_body src tgt k cid s =
  (Ok tt, set_catalogs
            (cat_add_link cid (mk_link "item" (py_str (item_id it) ++ ".json") (Some (item_id it)))
               (catalogs s2))
            (set_puts (puts s2 ++ [(tkey, it)]) (emit (OutKey tkey) (set_key_var (KStr tkey) s2)))).
Proof.
  intros Hs N Ho HI T.
  unfold try_body, bind, lift, modify, gets. rewrite Hs, N.
  unfold current_old_item. rewrite Ho.
  unfold item_of in HI.
  destruct (getitem oi "id"), (getitem oi "bbox"), (getitem oi "geometry"),
    (getitem oi "properties") as [props|]; try discriminate.
  destruct (props_datetime props); [|discriminate].
  injection HI as <- <-. simpl in T |- *. rewrite T. reflexivity.
Qed.

(** The catalog tree built for the sample key from the initial state. *)
Lemma ex_key_tree :
  build_path [] (path_components ex_key) "" (set_key_var (KObj ex_key) init_st) =
  (Ok "2013/03/27", snd (build_path [] (path_components ex_key) "" (set_key_var (KObj ex_key) init_st))).
Proof. vm_compute. reflexivity. Qed.

(** ** Suffixes and the last path segment *)

Lemma substring_app_l p q n : substring (String.length p) n (p ++ q) = substring 0 n q.
Proof. induction p; simpl; auto. Qed.

Lemma substring_full q : substring 0 (String.length q) q = q.
Proof. induction q; simpl; congruence. Qed.

Lemma substring_zero s : substring 0 0 s = "".
Proof. destruct s; reflexivity. Qed.

Lemma substring_split s n :
  (n <= String.length s)%nat -> s = substring 0 n s ++ substring n (String.length s - n) s.
Proof.
  revert n. induction s as [|c s IH]; intros n Hn; simpl in *.
  - destruct n; reflexivity.
  - destruct n as [|n].
    + simpl. rewrite substring_full. reflexivity.
    + simpl. rewrite <- IH by lia. reflexivity.
Qed.

Lemma length_append p q : String.length (p ++ q) = (String.length p + String.length q)%nat.
Proof. induction p; simpl; auto. Qed.

Lemma endswith_spec s suf : endswith s suf = true <-> exists p, s = p ++ suf.
Proof.
  unfold endswith. rewrite andb_true_iff, Nat.leb_le, String.eqb_eq. split.
  - intros [Hle Heq]. exists (substring 0 (String.length s - String.length suf) s).
    rewrite (substring_split s (String.length s - String.length suf)) at 1 by lia.
    replace (String.length s - (String.length s - String.length suf))%nat
      with (String.length suf) by lia.
    now rewrite Heq.
  - intros [p ->]. rewrite length_append. split; [lia|].
    replace (String.length p + String.length suf - String.length suf)%nat
      with (String.length p) by lia.
    rewrite substring_app_l. apply substring_full.
Qed.

Lemma split_slash_shape r :
  exists p ps, split_slash r = p :: ps /\
    (has_slash r = false -> ps = [] /\ p = r) /\ (has_slash r = true -> ps <> []).
Proof.
  induction r as [|c r (p & ps & E & H1 & H2)]; simpl.
  - exists "", []. repeat split; discriminate.
  - rewrite E. destruct (Ascii.eqb c "/") eqn:C; simpl.
    + exists "", (p :: ps). repeat split; discriminate.
    + exists (String c p), ps. split; [reflexivity|]. split.
      * intros H. destruct (H1 H) as [-> ->]. auto.
      * exact H2.
Qed.

Lemma filename_cons c r :
  filename (String c r) =
  if Ascii.eqb c "/" then filename r else if has_slash r then filename r else String c r.
Proof.
  unfold filename. simpl.
  destruct (split_slash_shape r) as (p & ps & E & H1 & H2). rewrite E.
  destruct (Ascii.eqb c "/"); [reflexivity|].
  destruct (has_slash r).
  - destruct ps; [now destruct H2|reflexivity].
  - destruct (H1 eq_refl) as [-> ->]. reflexivity.
Qed.

Lemma ends_cons c r suf :
  (exists p, String c r = p ++ suf) <-> String c r = suf \/ exists p, r = p ++ suf.
Proof.
  split.
  - intros [[|c' p] H]; simpl in H; [now left|].
    injection H as _ ->. right. eauto.
  - intros [H | [p ->]]; [exists ""; exact H | exists (String c p); reflexivity].
Qed.

Lemma ends_filename k suf :
  has_slash suf = false ->
  (exists p, k = p ++ suf) <-> (exists p, filename k = p ++ suf).
Proof.
  intros Hs. induction k as [|c r IH].
  - reflexivity.
  - rewrite ends_cons, filename_cons.
    destruct (Ascii.eqb c "/") eqn:C.
    + rewrite <- IH. split; [|auto].
      intros [H|H]; [|exact H]. subst suf. simpl in Hs. rewrite C in Hs. discriminate.
    + destruct (has_slash r) eqn:R.
      * rewrite <- IH. split; [|auto].
        intros [H|H]; [|exact H]. subst suf. simpl in Hs. rewrite C, R in Hs. discriminate.
      * rewrite ends_cons. reflexivity.
Qed.

Lemma endswith_filename k suf :
  has_slash suf = false -> endswith k suf = endswith (filename k) suf.
Proof.
  intros Hs. apply eq_true_iff_eq. rewrite !endswith_spec. now apply ends_filename.
Qed.

(** ** The catalog tree leaves the rest of the state alone *)

Lemma tree_component_frame ps c s r s' :
  tree_component ps c s = (r, s') ->
  outs s' = outs s /\ puts s' = puts s /\ old_item s' = old_item s /\ key_var s' = key_var s.
Proof.
  unfold tree_component.
  destruct (cat_get _ (catalogs s)); [intros H; injection H as _ <-; auto|].
  destruct (cat_get _ (catalogs s)); [|intros H; injection H as _ <-; auto].
  destruct (describe _ _); intros H; injection H as _ <-; auto.
Qed.

Lemma build_path_frame ps cs l s r s' :
  build_path ps cs l s = (r, s') ->
  outs s' = outs s /\ puts s' = puts s /\ old_item s' = old_item s /\ key_var s' = key_var s.
Proof.
  revert ps l s. induction cs as [|c cs IH]; intros ps l s; simpl.
  - intros H. injection H as _ <-. auto.
  - unfold bind. destruct (tree_component ps c s) as [[cid|e] s1] eqn:T.
    + intros H. destruct (tree_component_frame _ _ _ _ _ T) as (O & P & Oi & K).
      destruct (IH _ _ _ H) as (O' & P' & Oi' & K'). repeat split; congruence.
    + intros H. injection H as _ <-. exact (tree_component_frame _ _ _ _ _ T).
Qed.

Lemma process_key_unfold src tgt k s :
  skip_key k = false ->
  process_key src tgt k s =
  match build_path [] (path_components k) "" (set_key_var (KObj k) s) with
  | (Ok cid, sB) => try_except (try_body src tgt k cid) handler sB
  | (Err e, sB) => (Err e, sB)
  end.
Proof. intros Hk. unfold process_key, bind, modify. rewrite Hk. reflexivity. Qed.

(** ** Paths: [split("/")] undoes ["/".join] *)

Lemma split_slash_parts s : Forall (fun x => has_slash x = false) (split_slash s).
Proof.
  induction s as [|c s IH]; simpl.
  - repeat constructor.
  - destruct (Ascii.eqb c "/") eqn:C.
    + constructor; [reflexivity | exact IH].
    + destruct (split_slash s) as [|p ps]; [repeat constructor; simpl; now rewrite C|].
      inversion IH; subst. constructor; [simpl; now rewrite C | assumption].
Qed.

Lemma split_slash_noslash x : has_slash x = false -> split_slash x = [x].
Proof.
  intros H. destruct (split_slash_shape x) as (p & ps & E & H1 & _).
  destruct (H1 H) as [-> ->]. exact E.
Qed.

Lemma split_slash_app x rest :
  has_slash x = false -> split_slash (x ++ String "/" rest) = x :: split_slash rest.
Proof.
  induction x as [|c x IH]; simpl; intros H; [reflexivity|].
  apply orb_false_iff in H as [C H]. rewrite C, IH by exact H. reflexivity.
Qed.

Lemma split_join l :
  l <> [] -> Forall (fun x => has_slash x = false) l -> split_slash (join_slash l) = l.
Proof.
  induction l as [|x [|y r] IH]; intros Hne Hf; [congruence| |].
  - inversion Hf; subst. simpl. now apply split_slash_noslash.
  - inversion Hf; subst. change (join_slash (x :: y :: r)) with (x ++ String "/" (join_slash (y :: r))).
    rewrite split_slash_app by assumption.
    rewrite IH by (discriminate || assumption). reflexivity.
Qed.

Lemma drop_last_snoc {A} (ps : list A) c : drop_last (ps ++ [c]) = ps.
Proof.
  unfold drop_last. rewrite length_app. simpl.
  replace (length ps + 1 - 1)%nat with (length ps) by lia.
  rewrite firstn_app, firstn_all, Nat.sub_diag. simpl. apply app_nil_r.
Qed.

Lemma parent_key_join ps c :
  Forall (fun x => has_slash x = false) (ps ++ [c]) ->
  parent_key (join_slash (ps ++ [c])) = match ps with [] => "root" | _ => join_slash ps end.
Proof.
  intros Hf. unfold parent_key.
  rewrite split_join by (destruct ps; discriminate || assumption).
  rewrite drop_last_snoc. destruct ps; reflexivity.
Qed.

Lemma split_slash_nonempty k : split_slash k <> [].
Proof. destruct (split_slash_shape k) as (p & ps & E & _). now rewrite E. Qed.

Lemma join_split k : join_slash (split_slash k) = k.
Proof.
  induction k as [|c r IH]; [reflexivity|]. simpl.
  destruct (split_slash r) as [|p ps] eqn:E; [now apply split_slash_nonempty in E|].
  destruct (Ascii.eqb c "/") eqn:C.
  - apply Ascii.eqb_eq in C as ->.
    change (join_slash ("" :: p :: ps)) with ("" ++ "/" ++ join_slash (p :: ps)).
    now rewrite IH.
  - destruct ps as [|y ys].
    + simpl in IH |- *. now rewrite IH.
    + change (join_slash (String c p :: y :: ys)) with (String c p ++ "/" ++ join_slash (y :: ys)).
      change (join_slash (p :: y :: ys)) with (p ++ "/" ++ join_slash (y :: ys)) in IH.
      now rewrite <- IH.
Qed.

Lemma str_app_cancel_r a b c : a ++ c = b ++ c -> a = b.
Proof.
  intros E. assert (L : String.length a = String.length b).
  { apply (f_equal String.length) in E. rewrite !length_append in E. lia. }
  revert b L E. induction a as [|x a IH]; intros [|y b] L E; simpl in *; try discriminate;
    [reflexivity|].
  injection E as <- E. f_equal. apply IH; [lia | exact E].
Qed.

Lemma filename_join ps c :
  Forall (fun x => has_slash x = false) (ps ++ [c]) -> filename (join_slash (ps ++ [c])) = c.
Proof.
  intros Hf. unfold filename.
  rewrite split_join by (destruct ps; discriminate || assumption).
  apply last_last.
Qed.

(** ** Catalog lists *)

Lemma existsb_eqb_in x l : existsb (String.eqb x) l = true <-> In x l.
Proof.
  rewrite existsb_exists. split.
  - intros (y & Hy & E). apply String.eqb_eq in E. now subst.
  - intros H. exists x. split; [exact H | apply String.eqb_refl].
Qed.

Lemma cat_get_none k cs : cat_get k cs = None <-> ~ In k (map fst cs).
Proof.
  induction cs as [|[k' n] r IH]; simpl; [tauto|].
  destruct (String.eqb_spec k k') as [->|Hn].
  - split; [discriminate | tauto].
  - rewrite IH. intuition congruence.
Qed.

Lemma cat_get_some k cs n : cat_get k cs = Some n -> In k (map fst cs).
Proof.
  intros H. destruct (in_dec string_dec k (map fst cs)) as [|Hn]; [assumption|].
  apply cat_get_none in Hn. congruence.
Qed.

Lemma cat_set_absent k n cs : cat_get k cs = None -> cat_set k n cs = (cs ++ [(k, n)])%list.
Proof.
  induction cs as [|[k' n'] r IH]; simpl; [reflexivity|].
  destruct (String.eqb k k'); [discriminate|]. intros H. now rewrite IH.
Qed.

Lemma cat_add_link_keys k l cs : map fst (cat_add_link k l cs) = map fst cs.
Proof.
  induction cs as [|[k' n] r IH]; simpl; [reflexivity|].
  destruct (String.eqb k k'); simpl; congruence.
Qed.

Lemma cat_add_link_in k l cs p n :
  In (p, n) (cat_add_link k l cs) ->
  exists n0, In (p, n0) cs /\ cat_id n = cat_id n0 /\
    (cat_links n = cat_links n0 \/ cat_links n = (cat_links n0 ++ [l])%list).
Proof.
  induction cs as [|[k' n'] r IH]; simpl; [tauto|].
  destruct (String.eqb k k'); simpl.
  - intros [H|H].
    + injection H as <- <-. exists n'. unfold add_link.
      destruct (existsb _ _); simpl; auto.
    + exists n. auto.
  - intros [H|H].
    + injection H as <- <-. exists n'. auto.
    + destruct (IH H) as (n0 & ? & ? & ?). exists n0. auto.
Qed.

Lemma links_with_app r l1 l2 :
  links_with r (mk_node "" DescRoot (l1 ++ l2)) =
  (links_with r (mk_node "" DescRoot l1) ++ links_with r (mk_node "" DescRoot l2))%list.
Proof. unfold links_with. simpl. apply filter_app. Qed.

Lemma child_edges_app cs1 cs2 :
  child_edges (cs1 ++ cs2) = (child_edges cs1 ++ child_edges cs2)%list.
Proof. unfold child_edges. apply flat_map_app. Qed.

Lemma links_edges_add rr k l cs :
  In k (map fst cs) -> rel l = rr ->
  ~ In (k, href l) (rel_edges rr cs) ->
  Permutation (rel_edges rr (cat_add_link k l cs)) (rel_edges rr cs ++ [(k, href l)])%list.
Proof.
  intros Hin Hr. induction cs as [|[k' n] r IH]; simpl in *; [tauto|].
  intros Hn. unfold rel_edges in Hn |- *. simpl in Hn |- *. fold (rel_edges rr r) in Hn |- *.
  destruct (String.eqb_spec k k') as [<-|Hne].
  - unfold add_link.
    destruct (existsb _ _) eqn:E.
    + exfalso. apply Hn. apply in_or_app. left.
      apply existsb_exists in E as (l' & Hl' & E).
      apply andb_true_iff in E as [E1 E2]. apply String.eqb_eq in E1, E2.
      apply in_map_iff. exists l'. split; [now rewrite E2|].
      apply filter_In. split; [exact Hl'|]. apply String.eqb_eq. congruence.
    + unfold links_with at 1. simpl. rewrite filter_app, map_app. simpl.
      rewrite Hr, String.eqb_refl. simpl.
      rewrite <- !app_assoc. apply Permutation_app_head. apply Permutation_app_comm.
  - destruct Hin as [Hin|Hin]; [congruence|].
    fold (rel_edges rr (cat_add_link k l r)).
    rewrite <- app_assoc. apply Permutation_app_head. apply (IH Hin).
    intros H. apply Hn. apply in_or_app. now right.
Qed.

Lemma links_edges_dup rr k l cs :
  NoDup (map fst cs) -> rel l = rr -> In (k, href l) (rel_edges rr cs) ->
  rel_edges rr (cat_add_link k l cs) = rel_edges rr cs.
Proof.
  intros Hd Hr. induction cs as [|[k' n] r IH]; simpl in *; [tauto|].
  apply NoDup_cons_iff in Hd as [Hk' Hd'].
  unfold rel_edges. simpl. fold (rel_edges rr r).
  intros Hin. apply in_app_or in Hin.
  destruct (String.eqb_spec k k') as [<-|Hne].
  - destruct Hin as [Hin|Hin].
    + apply in_map_iff in Hin as (l' & E & Hl'). injection E as E.
      apply filter_In in Hl' as [Hl' Hrel]. apply String.eqb_eq in Hrel.
      unfold add_link.
      replace (existsb _ _) with true; [reflexivity|].
      symmetry. apply existsb_exists. exists l'. split; [exact Hl'|].
      rewrite Hrel, Hr, E, !String.eqb_refl. reflexivity.
    + exfalso. apply Hk'. unfold rel_edges in Hin.
      apply in_flat_map in Hin as ([k2 n2] & H2 & Hin).
      apply in_map_iff in Hin as (l2 & E & _). injection E as -> _.
      apply in_map_iff. now exists (k, n2).
  - simpl. fold (rel_edges rr (cat_add_link k l r)). f_equal. apply (IH Hd').
    destruct Hin as [Hin|Hin]; [|exact Hin].
    apply in_map_iff in Hin as (l' & E & _). injection E as E. congruence.
Qed.

Lemma rel_edges_add_other rr k l cs :
  String.eqb (rel l) rr = false -> rel_edges rr (cat_add_link k l cs) = rel_edges rr cs.
Proof.
  intros Hr. induction cs as [|[k' n] r IH]; simpl; [reflexivity|].
  destruct (String.eqb k k'); unfold rel_edges; simpl; fold (rel_edges rr r).
  - unfold add_link. destruct (existsb _ _); [reflexivity|].
    unfold links_with. simpl. rewrite filter_app. simpl. rewrite Hr, app_nil_r. reflexivity.
  - fold (rel_edges rr (cat_add_link k l r)). now rewrite IH.
Qed.

Lemma child_edges_add_other k l cs :
  String.eqb (rel l) "child" = false -> child_edges (cat_add_link k l cs) = child_edges cs.
Proof. exact (rel_edges_add_other "child" k l cs). Qed.

(** ** Node keys: one per prefix, in the order of first encounter *)

Lemma add_new_app keys l1 l2 : add_new keys (l1 ++ l2) = add_new (add_new keys l1) l2.
Proof. revert keys. induction l1; simpl; auto. Qed.

Lemma nodup_snoc (x : string) l : NoDup l -> ~ In x l -> NoDup (l ++ [x]).
Proof.
  intros H Hx. apply Permutation_NoDup with (x :: l);
    [apply Permutation_cons_append | now constructor].
Qed.

Lemma add_new_nodup keys l : NoDup keys -> NoDup (add_new keys l).
Proof.
  revert keys. induction l as [|x l IH]; intros keys H; simpl; [exact H|].
  apply IH. destruct (existsb (String.eqb x) keys) eqn:E; [exact H|].
  apply nodup_snoc; [exact H|]. intros Hin. apply existsb_eqb_in in Hin. congruence.
Qed.

Lemma add_new_in keys l y : In y (add_new keys l) <-> In y keys \/ In y l.
Proof.
  revert keys. induction l as [|x l IH]; intros keys; simpl; [tauto|].
  rewrite IH. destruct (existsb (String.eqb x) keys) eqn:E.
  - apply existsb_eqb_in in E. intuition congruence.
  - rewrite in_app_iff. simpl. intuition.
Qed.

Lemma ids_ok_add_link k l cs : ids_ok cs -> ids_ok (cat_add_link k l cs).
Proof.
  intros [Hd Hi]. split; [now rewrite cat_add_link_keys|].
  intros p n Hin Hp. destruct (cat_add_link_in _ _ _ _ _ Hin) as (n0 & H0 & -> & _). eauto.
Qed.

Lemma tree_component_ok ps c s cid s' :
  tree_component ps c s = (Ok cid, s') ->
  cid = join_slash (ps ++ [c]) /\
  map fst (catalogs s') = add_new (map fst (catalogs s)) [cid].
Proof.
  unfold tree_component. simpl.
  destruct (cat_get (join_slash (ps ++ [c])) (catalogs s)) eqn:G.
  - intros H. injection H as <- <-. split; [reflexivity|].
    apply cat_get_some in G. apply (proj2 (existsb_eqb_in _ _)) in G. now rewrite G.
  - destruct (cat_get (match ps with [] => "root" | _ => join_slash ps end) (catalogs s)); [|intros ?; discriminate].
    destruct (describe _ _); [|intros ?; discriminate].
    intros H. injection H as <- <-. split; [reflexivity|]. simpl.
    assert (G' : existsb (String.eqb (join_slash (ps ++ [c]))) (map fst (catalogs s)) = false).
    { destruct existsb eqn:E; [|reflexivity].
      apply existsb_eqb_in, cat_get_none in E; [contradiction | exact G]. }
    rewrite G', cat_set_absent, map_app, cat_add_link_keys; [reflexivity|].
    apply cat_get_none. rewrite cat_add_link_keys. now apply cat_get_none.
Qed.

Lemma tree_component_ids ps c s r s' :
  tree_component ps c s = (r, s') -> ids_ok (catalogs s) -> ids_ok (catalogs s').
Proof.
  unfold tree_component. simpl.
  destruct (cat_get (join_slash (ps ++ [c])) (catalogs s)) eqn:G;
    [intros H; injection H as _ <-; auto|].
  destruct (cat_get (match ps with [] => "root" | _ => join_slash ps end) (catalogs s)); [|intros H; injection H as _ <-; auto].
  destruct (describe _ _); [|intros H; injection H as _ <-; auto].
  intros H Hok. injection H as _ <-. simpl.
  assert (G1 : cat_get (join_slash (ps ++ [c])) (cat_add_link
             (match ps with [] => "root" | _ => join_slash ps end)
             (mk_link "child" (c ++ "/catalog.json") None) (catalogs s)) = None).
  { apply cat_get_none. rewrite cat_add_link_keys. now apply cat_get_none. }
  rewrite (cat_set_absent _ _ _ G1).
  destruct (ids_ok_add_link (match ps with [] => "root" | _ => join_slash ps end)
              (mk_link "child" (c ++ "/catalog.json") None) _ Hok) as [Hd Hi].
  split.
  - rewrite map_app. apply nodup_snoc; [exact Hd|]. now apply cat_get_none.
  - intros p m Hin Hp. apply in_app_iff in Hin as [Hin|[Hin|[]]]; [eauto|].
    injection Hin as <- <-. reflexivity.
Qed.

Lemma build_path_keys ps cs l s r s' :
  build_path ps cs l s = (Ok r, s') ->
  map fst (catalogs s') =
  add_new (map fst (catalogs s)) (map (fun n => join_slash (ps ++ firstn n cs)) (seq 1 (length cs))).
Proof.
  revert ps l s. induction cs as [|c cs IH]; intros ps l s; cbn [build_path].
  - intros H. now injection H as _ <-.
  - unfold bind. destruct (tree_component ps c s) as [[cid|e] s1] eqn:T; [|intros ?; discriminate].
    intros H. destruct (tree_component_ok _ _ _ _ _ T) as [-> K].
    rewrite (IH _ _ _ H), K, <- add_new_app. f_equal.
    cbn [length seq map]. rewrite <- (seq_shift (length cs) 1), map_map.
    simpl app. f_equal. apply map_ext. intros n.
    simpl firstn. now rewrite <- app_assoc.
Qed.

Lemma build_path_ids ps cs l s r s' :
  build_path ps cs l s = (r, s') -> ids_ok (catalogs s) -> ids_ok (catalogs s').
Proof.
  revert ps l s. induction cs as [|c cs IH]; intros ps l s; simpl.
  - intros H. now injection H as _ <-.
  - unfold bind. destruct (tree_component ps c s) as [[cid|e] s1] eqn:T;
      intros H Hok; pose proof (tree_component_ids _ _ _ _ _ T Hok).
    + exact (IH _ _ _ H ltac:(assumption)).
    + now injection H as _ <-.
Qed.

(** The [try] block, with its handler, changes the catalogs at most by a
    link on the node [catalog_id], and only when it succeeds. *)
Lemma try_block_catalogs src tgt k cid s r s' :
  try_except (try_body src tgt k cid) handler s = (r, s') ->
  (r = Ok tt /\ exists l, rel l = "item" /\ catalogs s' = cat_add_link cid l (catalogs s)) \/
  (exists e, r = Err e) /\ catalogs s' = catalogs s.
Proof.
  unfold try_except.
  destruct (try_body src tgt k cid s) as [[[]|e] s1] eqn:T; intros H.
  - injection H as <- <-. left. split; [reflexivity|].
    destruct (try_body_ok src tgt k cid s s1 T)
      as (j & out & s2 & oi & tkey & it & _ & N & _ & _ & _ & _ & ->).
    destruct (normalize_record_frame _ _ _ _ N) as (C & _).
    simpl. rewrite C. eexists. split; [|reflexivity]. reflexivity.
  - right. destruct (try_body_err src tgt k cid s e s1 T) as (C & _).
    destruct (handler_catalogs e s1) as [C' _].
    destruct (handler_raises e s1) as [e' He'].
    rewrite H in C', He'. simpl in *. split; [eauto | congruence].
Qed.

Lemma process_key_keys src tgt k s s' :
  process_key src tgt k s = (Ok tt, s') ->
  map fst (catalogs s') = add_new (map fst (catalogs s)) (if skip_key k then [] else prefixes k).
Proof.
  destruct (skip_key k) eqn:Hk.
  - unfold process_key, bind, modify. rewrite Hk. intros H. now injection H as <-.
  - rewrite process_key_unfold by exact Hk.
    destruct (build_path [] (path_components k) "" (set_key_var (KObj k) s)) as [[cid|e] sB] eqn:B;
      [|intros ?; discriminate].
    intros H. apply build_path_keys in B.
    destruct (try_block_catalogs _ _ _ _ _ _ _ H) as [[_ [l [_ ->]]] | [[e He] _]]; [|discriminate He].
    rewrite cat_add_link_keys, B. reflexivity.
Qed.

Lemma process_key_ids src tgt k s r s' :
  process_key src tgt k s = (r, s') -> ids_ok (catalogs s) -> ids_ok (catalogs s').
Proof.
  destruct (skip_key k) eqn:Hk.
  - unfold process_key, bind, modify. rewrite Hk. intros H. now injection H as _ <-.
  - rewrite process_key_unfold by exact Hk.
    destruct (build_path [] (path_components k) "" (set_key_var (KObj k) s)) as [[cid|e] sB] eqn:B;
      intros H Hok; pose proof (build_path_ids _ _ _ _ _ _ B Hok) as HB.
    + destruct (try_block_catalogs _ _ _ _ _ _ _ H) as [[_ [l [_ ->]]] | [_ ->]];
        [apply ids_ok_add_link|]; exact HB.
    + now injection H as _ <-.
Qed.

Lemma run_keys src tgt ks s s' :
  run src tgt ks s = (Ok tt, s') ->
  map fst (catalogs s') =
  add_new (map fst (catalogs s)) (flat_map prefixes (filter (fun k => negb (skip_key k)) ks)).
Proof.
  revert s. induction ks as [|k ks IH]; intros s; simpl.
  - intros H. now injection H as <-.
  - unfold bind. destruct (process_key src tgt k s) as [[[]|e] s1] eqn:P; [|intros ?; discriminate].
    intros H. rewrite (IH _ H), (process_key_keys _ _ _ _ _ P).
    destruct (skip_key k); simpl; [reflexivity|]. now rewrite add_new_app.
Qed.

Lemma run_ids src tgt ks s r s' :
  run src tgt ks s = (r, s') -> ids_ok (catalogs s) -> ids_ok (catalogs s').
Proof.
  revert s. induction ks as [|k ks IH]; intros s; simpl.
  - intros H. now injection H as _ <-.
  - unfold bind. destruct (process_key src tgt k s) as [[[]|e] s1] eqn:P;
      intros H Hok; pose proof (process_key_ids _ _ _ _ _ _ P Hok).
    + eauto.
    + now injection H as _ <-.
Qed.

(** ** The tree invariant *)

Lemma forall_firstn {A} (P : A -> Prop) n l : Forall P l -> Forall P (firstn n l).
Proof.
  revert l. induction n as [|n IH]; intros [|x l] H; simpl; auto.
  inversion H; subst. constructor; auto.
Qed.

Lemma links_with_other r l n n0 :
  String.eqb (rel l) r = false ->
  (cat_links n = cat_links n0 \/ cat_links n = (cat_links n0 ++ [l])%list) ->
  links_with r n = links_with r n0.
Proof.
  intros Hr [E|E]; unfold links_with; rewrite E; [reflexivity|].
  rewrite filter_app. simpl. rewrite Hr. apply app_nil_r.
Qed.

Lemma tree_ok_add_other k l cs :
  String.eqb (rel l) "child" = false -> String.eqb (rel l) "parent" = false ->
  tree_ok cs -> tree_ok (cat_add_link k l cs).
Proof.
  intros Hc Hp (R & P & H). unfold tree_ok. rewrite cat_add_link_keys. split; [exact R|].
  rewrite child_edges_add_other by exact Hc. split; [exact P|].
  intros p n Hin Hnr. destruct (cat_add_link_in _ _ _ _ _ Hin) as (n0 & H0 & _ & L).
  rewrite (links_with_other _ _ _ _ Hp L). eauto.
Qed.

Lemma join_slash_inj l1 l2 :
  l1 <> [] -> l2 <> [] ->
  Forall (fun x => has_slash x = false) l1 -> Forall (fun x => has_slash x = false) l2 ->
  join_slash l1 = join_slash l2 -> l1 = l2.
Proof.
  intros N1 N2 F1 F2 E. rewrite <- (split_join l1 N1 F1), <- (split_join l2 N2 F2). now rewrite E.
Qed.

(** Under [no_root_child], the [child] link a parent holds for the node
    [join_slash (ps ++ [c])] is held for no other key. *)
Lemma child_edge_inj ps c p :
  Forall (fun x => has_slash x = false) (ps ++ [c]) -> ps <> ["root"] ->
  drop_last (split_slash p) <> ["root"] ->
  child_edge p = (match ps with [] => "root" | _ => join_slash ps end, c ++ "/catalog.json") ->
  p = join_slash (ps ++ [c]).
Proof.
  intros Hf Hps Hp E. unfold child_edge, parent_key, filename in E.
  injection E as E1 E2. apply str_app_cancel_r in E2.
  destruct (exists_last (split_slash_nonempty p)) as (l' & a & Es).
  rewrite Es, drop_last_snoc in E1, Hp. rewrite Es, last_last in E2. subst a.
  rewrite <- (join_split p), Es. f_equal. f_equal.
  assert (Fl : Forall (fun x => has_slash x = false) l').
  { pose proof (split_slash_parts p) as F. rewrite Es in F. now apply Forall_app in F as [F _]. }
  assert (Fp : Forall (fun x => has_slash x = false) ps) by (now apply Forall_app in Hf as [F _]).
  destruct l' as [|x l'], ps as [|y ps]; try reflexivity.
  - exfalso. apply Hps. symmetry. apply (join_slash_inj [_] _); try discriminate; auto.
  - exfalso. apply Hp. apply (join_slash_inj _ ["root"]); try discriminate; auto.
  - apply join_slash_inj; try discriminate; auto.
Qed.

Lemma tree_component_tree ps c s r s' :
  Forall (fun x => has_slash x = false) (ps ++ [c]) ->
  tree_component ps c s = (r, s') -> tree_ok (catalogs s) -> no_root_child (catalogs s) ->
  tree_ok (catalogs s') /\ no_root_child (catalogs s').
Proof.
  intros Hf. unfold tree_component. simpl.
  destruct (cat_get (join_slash (ps ++ [c])) (catalogs s)) as [n0|] eqn:G;
    [intros H; injection H as _ <-; auto|].
  destruct (cat_get (match ps with [] => "root" | _ => join_slash ps end) (catalogs s)) as [np|] eqn:GP;
    [|intros H; injection H as _ <-; auto].
  destruct (describe _ _) as [d|] eqn:Ed; [|intros H; injection H as _ <-; auto].
  intros H (R & P & Hn) NR. injection H as _ <-. unfold tree_ok, no_root_child. simpl.
  assert (Hps : ps <> ["root"]) by (intros ->; cbn in Ed; discriminate).
  set (pk := match ps with [] => "root" | _ => join_slash ps end) in *.
  set (cid := join_slash (ps ++ [c])) in *.
  set (l := mk_link "child" (c ++ "/catalog.json") None).
  apply cat_get_some in GP. apply cat_get_none in G.
  assert (G1 : cat_get cid (cat_add_link pk l (catalogs s)) = None).
  { apply cat_get_none. now rewrite cat_add_link_keys. }
  assert (Hcid : nonroot cid = true).
  { unfold nonroot. destruct (String.eqb_spec cid "root") as [E|]; [|reflexivity].
    rewrite E in G. contradiction. }
  assert (Epk : parent_key cid = pk) by (apply parent_key_join; exact Hf).
  assert (Hnew : ~ In (pk, c ++ "/catalog.json") (rel_edges "child" (catalogs s))).
  { intros Hin. apply (Permutation_in _ P) in Hin.
    apply in_map_iff in Hin as (p & Ep & Hp). apply filter_In in Hp as [Hp _].
    assert (p = cid) as -> by exact (child_edge_inj ps c p Hf Hps (NR p Hp) Ep).
    exact (G Hp). }
  rewrite (cat_set_absent _ _ _ G1), map_app, cat_add_link_keys.
  split; [split; [apply in_app_iff; auto|]; split|].
  - rewrite child_edges_app, filter_app, map_app. simpl filter. rewrite Hcid.
    change (child_edges [(cid, new_catalog cid d)]) with (@nil (string * string)).
    rewrite app_nil_r. eapply Permutation_trans; [apply (links_edges_add "child"); auto|].
    simpl. apply Permutation_app; [exact P|].
    unfold child_edge. rewrite Epk. unfold cid. rewrite filename_join by exact Hf. reflexivity.
  - intros p n Hin Hnr. apply in_app_iff in Hin as [Hin|[Hin|[]]].
    + destruct (cat_add_link_in _ _ _ _ _ Hin) as (n0 & H0 & _ & L).
      rewrite (links_with_other "parent" l n n0 eq_refl L).
      destruct (Hn _ _ H0 Hnr) as [-> Hpk]. split; [reflexivity|]. apply in_app_iff; auto.
    + injection Hin as <- <-. split; [reflexivity|]. rewrite Epk. apply in_app_iff; auto.
  - intros p Hp. apply in_app_iff in Hp as [Hp|[E|[]]]; [exact (NR p Hp)|]. subst p.
    assert (Sj : split_slash cid = (ps ++ [c])%list)
      by (apply split_join; [destruct ps; discriminate|exact Hf]).
    cbn [fst]. rewrite Sj, drop_last_snoc. exact Hps.
Qed.

Lemma build_path_tree ps cs l s r s' :
  Forall (fun x => has_slash x = false) (ps ++ cs) ->
  build_path ps cs l s = (r, s') -> tree_ok (catalogs s) -> no_root_child (catalogs s) ->
  tree_ok (catalogs s') /\ no_root_child (catalogs s').
Proof.
  revert ps l s. induction cs as [|c cs IH]; intros ps l s Hf; cbn [build_path].
  - intros H. now injection H as _ <-.
  - unfold bind.
    assert (Hf1 : Forall (fun x => has_slash x = false) (ps ++ [c])).
    { apply Forall_app in Hf as [F1 F2]. inversion F2; subst.
      apply Forall_app; split; auto. }
    destruct (tree_component ps c s) as [[cid|e] s1] eqn:T;
      intros H Hok Hnr; destruct (tree_component_tree _ _ _ _ _ Hf1 T Hok Hnr).
    + refine (IH _ _ _ _ H ltac:(assumption) ltac:(assumption)). rewrite <- app_assoc. exact Hf.
    + now injection H as _ <-.
Qed.

Lemma process_key_tree src tgt k s r s' :
  process_key src tgt k s = (r, s') -> tree_ok (catalogs s) -> no_root_child (catalogs s) ->
  tree_ok (catalogs s') /\ no_root_child (catalogs s').
Proof.
  destruct (skip_key k) eqn:Hk.
  - unfold process_key, bind, modify. rewrite Hk. intros H. now injection H as _ <-.
  - rewrite process_key_unfold by exact Hk.
    assert (Hf : Forall (fun x => has_slash x = false) ([] ++ path_components k))
      by apply forall_firstn, split_slash_parts.
    destruct (build_path [] (path_components k) "" (set_key_var (KObj k) s)) as [[cid|e] sB] eqn:B;
      intros H Hok Hnr; destruct (build_path_tree _ _ _ _ _ _ Hf B Hok Hnr) as [HB NB].
    + destruct (try_block_catalogs _ _ _ _ _ _ _ H) as [[_ [l [Hl ->]]] | [_ ->]]; [|auto].
      split; [apply tree_ok_add_other; [rewrite Hl; reflexivity | rewrite Hl; reflexivity | exact HB]|].
      intros p Hp. rewrite cat_add_link_keys in Hp. exact (NB p Hp).
    + now injection H as _ <-.
Qed.

Lemma run_tree src tgt ks s r s' :
  run src tgt ks s = (r, s') -> tree_ok (catalogs s) -> no_root_child (catalogs s) ->
  tree_ok (catalogs s') /\ no_root_child (catalogs s').
Proof.
  revert s. induction ks as [|k ks IH]; intros s; simpl.
  - intros H. now injection H as _ <-.
  - unfold bind. destruct (process_key src tgt k s) as [[[]|e] s1] eqn:P;
      intros H Hok Hnr; destruct (process_key_tree _ _ _ _ _ _ P Hok Hnr).
    + eauto.
    + now injection H as _ <-.
Qed.

(* ================================================================== *)
(** * The claims *)

(** C8: for a mapping-shape record whose mandatory entries are dicts with
    [href] and [name] ([cog] also with [format]), and whose optional
    [tiff world file] is absent or of the same form, normalization succeeds
    and every entry present under a role of the fixed table becomes the
    output asset whose [href] is [sourcePrefix + "/" + str(href)], whose
    [title] and [type] come from the table ([JPEG] and [visual] take the
    legacy [name] as title), and which has no [name]; [format] is removed
    from the [cog] entry only and kept unchanged in every other asset. *)
Theorem mapping_assets_rewritten pre ad :
  wf_mapping ad ->
  exists out a', normalize pre (JObj ad) = (Ok out, JObj a') /\
    forall r c t ty d, In (r, c, t, ty) role_table -> dict_get r ad = Some (JObj d) ->
      exists e, dict_get c out = Some (JObj e) /\ entry_ok pre r t ty d e.
Proof.
  intros Hwf.
  destruct (mapping_wf_result pre ad Hwf) as (out & a' & Hn & _ & Hall).
  exists out, a'. split; [exact Hn|].
  intros r c t ty d Hin Hr.
  destruct (Hall r c t ty d Hin Hr) as (e & He & _ & _ & Hok).
  eauto.
Qed.

Lemma mapping_assets_rewritten_witness :
  wf_mapping ex_assets /\
  exists out a', normalize "p" (JObj ex_assets) = (Ok out, JObj a') /\
    forall r c t ty d, In (r, c, t, ty) role_table -> dict_get r ex_assets = Some (JObj d) ->
      exists e, dict_get c out = Some (JObj e) /\ entry_ok "p" r t ty d e.
Proof.
  split; [exact ex_assets_wf | apply (mapping_assets_rewritten "p" ex_assets ex_assets_wf)].
Defined.

(** C8 (counterexample): the [RGB Tif] entry of the sample record has a
    [format]; after normalization the [original TIFF] asset still has it. *)
Lemma mapping_format_kept_counterexample :
  exists out a' e, normalize "p" (JObj ex_assets) = (Ok out, a') /\
    dict_get "original TIFF" out = Some (JObj e) /\
    dict_get "format" e = Some (JStr "GeoTIFF").
Proof.
  do 3 eexists. split; [vm_compute; reflexivity|]. split; vm_compute; reflexivity.
Qed.

(** C3: normalization of the mapping shape raises when one of the six
    mandatory roles is absent, and it also raises when a present entry of
    one of those roles or of [tiff world file] is not a dict, lacks [href]
    or [name], or (the [cog] entry) lacks [format];
    when the mandatory entries are of that form and [tiff world file] is
    absent or of that form too, it succeeds.  The list shape never looks at
    roles: it raises exactly when some entry is not a dict or has no string
    [href], and an entry whose [href] matches no suffix rule is dropped.
    Any other shape of [assets] gives the empty asset set. *)
Theorem normalize_raises pre :
  (forall ad r, In r mandatory_roles -> dict_get r ad = None ->
     exists e s', normalize pre (JObj ad) = (Err e, s')) /\
  (forall ad r j, In r mandatory_roles \/ r = "tiff world file" -> dict_get r ad = Some j ->
     bad_entry (String.eqb r "cog") j -> exists e s', normalize pre (JObj ad) = (Err e, s')) /\
  (forall ad, wf_mapping ad -> exists out s', normalize pre (JObj ad) = (Ok out, s')) /\
  (forall l, (exists e s', normalize pre (JArr l) = (Err e, s')) <->
             Exists (fun a => exists e, entry_href a = Err e) l) /\
  (forall h acc, forallb (fun '(suf, _, _, _) => negb (endswith h suf)) list_rules = true ->
     list_entry pre h acc = acc) /\
  (forall j, (forall d, j <> JObj d) -> (forall l, j <> JArr l) -> normalize pre j = (Ok [], j)).
Proof.
  split; [|split; [|split; [|split; [|split]]]].
  - intros ad r Hin Hr. exact (mapping_shape_absent pre r Hin ad Hr).
  - intros ad r j [Hin| ->] Hr Hb.
    + exact (mapping_shape_bad pre r j Hin Hb ad Hr).
    + exact (mapping_shape_bad_world pre ad j Hr Hb).
  - intros ad Hwf. destruct (mapping_wf_result pre ad Hwf) as (out & a' & Hn & _). eauto.
  - intros l. rewrite <- list_shape_err. simpl.
    split; [intros (e & s' & H); injection H as -> _; eauto | intros [e ->]; eauto].
  - apply list_entry_nomatch.
  - intros [] Hd Hl; simpl; try reflexivity; [edestruct Hl | edestruct Hd]; reflexivity.
Qed.

(** C3 (counterexample): every mandatory role is present, but the
    [RGB Tif] entry has no [name]; normalization raises [KeyError]. *)
Lemma normalize_raises_counterexample :
  let ad := dict_set "RGB Tif" (JObj [("href", JStr "IP0130327141828.TIF")]) ex_assets in
  Forall (fun r => dict_get r ad <> None) mandatory_roles /\
  exists s', normalize "p" (JObj ad) = (Err (KeyError "name"), s').
Proof.
  simpl. split.
  - repeat constructor; discriminate.
  - eexists. vm_compute. reflexivity.
Qed.

(** C9: the normalized asset set is a function of the record held in
    [old_item] and of the prefix only, and no other part of the state
    matters.  But normalization is not pure: it rewrites the record's asset
    dicts in place.  For a list-shape record the record is left as it was,
    so normalizing it again gives the same result; for a well-formed
    mapping-shape record the first normalization succeeds and changes the
    record, and normalizing the changed record again raises
    [KeyError "name"]. *)
Theorem normalize_record_not_pure pre :
  (forall s1 s2, old_item s1 = old_item s2 ->
     fst (normalize_record pre s1) = fst (normalize_record pre s2) /\
     old_item (snd (normalize_record pre s1)) = old_item (snd (normalize_record pre s2))) /\
  (forall s d l, old_item s = Some (JObj d) -> dict_get "assets" d = Some (JArr l) ->
     normalize_record pre s = (list_shape pre l [], s)) /\
  (forall s d ad, old_item s = Some (JObj d) -> dict_get "assets" d = Some (JObj ad) ->
     wf_mapping ad ->
     exists out s1 s2, normalize_record pre s = (Ok out, s1) /\ old_item s1 <> old_item s /\
       normalize_record pre s1 = (Err (KeyError "name"), s2)).
Proof.
  split; [|split].
  - intros s1 s2 H. unfold normalize_record. rewrite H.
    destruct (old_item s2) as [oi|] eqn:E; [|simpl; split; congruence].
    destruct (getitem oi "assets"); [|simpl; split; congruence].
    destruct (normalize pre a). simpl; split; congruence.
  - intros s d l Ho Ha. rewrite (normalize_record_obj pre s d _ Ho Ha). simpl.
    rewrite dict_set_get by exact Ha. now rewrite set_old_item_same.
  - intros s d ad Ho Ha Hwf.
    destruct (mapping_wf_result pre ad Hwf) as (out & a' & Hn & _ & Hall).
    destruct Hwf as [Hm _]. inversion Hm as [|? ? Hw _]; subst.
    apply wf_entry_inv in Hw as (d1 & h1 & n1 & Hd1 & _ & Hh1 & Hn1 & _).
    destruct (Hall "RGB Tif" "original TIFF" (Some "RGB GeoTIFF") "image/vnd.stac.geotiff" d1
                (or_introl eq_refl) Hd1) as (e1 & _ & He1 & _ & Hok1 & _ & _ & Hname1 & _).
    rewrite Hh1 in Hok1. simpl in Hok1.
    rewrite (normalize_record_obj pre s d _ Ho Ha), Hn. simpl.
    set (s1 := set_old_item (JObj (dict_set "assets" (JObj a') d)) s).
    destruct (tiff_block_no_name pre a' e1 _ He1 Hok1 Hname1) as (s' & Ht).
    exists out, s1, (set_old_item
      (JObj (dict_set "assets" (snd (mapping_shape pre (JObj a'))) (dict_set "assets" (JObj a') d))) s1).
    split; [reflexivity|]. split.
    + subst s1. simpl. rewrite Ho. intros Heq. injection Heq as Heq.
      assert (Hg : dict_get "assets" (dict_set "assets" (JObj a') d) = dict_get "assets" d)
        by now rewrite Heq.
      rewrite dict_get_set_same, Ha in Hg. injection Hg as ->. congruence.
    + rewrite (normalize_record_obj pre s1 (dict_set "assets" (JObj a') d) (JObj a'))
        by (reflexivity || apply dict_get_set_same).
      simpl. unfold mapping_shape. rewrite (bind_err _ _ _ _ _ Ht). reflexivity.
Qed.

(** C9 (counterexample): the sample record is normalized once, then the
    record it leaves in [old_item] is normalized again: the first run
    succeeds, the second raises. *)
Lemma normalize_twice_counterexample :
  exists out s1 s2,
    normalize_record "p" (set_old_item ex_record init_st) = (Ok out, s1) /\
    normalize_record "p" s1 = (Err (KeyError "name"), s2).
Proof. do 3 eexists. split; vm_compute; reflexivity. Qed.

(** C10: the [item] link of a record is added to its catalog only after
    the item has been written: when the [try] block (with its [except]
    handler) fails, the catalogs and the written objects are unchanged;
    when it succeeds, exactly one item was written, to a key the target
    accepted, and the only change to the catalogs is the [item] link for
    that item on the node [catalog_id]. *)
Theorem item_link_after_put src tgt k cid s r s' :
  try_except (try_body src tgt k cid) handler s = (r, s') ->
  (forall e, r = Err e -> catalogs s' = catalogs s /\ puts s' = puts s) /\
  (r = Ok tt -> exists tkey it,
     tgt tkey = true /\ puts s' = (puts s ++ [(tkey, it)])%list /\
     catalogs s' = cat_add_link cid
                     (mk_link "item" (py_str (item_id it) ++ ".json") (Some (item_id it)))
                     (catalogs s)).
Proof.
  unfold try_except.
  destruct (try_body src tgt k cid s) as [[[]|e] s1] eqn:T; intros H.
  - injection H as <- <-. split; [discriminate|intros _].
    destruct (try_body_ok src tgt k cid s s1 T)
      as (j & out & s2 & oi & tkey & it & _ & N & _ & _ & _ & Ht & ->).
    destruct (normalize_record_frame _ _ _ _ N) as (C & P & _).
    exists tkey, it. simpl. rewrite C, P. auto.
  - destruct (try_body_err src tgt k cid s e s1 T) as (C & P & _).
    destruct (handler_catalogs e s1) as [C' P'].
    destruct (handler_raises e s1) as [e' He'].
    rewrite H in C', P', He'. simpl in *. split.
    + intros e0 _. split; congruence.
    + intros ->. discriminate.
Qed.

Lemma item_link_after_put_witness :
  try_except (try_body (ex_src ex_record) all_ok ex_key "2013/03/27") handler init_st =
    (fst (try_except (try_body (ex_src ex_record) all_ok ex_key "2013/03/27") handler init_st),
     snd (try_except (try_body (ex_src ex_record) all_ok ex_key "2013/03/27") handler init_st)) /\
  let r := fst (try_except (try_body (ex_src ex_record) all_ok ex_key "2013/03/27") handler init_st) in
  let s' := snd (try_except (try_body (ex_src ex_record) all_ok ex_key "2013/03/27") handler init_st) in
  (forall e, r = Err e -> catalogs s' = catalogs init_st /\ puts s' = puts init_st) /\
  (r = Ok tt -> exists tkey it,
     all_ok tkey = true /\ puts s' = (puts init_st ++ [(tkey, it)])%list /\
     catalogs s' = cat_add_link "2013/03/27"
                     (mk_link "item" (py_str (item_id it) ++ ".json") (Some (item_id it)))
                     (catalogs init_st)).
Proof.
  split; [vm_compute; reflexivity|].
  apply (item_link_after_put (ex_src ex_record) all_ok ex_key "2013/03/27" init_st).
  vm_compute. reflexivity.
Defined.

(** C4: a record whose [properties] have neither [datetime] nor [start]
    is not an error: [properties.get("datetime", properties.get("start"))]
    is [None], and when the rest of the record is processed without error
    the item is written with a [null] datetime. *)
Theorem missing_datetime_is_null src tgt k cid s s1 d p :
  src k = Some (JObj d) -> dict_get "properties" d = Some (JObj p) ->
  dict_get "datetime" p = None -> dict_get "start" p = None ->
  props_datetime (JObj p) = Ok JNull /\
  (try_body src tgt k cid s = (Ok tt, s1) ->
   exists tkey it, puts s1 = (puts s ++ [(tkey, it)])%list /\ item_datetime it = JNull).
Proof.
  intros Hs Hp Hd Hst.
  assert (Hdt : props_datetime (JObj p) = Ok JNull) by (simpl; now rewrite Hd, Hst).
  split; [exact Hdt|]. intros T.
  destruct (try_body_ok src tgt k cid s s1 T)
    as (j & out & s2 & oi & tkey & it & Hj & N & _ & Hrel & HI & _ & ->).
  rewrite Hs in Hj. injection Hj as <-.
  destruct Hrel as (d' & -> & Hrel).
  destruct (normalize_record_frame _ _ _ _ N) as (_ & P & _).
  exists tkey, it. simpl. rewrite P. split; [reflexivity|].
  unfold item_of in HI. unfold getitem at 4 in HI.
  rewrite (Hrel "properties") in HI by discriminate. rewrite Hp, Hdt in HI.
  destruct (getitem (JObj d') "id"), (getitem (JObj d') "bbox"), (getitem (JObj d') "geometry");
    try discriminate.
  injection HI as _ <-. reflexivity.
Qed.

Lemma missing_datetime_is_null_witness :
  let r := ex_record_with [] (JObj ex_assets) in
  ex_src r ex_key = Some r /\
  (props_datetime (JObj []) = Ok JNull /\
   (try_body (ex_src r) all_ok ex_key "2013/03/27" init_st =
      (Ok tt, snd (try_body (ex_src r) all_ok ex_key "2013/03/27" init_st)) ->
    exists tkey it,
      puts (snd (try_body (ex_src r) all_ok ex_key "2013/03/27" init_st)) =
        (puts init_st ++ [(tkey, it)])%list /\ item_datetime it = JNull)).
Proof.
  intros r. split; [reflexivity|].
  apply (missing_datetime_is_null (ex_src r) all_ok ex_key "2013/03/27" init_st _
           (match r with JObj d => d | _ => [] end) []); reflexivity.
Defined.

(** C4 (counterexample): the sample record with empty [properties] goes
    through the whole run without error, and its item is written with a
    [null] datetime. *)
Lemma missing_datetime_counterexample :
  exists s it,
    run (ex_src (ex_record_with [] (JObj ex_assets))) all_ok [ex_key] init_st = (Ok tt, s) /\
    puts s = [("0.6.1/2013/03/27/IP0130327141828.json", it)] /\ item_datetime it = JNull.
Proof.
  do 2 eexists. split; [vm_compute; reflexivity|]. split; [vm_compute; reflexivity|reflexivity].
Qed.

(** C5: processing the key [2013/03/27/IP0130327141828.json] as the first
    key of a run, for a record with id [IP0130327141828] whose mapping-shape
    assets have well-formed [RGB Tif], [RGB JPEG], [jpg overview],
    [jpeg world file], [thumbnail] and [cog] entries and no
    [tiff world file], writes one item with exactly the six canonical
    assets (no [original TIFF world file]) and the self link
    [root_prefix ++ "2013/03/27/IP0130327141828.json"]; the node [2013/03]
    gets exactly one [child] link, whose href is [27/catalog.json] (relative
    to that node), and the node [2013/03/27] exactly one [item] link. *)
Theorem example_key_processing d ad props :
  dict_get "id" d = Some (JStr "IP0130327141828") ->
  dict_get "bbox" d <> None -> dict_get "geometry" d <> None ->
  dict_get "properties" d = Some (JObj props) ->
  dict_get "assets" d = Some (JObj ad) -> wf_mapping ad ->
  dict_get "tiff world file" ad = None ->
  exists s it,
    run (ex_src (JObj d)) all_ok [ex_key] init_st = (Ok tt, s) /\
    puts s = [("0.6.1/2013/03/27/IP0130327141828.json", it)] /\
    dict_keys (item_assets it) = six_asset_keys /\
    filter (fun l => String.eqb (rel l) "self") (item_links it) =
      [mk_link "self" (root_prefix ++ "2013/03/27/IP0130327141828.json") None] /\
    option_map (links_with "child") (cat_get "2013/03" (catalogs s)) =
      Some [mk_link "child" "27/catalog.json" None] /\
    option_map (links_with "item") (cat_get "2013/03/27" (catalogs s)) =
      Some [mk_link "item" "IP0130327141828.json" (Some (JStr "IP0130327141828"))].
Proof.
  intros Hid Hb Hg Hp Ha Hwf Htw.
  destruct (dict_get "bbox" d) as [bbox|] eqn:Eb; [|congruence].
  destruct (dict_get "geometry" d) as [geom|] eqn:Eg; [|congruence].
  destruct (mapping_wf_result (source_prefix ex_key) ad Hwf) as (out & a' & Hn & Hk & _).
  rewrite Htw in Hk.
  set (sB := snd (build_path [] (path_components ex_key) "" (set_key_var (KObj ex_key) init_st))).
  set (oi := JObj (dict_set "assets" (JObj a') d)).
  assert (N : normalize_record (source_prefix ex_key) (set_old_item (JObj d) sB) =
              (Ok out, set_old_item oi (set_old_item (JObj d) sB))).
  { rewrite (normalize_record_obj _ (set_old_item (JObj d) sB) d (JObj ad) eq_refl Ha), Hn. reflexivity. }
  assert (HI : item_of "2013/03/27" oi out =
    Some ("0.6.1/2013/03/27/IP0130327141828.json",
          mk_item (JStr "IP0130327141828") bbox geom
            (match dict_get "datetime" props with
             | Some v => v
             | None => match dict_get "start" props with Some v => v | None => JNull end
             end) out
            [mk_link "root" root_href None; mk_link "parent" "../catalog.json" None;
             mk_link "self" (root_prefix ++ "2013/03/27/IP0130327141828.json") None])).
  { unfold item_of, oi, getitem.
    rewrite !dict_get_set_other by discriminate. rewrite Hid, Eb, Eg, Hp. reflexivity. }
  eexists _, _. split.
  - cbv [run process_key bind modify ret].
    change (skip_key ex_key) with false. cbv iota beta.
    rewrite ex_key_tree. unfold try_except.
    rewrite (try_body_forward _ _ _ _ _ _ _ _ _ _ _ eq_refl N eq_refl HI eq_refl).
    reflexivity.
  - split; [reflexivity|]. split; [exact Hk|]. split; [reflexivity|].
    split; vm_compute; reflexivity.
Qed.

Lemma example_key_processing_witness :
  let d := [("id", JStr "IP0130327141828");
            ("bbox", JArr [JNum "-90.5"; JNum "14.5"; JNum "-90.4"; JNum "14.6"]);
            ("geometry", JObj [("type", JStr "Point")]);
            ("properties", JObj [("datetime", JStr "2013-03-27T14:18:28Z")]);
            ("assets", JObj ex_assets)] in
  JObj d = ex_record /\
  exists s it,
    run (ex_src (JObj d)) all_ok [ex_key] init_st = (Ok tt, s) /\
    puts s = [("0.6.1/2013/03/27/IP0130327141828.json", it)] /\
    dict_keys (item_assets it) = six_asset_keys /\
    filter (fun l => String.eqb (rel l) "self") (item_links it) =
      [mk_link "self" (root_prefix ++ "2013/03/27/IP0130327141828.json") None] /\
    option_map (links_with "child") (cat_get "2013/03" (catalogs s)) =
      Some [mk_link "child" "27/catalog.json" None] /\
    option_map (links_with "item") (cat_get "2013/03/27" (catalogs s)) =
      Some [mk_link "item" "IP0130327141828.json" (Some (JStr "IP0130327141828"))].
Proof.
  intros d. split; [reflexivity|].
  apply (example_key_processing d ex_assets [("datetime", JStr "2013-03-27T14:18:28Z")]);
    try reflexivity; try discriminate.
  exact ex_assets_wf.
Defined.

(** C5 (counterexample): in the run on the sample record, the [child] link
    the node [2013/03] gets for the day node has the href
    [27/catalog.json], not [2013/03/27/catalog.json]. *)
Lemma example_child_href_counterexample :
  exists s,
    run (ex_src ex_record) all_ok [ex_key] init_st = (Ok tt, s) /\
    option_map (fun n => map href (links_with "child" n)) (cat_get "2013/03" (catalogs s)) =
      Some ["27/catalog.json"].
Proof. eexists. split; vm_compute; reflexivity. Qed.

(** C7: a key is skipped exactly when it does not end in [.json] or its
    last path segment ends with [catalog.json], [iserv.json] or
    [product.json]: the test is a suffix test, so a segment such as
    [xcatalog.json] is skipped as well as the reserved names themselves. *)
Theorem skip_key_spec k :
  skip_key k = true <->
  endswith k ".json" = false \/
  (exists p, filename k = p ++ "catalog.json") \/
  (exists p, filename k = p ++ "iserv.json") \/
  (exists p, filename k = p ++ "product.json").
Proof.
  unfold skip_key.
  rewrite (endswith_filename k "catalog.json"), (endswith_filename k "iserv.json"),
    (endswith_filename k "product.json") by reflexivity.
  rewrite <- !endswith_spec.
  destruct (endswith k ".json"), (endswith (filename k) "catalog.json"),
    (endswith (filename k) "iserv.json"), (endswith (filename k) "product.json");
    simpl; intuition congruence.
Qed.

(** C7 (counterexample): the key [2013/03/27/xcatalog.json] ends in
    [.json] and its filename is none of the reserved names, yet it is
    skipped. *)
Lemma skip_key_counterexample :
  skip_key "2013/03/27/xcatalog.json" = true /\
  endswith "2013/03/27/xcatalog.json" ".json" = true /\
  filename "2013/03/27/xcatalog.json" = "xcatalog.json" /\
  ~ In (filename "2013/03/27/xcatalog.json") ["catalog.json"; "iserv.json"; "product.json"].
Proof.
  split; [reflexivity|]. split; [reflexivity|]. split; [reflexivity|].
  vm_compute. intuition discriminate.
Qed.




(** C1: at any point of the run the catalog map holds one node per key, and
    a non-root node's id is its key; when the run completes, the keys are
    ["root"] followed by the path prefixes of the processed (non-skipped)
    keys, each added on its first encounter ([add_new]) and reused after;
    as a set they are ["root"] and the prefixes of the processed keys,
    whatever their order or multiplicity. (A first path component
    ["root"] is served by the root node itself.) *)
Theorem one_node_per_prefix src tgt ks r s :
  run src tgt ks init_st = (r, s) ->
  NoDup (map fst (catalogs s)) /\
  (forall p n, In (p, n) (catalogs s) -> p <> "root" -> cat_id n = p) /\
  (r = Ok tt ->
   map fst (catalogs s) =
     add_new ["root"] (flat_map prefixes (filter (fun k => negb (skip_key k)) ks)) /\
   forall p, In p (map fst (catalogs s)) <->
     p = "root" \/ exists k, In k ks /\ skip_key k = false /\ In p (prefixes k)).
Proof.
  intros H.
  assert (I0 : ids_ok (catalogs init_st)).
  { split; [repeat constructor; simpl; tauto|].
    intros p n [E|[]] Hp. injection E as <- _. contradiction. }
  destruct (run_ids _ _ _ _ _ _ H I0) as [Hd Hi].
  split; [exact Hd|]. split; [exact Hi|].
  intros ->. pose proof (run_keys _ _ _ _ _ H) as K. simpl in K.
  split; [exact K|].
  intros p. rewrite K, add_new_in, in_flat_map. simpl.
  split.
  - intros [[E|[]]|(k & Hk & Hp)]; [left; congruence|right].
    apply filter_In in Hk as [Hk Hs]. exists k. split; [exact Hk|].
    split; [now destruct (skip_key k)|exact Hp].
  - intros [E|(k & Hk & Hs & Hp)]; [left; left; congruence|right].
    exists k. split; [apply filter_In; rewrite Hs; auto|exact Hp].
Qed.

(** The example key processed twice: the run completes, and its catalog
    map has unique keys. *)
Lemma one_node_per_prefix_witness :
  run (ex_src ex_record) all_ok [ex_key; ex_key] init_st =
    (Ok tt, snd (run (ex_src ex_record) all_ok [ex_key; ex_key] init_st)) /\
  NoDup (map fst (catalogs (snd (run (ex_src ex_record) all_ok [ex_key; ex_key] init_st)))).
Proof.
  split; [vm_compute; reflexivity|].
  exact (proj1 (one_node_per_prefix (ex_src ex_record) all_ok [ex_key; ex_key] (Ok tt) _
                  ltac:(vm_compute; reflexivity))).
Defined.

(** C2: after any run, completed or not, every non-root node has exactly
    one [parent] link, to ["../catalog.json"], and its parent key is in the
    map; the [child] links, as pairs (holder key, href), are in bijection
    with the non-root keys (which are unique): the node [p] gets one, held
    by [parent_key p] (the shorter prefix, or ["root"] at depth 1), with
    href [filename p ++ "/catalog.json"]. *)
Theorem child_parent_links src tgt ks r s :
  run src tgt ks init_st = (r, s) ->
  NoDup (map fst (catalogs s)) /\
  Permutation (child_edges (catalogs s)) (map child_edge (filter nonroot (map fst (catalogs s)))) /\
  forall p n, In (p, n) (catalogs s) -> p <> "root" ->
    links_with "parent" n = [mk_link "parent" "../catalog.json" None] /\
    In (parent_key p) (map fst (catalogs s)).
Proof.
  intros H.
  assert (I0 : ids_ok (catalogs init_st)).
  { split; [repeat constructor; simpl; tauto|].
    intros p n [E|[]] Hp. injection E as <- _. contradiction. }
  assert (T0 : tree_ok (catalogs init_st)).
  { split; [simpl; auto|]. split; [reflexivity|].
    intros p n [E|[]] Hp. injection E as <- _. contradiction. }
  assert (N0 : no_root_child (catalogs init_st)).
  { intros p [<-|[]]. discriminate. }
  destruct (run_ids _ _ _ _ _ _ H I0) as [Hd _].
  destruct (run_tree _ _ _ _ _ _ H T0 N0) as ((_ & P & Hn) & _).
  auto.
Qed.

(** The example key: the run completes with the nodes [2013],
    [2013/03] and [2013/03/27]. *)
Lemma child_parent_links_witness :
  run (ex_src ex_record) all_ok [ex_key] init_st =
    (Ok tt, snd (run (ex_src ex_record) all_ok [ex_key] init_st)) /\
  Permutation (child_edges (catalogs (snd (run (ex_src ex_record) all_ok [ex_key] init_st))))
    [("root", "2013/catalog.json"); ("2013", "03/catalog.json"); ("2013/03", "27/catalog.json")].
Proof.
  split; [vm_compute; reflexivity|].
  destruct (child_parent_links (ex_src ex_record) all_ok [ex_key] (Ok tt) _
              ltac:(vm_compute; reflexivity)) as (_ & P & _).
  eapply Permutation_trans; [exact P|]. vm_compute. apply Permutation_refl.
Defined.

(* ================================================================== *)
(** * Further properties of the script *)

(** ** Paths *)

Lemma split_slash_cat a b :
  split_slash (a ++ String "/" b) = (split_slash a ++ split_slash b)%list.
Proof.
  induction a as [|c a IH]; simpl; [reflexivity|].
  rewrite IH. destruct (Ascii.eqb c "/"); [reflexivity|].
  destruct (split_slash a) as [|p ps] eqn:E; [now apply split_slash_nonempty in E|].
  reflexivity.
Qed.

Lemma path_components_nonempty k : path_components k <> [].
Proof.
  unfold path_components. destruct (split_slash k) eqn:E; [now apply split_slash_nonempty in E|].
  discriminate.
Qed.

Lemma build_path_result ps cs l s r s' :
  build_path ps cs l s = (Ok r, s') -> cs <> [] ->
  r = join_slash (ps ++ cs) /\ In r (map fst (catalogs s')).
Proof.
  revert ps l s. induction cs as [|c cs IH]; intros ps l s H Hne; [congruence|].
  cbn [build_path] in H. unfold bind in H.
  destruct (tree_component ps c s) as [[cid|e] s1] eqn:T; [|discriminate].
  destruct (tree_component_ok _ _ _ _ _ T) as [-> K].
  destruct cs as [|c' cs'].
  - cbn [build_path] in H. unfold ret in H. injection H as <- <-.
    split; [reflexivity|]. rewrite K, add_new_in. simpl. auto.
  - destruct (IH _ _ _ H ltac:(discriminate)) as [-> Hin].
    split; [now rewrite <- app_assoc | exact Hin].
Qed.

(** ** What one [try] block does *)

Lemma try_block_effect src tgt k cid s r s' :
  try_except (try_body src tgt k cid) handler s = (r, s') ->
  (catalogs s' = catalogs s /\ puts s' = puts s /\ exists e, r = Err e) \/
  (r = Ok tt /\ exists j out s2 oi tkey it,
     src k = Some j /\
     normalize_record (source_prefix k) (set_old_item j s) = (Ok out, s2) /\
     old_item s2 = Some oi /\ record_rel j oi /\
     item_of cid oi out = Some (tkey, it) /\ tgt tkey = true /\
     puts s' = (puts s ++ [(tkey, it)])%list /\
     catalogs s' = cat_add_link cid
                     (mk_link "item" (py_str (item_id it) ++ ".json") (Some (item_id it)))
                     (catalogs s)).
Proof.
  unfold try_except.
  destruct (try_body src tgt k cid s) as [[[]|e] s1] eqn:T; intros H.
  - injection H as <- <-. right. split; [reflexivity|].
    destruct (try_body_ok src tgt k cid s s1 T)
      as (j & out & s2 & oi & tkey & it & Hj & N & Ho & Hr & HI & Ht & ->).
    destruct (normalize_record_frame _ _ _ _ N) as (C & P & _).
    exists j, out, s2, oi, tkey, it. simpl. rewrite C, P. repeat split; assumption.
  - left. destruct (try_body_err src tgt k cid s e s1 T) as (C & P & _).
    destruct (handler_catalogs e s1) as [C' P'].
    destruct (handler_raises e s1) as [e' He'].
    rewrite H in C', P', He'. simpl in *. split; [congruence|]. split; [congruence|]. eauto.
Qed.

Lemma item_of_shape cid oi out tkey it :
  item_of cid oi out = Some (tkey, it) ->
  tkey = "0.6.1/" ++ cid ++ "/" ++ py_str (item_id it) ++ ".json" /\
  item_links it = [mk_link "root" root_href None; mk_link "parent" "../catalog.json" None;
                   mk_link "self" ("https://iserv-stac.s3.amazonaws.com/" ++ tkey) None].
Proof.
  unfold item_of.
  destruct (getitem oi "id"), (getitem oi "bbox"), (getitem oi "geometry"),
    (getitem oi "properties") as [props|]; try discriminate.
  destruct (props_datetime props); [|discriminate].
  intros H. injection H as <- <-. split; reflexivity.
Qed.

(** ** Item links of the catalogs *)

Lemma item_edges_app cs1 cs2 :
  item_edges (cs1 ++ cs2) = (item_edges cs1 ++ item_edges cs2)%list.
Proof. unfold item_edges. apply flat_map_app. Qed.

Lemma item_edges_add_other k l cs :
  String.eqb (rel l) "item" = false -> item_edges (cat_add_link k l cs) = item_edges cs.
Proof. exact (rel_edges_add_other "item" k l cs). Qed.

Lemma tree_component_items ps c s r s' :
  tree_component ps c s = (r, s') -> item_edges (catalogs s') = item_edges (catalogs s).
Proof.
  unfold tree_component. simpl.
  destruct (cat_get (join_slash (ps ++ [c])) (catalogs s)) as [n0|] eqn:G;
    [intros H; now injection H as _ <-|].
  destruct (cat_get (match ps with [] => "root" | _ => join_slash ps end) (catalogs s));
    [|intros H; now injection H as _ <-].
  destruct (describe _ _) as [d|]; [|intros H; now injection H as _ <-].
  intros H. injection H as _ <-. simpl.
  rewrite cat_set_absent.
  - rewrite item_edges_app, item_edges_add_other by reflexivity. apply app_nil_r.
  - apply cat_get_none. rewrite cat_add_link_keys. now apply cat_get_none.
Qed.

Lemma build_path_items ps cs l s r s' :
  build_path ps cs l s = (r, s') -> item_edges (catalogs s') = item_edges (catalogs s).
Proof.
  revert ps l s. induction cs as [|c cs IH]; intros ps l s; cbn [build_path].
  - intros H. now injection H as _ <-.
  - unfold bind. destruct (tree_component ps c s) as [[cid|e] s1] eqn:T; intros H;
      rewrite <- (tree_component_items _ _ _ _ _ T).
    + exact (IH _ _ _ H).
    + now injection H as _ <-.
Qed.

Lemma process_key_items src tgt ks k s r s' :
  In k ks -> process_key src tgt k s = (r, s') -> ids_ok (catalogs s) ->
  items_ok ks s -> items_ok ks s'.
Proof.
  intros Hk0. destruct (skip_key k) eqn:Hk.
  - unfold process_key, bind, modify. rewrite Hk. intros H. now injection H as _ <-.
  - rewrite process_key_unfold by exact Hk.
    destruct (build_path [] (path_components k) "" (set_key_var (KObj k) s)) as [[cid|e] sB] eqn:B;
      intros H Hid (Hnd & Hp & Hw);
      pose proof (build_path_items _ _ _ _ _ _ B) as IB;
      destruct (build_path_frame _ _ _ _ _ _ B) as (_ & PB & _);
      simpl in IB, PB.
    2:{ injection H as _ <-. unfold items_ok. rewrite IB, PB. auto. }
    destruct (build_path_result _ _ _ _ _ _ B (path_components_nonempty k)) as [Ec Hin].
    simpl in Ec.
    destruct (build_path_ids _ _ _ _ _ _ B Hid) as [HdB _].
    destruct (try_block_effect _ _ _ _ _ _ _ H)
      as [(C & P & _) | (_ & j & out & s2 & oi & tkey & it & _ & _ & _ & _ & HI & _ & P & C)].
    + unfold items_ok. rewrite C, P, IB, PB. auto.
    + destruct (item_of_shape _ _ _ _ _ HI) as [Et Hl].
      unfold items_ok. rewrite C, P, PB.
      set (l := mk_link "item" (py_str (item_id it) ++ ".json") (Some (item_id it))).
      assert (Ek : item_object_key (cid, href l) = tkey) by (rewrite Et; reflexivity).
      assert (D : forall a b : string * string, {a = b} + {a <> b})
        by (decide equality; apply string_dec).
      split; [|split].
      * destruct (in_dec D (cid, href l) (item_edges (catalogs sB))) as [Hdup|Hnew].
        -- change (NoDup (rel_edges "item" (cat_add_link cid l (catalogs sB)))).
           rewrite (links_edges_dup "item" cid l _ HdB eq_refl Hdup). now rewrite <- IB in Hnd.
        -- eapply Permutation_NoDup;
             [apply Permutation_sym, (links_edges_add "item"); [exact Hin|reflexivity|exact Hnew]|].
           apply Permutation_NoDup with ((cid, href l) :: item_edges (catalogs sB));
             [apply Permutation_cons_append|].
           constructor; [exact Hnew|]. now rewrite IB.
      * intros x. rewrite map_app, in_app_iff, <- Hp, <- IB. simpl.
        destruct (in_dec D (cid, href l) (item_edges (catalogs sB))) as [Hdup|Hnew].
        -- change (item_edges (cat_add_link cid l (catalogs sB)))
             with (rel_edges "item" (cat_add_link cid l (catalogs sB))).
           rewrite (links_edges_dup "item" cid l _ HdB eq_refl Hdup).
           split; [now left|]. intros [Hx|[<-|[]]]; [exact Hx|].
           rewrite <- Ek. now apply in_map.
        -- assert (Pe := links_edges_add "item" cid l (catalogs sB) Hin eq_refl Hnew).
           apply (Permutation_map item_object_key) in Pe. rewrite map_app in Pe. cbn [map] in Pe.
           rewrite Ek in Pe.
           split; intros Hx.
           ++ apply (Permutation_in _ Pe) in Hx. apply in_app_iff in Hx as [Hx|[<-|[]]]; auto.
           ++ apply (Permutation_in _ (Permutation_sym Pe)). apply in_app_iff.
              destruct Hx as [Hx|[<-|[]]]; [now left|right; now left].
      * intros tk i Hi. apply in_app_iff in Hi as [Hi|[Hi|[]]]; [eauto|].
        injection Hi as <- <-. exists k. rewrite <- Ec. auto.
Qed.

Lemma run_items src tgt ks0 ks s r s' :
  incl ks ks0 -> run src tgt ks s = (r, s') -> ids_ok (catalogs s) ->
  items_ok ks0 s -> items_ok ks0 s'.
Proof.
  revert s. induction ks as [|k ks IH]; intros s Hi; simpl.
  - intros H. now injection H as _ <-.
  - unfold bind. destruct (process_key src tgt k s) as [[[]|e] s1] eqn:P;
      intros H Hid Hok;
      pose proof (process_key_items _ _ ks0 _ _ _ _ (Hi k (or_introl eq_refl)) P Hid Hok);
      pose proof (process_key_ids _ _ _ _ _ _ P Hid).
    + refine (IH _ _ H ltac:(assumption) ltac:(assumption)). intros x Hx. apply Hi. now right.
    + now injection H as _ <-.
Qed.

Lemma items_ok_init ks : items_ok ks init_st.
Proof. split; [constructor|]. split; [reflexivity | intros tk it []]. Qed.

Lemma ids_ok_init : ids_ok (catalogs init_st).
Proof.
  split; [repeat constructor; simpl; tauto|].
  intros p n [E|[]] Hp. injection E as <- _. contradiction.
Qed.

(** ** Dates: [strptime] on zero-padded dates *)

Lemma in_zrange n x : (0 <= x < Z.of_nat n)%Z -> In x (zrange n).
Proof.
  intros H. unfold zrange. apply in_map_iff. exists (Z.to_nat x). split; [lia|].
  apply in_seq. lia.
Qed.

Lemma digit_char_ok n : (0 <= n < 10)%Z -> digit (digit_char n) = Some n.
Proof.
  intros H.
  assert (T : forallb (fun m => match digit (digit_char m) with
                                | Some d => Z.eqb d m
                                | None => false
                                end) (zrange 10) = true) by (vm_compute; reflexivity).
  rewrite forallb_forall in T. specialize (T n (in_zrange 10 n H)).
  destruct (digit (digit_char n)) as [d|]; [apply Z.eqb_eq in T; now subst | discriminate].
Qed.

Lemma pad4_digits y : (0 <= y < 10000)%Z ->
  (0 <= y / 1000 < 10)%Z /\ (0 <= y / 100 mod 10 < 10)%Z /\ (0 <= y / 10 mod 10 < 10)%Z /\
  (0 <= y mod 10 < 10)%Z /\
  ((((y / 1000) * 10 + y / 100 mod 10) * 10 + y / 10 mod 10) * 10 + y mod 10 = y)%Z.
Proof.
  intros H.
  pose proof (Z.div_mod y 10 ltac:(lia)) as E1.
  pose proof (Z.div_mod (y / 10) 10 ltac:(lia)) as E2.
  pose proof (Z.div_mod (y / 100) 10 ltac:(lia)) as E3.
  rewrite Z.div_div in E2, E3 by lia. simpl (10 * 10)%Z in E2. simpl (100 * 10)%Z in E3.
  pose proof (Z.mod_pos_bound y 10 ltac:(lia)).
  pose proof (Z.mod_pos_bound (y / 10) 10 ltac:(lia)).
  pose proof (Z.mod_pos_bound (y / 100) 10 ltac:(lia)).
  assert (0 <= y / 1000)%Z by (apply Z.div_pos; lia).
  assert (y / 1000 < 10)%Z by (apply Z.div_lt_upper_bound; lia).
  lia.
Qed.

Lemma re_year_pad4 y rest :
  (0 <= y < 10000)%Z -> re_year (pad4 y ++ rest) = Some (y, rest).
Proof.
  intros H. destruct (pad4_digits y H) as (D1 & D2 & D3 & D4 & E).
  unfold pad4. cbn [append]. unfold re_year.
  rewrite (digit_char_ok (y / 1000)), (digit_char_ok (y / 100 mod 10)),
    (digit_char_ok (y / 10 mod 10)), (digit_char_ok (y mod 10)) by assumption.
  now rewrite E.
Qed.

Lemma strptime_ym_tail s :
  strptime_ym s = match re_year s with
                  | Some (y, r1) =>
                      match ym_tail r1 with
                      | Some m => if valid_date y m 1 then Some (y, m) else None
                      | None => None
                      end
                  | None => None
                  end.
Proof.
  unfold strptime_ym, ym_tail. destruct (re_year s) as [[y r1]|]; [|reflexivity].
  destruct (re_slash r1); [|reflexivity].
  destruct (re_month s0) as [|[m rest] l]; [reflexivity|].
  destruct (String.eqb rest ""); reflexivity.
Qed.

Lemma strptime_ymd_tail s :
  strptime_ymd s = match re_year s with
                   | Some (y, r1) =>
                       match ymd_tail r1 with
                       | Some (m, d) => if valid_date y m d then Some (y, m, d) else None
                       | None => None
                       end
                   | None => None
                   end.
Proof.
  unfold strptime_ymd, ymd_tail. destruct (re_year s) as [[y r1]|]; [|reflexivity].
  destruct (re_slash r1); [|reflexivity].
  destruct (first_some _ _) as [[[m d] rest]|]; [|reflexivity].
  destruct (String.eqb rest ""); reflexivity.
Qed.

Lemma opt_z_eqb_eq a b : opt_z_eqb a b = true -> a = b.
Proof. destruct a, b; simpl; try discriminate; auto. intros H. apply Z.eqb_eq in H. now subst. Qed.
Lemma opt_zz_eqb_eq a b : opt_zz_eqb a b = true -> a = b.
Proof.
  destruct a as [[]|], b as [[]|]; simpl; try discriminate; auto.
  intros H. apply andb_prop in H as [H1 H2]. apply Z.eqb_eq in H1, H2. now subst.
Qed.

Lemma ym_tail_table :
  forallb (fun m => opt_z_eqb (ym_tail ("/" ++ pad2 m))
                      (if (1 <=? m) && (m <=? 12) then Some m else None)%Z) (zrange 100) = true.
Proof. vm_compute. reflexivity. Qed.

Lemma ymd_tail_table :
  forallb (fun m => forallb (fun d =>
     opt_zz_eqb (ymd_tail ("/" ++ pad2 m ++ "/" ++ pad2 d))
       (if (1 <=? m) && (m <=? 12) && (1 <=? d) && (d <=? 31) then Some (m, d) else None)%Z)
     (zrange 100)) (zrange 100) = true.
Proof. vm_compute. reflexivity. Qed.

Lemma ym_tail_pad2 m :
  (0 <= m < 100)%Z ->
  ym_tail ("/" ++ pad2 m) = if ((1 <=? m) && (m <=? 12))%Z then Some m else None.
Proof.
  intros H. apply opt_z_eqb_eq.
  pose proof ym_tail_table as T. rewrite forallb_forall in T.
  exact (T m (in_zrange 100 m H)).
Qed.

Lemma ymd_tail_pad2 m d :
  (0 <= m < 100)%Z -> (0 <= d < 100)%Z ->
  ymd_tail ("/" ++ pad2 m ++ "/" ++ pad2 d) =
    if ((1 <=? m) && (m <=? 12) && (1 <=? d) && (d <=? 31))%Z then Some (m, d) else None.
Proof.
  intros Hm Hd. apply opt_zz_eqb_eq.
  pose proof ymd_tail_table as T. rewrite forallb_forall in T.
  specialize (T m (in_zrange 100 m Hm)). rewrite forallb_forall in T.
  exact (T d (in_zrange 100 d Hd)).
Qed.

Lemma days_in_month_le y m : (days_in_month y m <= 31)%Z.
Proof. unfold days_in_month. destruct (m =? 2)%Z, (leap y); simpl; try lia; destruct (_ || _); lia. Qed.

(** ** The descriptions of the catalogs *)

Lemma cat_add_link_in_desc k l cs p n :
  In (p, n) (cat_add_link k l cs) ->
  exists n0, In (p, n0) cs /\ cat_id n = cat_id n0 /\ cat_desc n = cat_desc n0.
Proof.
  induction cs as [|[k' n'] r IH]; simpl; [tauto|].
  destruct (String.eqb k k'); simpl.
  - intros [H|H].
    + injection H as <- <-. exists n'. unfold add_link.
      destruct (existsb _ _); simpl; auto.
    + exists n. auto.
  - intros [H|H].
    + injection H as <- <-. exists n'. auto.
    + destruct (IH H) as (n0 & ? & ? & ?). exists n0. auto.
Qed.

Lemma desc_ok_add_link k l cs : desc_ok cs -> desc_ok (cat_add_link k l cs).
Proof.
  intros [R H]. split; [now rewrite cat_add_link_keys|].
  intros p n Hin. destruct (cat_add_link_in_desc _ _ _ _ _ Hin) as (n0 & H0 & I & D).
  specialize (H _ _ H0). unfold node_desc_ok in *. rewrite I, D. exact H.
Qed.

Lemma tree_component_desc ps c s r s' :
  Forall (fun x => has_slash x = false) (ps ++ [c]) ->
  tree_component ps c s = (r, s') -> desc_ok (catalogs s) -> desc_ok (catalogs s').
Proof.
  intros Hf. unfold tree_component. simpl.
  destruct (cat_get (join_slash (ps ++ [c])) (catalogs s)) as [n0|] eqn:G;
    [intros H; injection H as _ <-; auto|].
  destruct (cat_get (match ps with [] => "root" | _ => join_slash ps end) (catalogs s)) as [np|];
    [|intros H; injection H as _ <-; auto].
  destruct (describe (length ps) (join_slash (ps ++ [c]))) as [d|] eqn:D;
    [|intros H; injection H as _ <-; auto].
  intros H Hok. injection H as _ <-. simpl.
  set (pk := match ps with [] => "root" | _ => join_slash ps end) in *.
  set (cid := join_slash (ps ++ [c])) in *.
  apply cat_get_none in G.
  assert (G1 : cat_get cid (cat_add_link pk (mk_link "child" (c ++ "/catalog.json") None)
                              (catalogs s)) = None).
  { apply cat_get_none. now rewrite cat_add_link_keys. }
  rewrite (cat_set_absent _ _ _ G1).
  destruct (desc_ok_add_link pk (mk_link "child" (c ++ "/catalog.json") None) _ Hok) as [R Hn].
  split; [rewrite map_app; apply in_app_iff; auto|].
  intros p n Hin. apply in_app_iff in Hin as [Hin|[Hin|[]]]; [eauto|].
  injection Hin as <- <-. unfold node_desc_ok.
  destruct (String.eqb_spec cid "root") as [E|_].
  { exfalso. apply G. rewrite E. exact (proj1 Hok). }
  assert (S : split_slash cid = (ps ++ [c])%list)
    by (apply split_join; [destruct ps; discriminate | exact Hf]).
  simpl. rewrite S, length_app. simpl.
  destruct ps as [|x [|y [|z ps']]]; simpl in D |- *.
  - injection D as <-. auto.
  - destruct (strptime_ym cid) as [[yy m]|]; [|discriminate]. injection D as <-. auto.
  - destruct (strptime_ymd cid) as [[[yy m] dd]|]; [|discriminate]. injection D as <-. auto.
  - discriminate.
Qed.

Lemma build_path_desc ps cs l s r s' :
  Forall (fun x => has_slash x = false) (ps ++ cs) ->
  build_path ps cs l s = (r, s') -> desc_ok (catalogs s) -> desc_ok (catalogs s').
Proof.
  revert ps l s. induction cs as [|c cs IH]; intros ps l s Hf; cbn [build_path].
  - intros H. now injection H as _ <-.
  - unfold bind.
    assert (Hf1 : Forall (fun x => has_slash x = false) (ps ++ [c])).
    { apply Forall_app in Hf as [F1 F2]. inversion F2; subst.
      apply Forall_app; split; auto. }
    destruct (tree_component ps c s) as [[cid|e] s1] eqn:T;
      intros H Hok; pose proof (tree_component_desc _ _ _ _ _ Hf1 T Hok).
    + refine (IH _ _ _ _ H ltac:(assumption)). rewrite <- app_assoc. exact Hf.
    + now injection H as _ <-.
Qed.

Lemma process_key_desc src tgt k s r s' :
  process_key src tgt k s = (r, s') -> desc_ok (catalogs s) -> desc_ok (catalogs s').
Proof.
  destruct (skip_key k) eqn:Hk.
  - unfold process_key, bind, modify. rewrite Hk. intros H. now injection H as _ <-.
  - rewrite process_key_unfold by exact Hk.
    assert (Hf : Forall (fun x => has_slash x = false) ([] ++ path_components k))
      by apply forall_firstn, split_slash_parts.
    destruct (build_path [] (path_components k) "" (set_key_var (KObj k) s)) as [[cid|e] sB] eqn:B;
      intros H Hok; pose proof (build_path_desc _ _ _ _ _ _ Hf B Hok) as HB.
    + destruct (try_block_catalogs _ _ _ _ _ _ _ H) as [[_ [l [_ ->]]] | [_ ->]];
        [apply desc_ok_add_link|]; exact HB.
    + now injection H as _ <-.
Qed.

Lemma run_desc src tgt ks s r s' :
  run src tgt ks s = (r, s') -> desc_ok (catalogs s) -> desc_ok (catalogs s').
Proof.
  revert s. induction ks as [|k ks IH]; intros s; simpl.
  - intros H. now injection H as _ <-.
  - unfold bind. destruct (process_key src tgt k s) as [[[]|e] s1] eqn:P;
      intros H Hok; pose proof (process_key_desc _ _ _ _ _ _ P Hok).
    + eauto.
    + now injection H as _ <-.
Qed.

Lemma desc_ok_init : desc_ok (catalogs init_st).
Proof.
  split; [now left|]. intros p n [H|[]]. injection H as <- <-. split; reflexivity.
Qed.

Lemma prefixes_in k n :
  (1 <= n <= length (path_components k))%nat ->
  In (join_slash (firstn n (path_components k))) (prefixes k).
Proof.
  intros H. unfold prefixes. apply in_map_iff. exists n. split; [reflexivity|]. apply in_seq. lia.
Qed.

(** ** The list shape *)

Lemma get_if_set_same k v (b : bool) a :
  dict_get k (if b then dict_set k v a else a) = if b then Some v else dict_get k a.
Proof. destruct b; [apply dict_get_set_same | reflexivity]. Qed.

Lemma get_if_set_other k k' v (b : bool) a :
  k <> k' -> dict_get k (if b then dict_set k' v a else a) = dict_get k a.
Proof. intros H. destruct b; [now apply dict_get_set_other | reflexivity]. Qed.

Lemma list_entry_get pre h acc suf key title ty :
  In (suf, key, title, ty) list_rules ->
  dict_get key (list_entry pre h acc) =
    if endswith h suf
    then Some (JObj [("href", JStr (pre ++ "/" ++ h)); ("title", JStr title); ("type", JStr ty)])
    else dict_get key acc.
Proof.
  intros Hin. unfold list_entry. cbn [fold_left list_rules]. simpl in Hin.
  destruct Hin as [E|[E|[E|[E|[E|[E|[]]]]]]]; injection E as <- <- <- <-;
    repeat first [rewrite get_if_set_same | rewrite get_if_set_other by discriminate];
    reflexivity.
Qed.

Lemma list_entry_other pre h acc k :
  ~ In k (map (fun '(_, key, _, _) => key) list_rules) ->
  dict_get k (list_entry pre h acc) = dict_get k acc.
Proof.
  intros Hk. simpl in Hk. unfold list_entry. cbn [fold_left list_rules].
  repeat rewrite get_if_set_other by (intros E; apply Hk; rewrite E; tauto).
  reflexivity.
Qed.

Lemma list_shape_fold pre l hs :
  Forall2 (fun a h => entry_href a = Ok h) l hs ->
  forall acc, list_shape pre l acc = Ok (fold_left (fun a h => list_entry pre h a) hs acc).
Proof.
  induction 1 as [|a h l hs E _ IH]; intros acc; simpl; [reflexivity|].
  rewrite E. apply IH.
Qed.

(** ** The catalog objects *)

(** ** Strings *)

Lemma str_app_assoc a b c : a ++ b ++ c = (a ++ b) ++ c.
Proof. induction a as [|x a IH]; simpl; [reflexivity | now rewrite IH]. Qed.

Lemma str_app_nil_r a : a ++ "" = a.
Proof. induction a as [|x a IH]; simpl; [reflexivity | now rewrite IH]. Qed.

Lemma prefix_app a s : String.prefix a s = true -> exists b, s = a ++ b.
Proof.
  revert s. induction a as [|x a IH]; intros s H; [now exists s|].
  destruct s as [|y s]; simpl in H; [discriminate|].
  destruct (ascii_dec x y) as [<-|]; [|discriminate].
  destruct (IH s H) as [b ->]. now exists b.
Qed.

Lemma py_replace_absent s old new :
  old <> "" -> (forall a b, s <> a ++ old ++ b) -> py_replace s old new = s.
Proof.
  intros Ho. unfold py_replace. induction s as [|c r IH]; intros H; [reflexivity|].
  cbn [replace_from]. destruct (String.prefix old (String c r)) eqn:P.
  - exfalso. destruct (prefix_app _ _ P) as [b E]. exact (H "" b E).
  - f_equal. apply IH. intros a b E. apply (H (String c a) b). simpl. now rewrite E.
Qed.

Lemma join_firstn_prefix l n : exists rest, join_slash l = join_slash (firstn n l) ++ rest.
Proof.
  revert n. induction l as [|x l IH]; intros n.
  - exists "". destruct n; reflexivity.
  - destruct n as [|n]; [exists (join_slash (x :: l)); reflexivity|].
    destruct l as [|y l'].
    + exists "". cbn [firstn]. rewrite firstn_nil. simpl. now rewrite str_app_nil_r.
    + destruct (IH n) as [rest E]. destruct n as [|n].
      * exists ("/" ++ join_slash (y :: l')). reflexivity.
      * exists rest. change (join_slash (x :: y :: l')) with (x ++ "/" ++ join_slash (y :: l')).
        rewrite E. simpl firstn.
        change (join_slash (x :: y :: firstn n l')) with (x ++ "/" ++ join_slash (y :: firstn n l')).
        now rewrite !str_app_assoc.
Qed.

(** ** Dicts and ChainMap *)

Lemma dict_set_absent k v d : ~ In k (dict_keys d) -> dict_set k v d = (d ++ [(k, v)])%list.
Proof.
  induction d as [|[k0 v0] r IH]; simpl; intros H; [reflexivity|].
  destruct (String.eqb_spec k k0) as [->|_]; [tauto|]. f_equal. auto.
Qed.

Lemma nodup_get k x d : NoDup (dict_keys d) -> In (k, x) d -> dict_get k d = Some x.
Proof.
  induction d as [|[k0 v0] r IH]; simpl; intros N H; [tauto|].
  inversion N as [|? ? Hn N']; subst.
  destruct H as [E|H].
  - injection E as -> ->. now rewrite String.eqb_refl.
  - destruct (String.eqb_spec k k0) as [->|_]; [|auto].
    exfalso. apply Hn. apply in_map_iff. now exists (k0, x).
Qed.

Lemma add_new_nodup_app ks l : NoDup (ks ++ l) -> add_new ks l = (ks ++ l)%list.
Proof.
  revert ks. induction l as [|x l IH]; intros ks N; simpl; [now rewrite app_nil_r|].
  destruct (existsb (String.eqb x) ks) eqn:E.
  - exfalso. apply existsb_eqb_in in E. apply (NoDup_remove_2 _ _ _ N). apply in_app_iff. auto.
  - rewrite IH; [now rewrite <- app_assoc|]. now rewrite <- app_assoc.
Qed.

Lemma update_keys_add_new ks m : update_keys ks m = add_new ks (dict_keys m).
Proof.
  unfold update_keys. generalize (dict_keys m) as l. intros l. revert ks.
  induction l as [|x l IH]; intros ks; simpl; auto.
Qed.

Section Element.
Variable data : dict.

Lemma element_lookup_eq k : element_lookup data k = if String.eqb k "stac_version" then Some (JStr "0.6.1") else dict_get k data.
Proof.
  unfold element_lookup, first_some. cbn [fold_right dict_get]. destruct (String.eqb k "stac_version"); [reflexivity|].
  destruct (dict_get k data); reflexivity.
Qed.

Lemma fold_step_app l acc :
  NoDup (dict_keys acc ++ l) ->
  fold_left (fun d k => match first_some (dict_get k) [[]; [("stac_version", JStr "0.6.1")]; data] with
                        | Some x => dict_set k x d
                        | None => d
                        end) l acc =
  (acc ++ flat_map (element_entry data) l)%list.
Proof.
  revert acc. induction l as [|k l IH]; intros acc N; cbn [fold_left flat_map];
    [now rewrite app_nil_r|].
  unfold element_entry at 1. fold (element_lookup data k). destruct (element_lookup data k) as [x|].
  - rewrite dict_set_absent.
    + rewrite IH; [now rewrite <- app_assoc|].
      unfold dict_keys. rewrite map_app. cbn [map fst]. fold (dict_keys acc). now rewrite <- app_assoc.
    + intros Hk. apply (NoDup_remove_2 _ _ _ N). apply in_app_iff. auto.
  - rewrite IH; [reflexivity|]. exact (NoDup_remove_1 _ _ _ N).
Qed.

Lemma flat_map_rep d :
  (forall k x, In (k, x) d -> dict_get k data = Some x) ->
  flat_map (element_entry data) (dict_keys d) = map sv_rep d.
Proof.
  induction d as [|[k x] r IH]; intros H; [reflexivity|].
  change (dict_keys ((k, x) :: r)) with (k :: dict_keys r). cbn [flat_map map].
  unfold element_entry at 1. rewrite element_lookup_eq, (H k x (or_introl eq_refl)). unfold sv_rep at 1; cbn [fst snd].
  rewrite IH by (intros; apply H; now right).
  destruct (String.eqb k "stac_version"); reflexivity.
Qed.

Lemma map_rep_absent d : ~ In "stac_version" (dict_keys d) -> map sv_rep d = d.
Proof.
  induction d as [|[k x] r IH]; intros H; [reflexivity|].
  change (dict_keys ((k, x) :: r)) with (k :: dict_keys r) in H. cbn [map].
  unfold sv_rep at 1; cbn [fst snd]. destruct (String.eqb_spec k "stac_version") as [->|_].
  - exfalso. apply H. now left.
  - f_equal. apply IH. intros Hi. apply H. now right.
Qed.

Lemma dict_set_rep d :
  NoDup (dict_keys d) ->
  dict_set "stac_version" (JStr "0.6.1") d =
  (map sv_rep d ++ if existsb (String.eqb "stac_version") (dict_keys d) then []
                else [("stac_version", JStr "0.6.1")])%list.
Proof.
  induction d as [|[k x] r IH]; intros N; [reflexivity|].
  inversion N as [|? ? Hn N']; subst.
  change (dict_keys ((k, x) :: r)) with (k :: dict_keys r).
  cbn [dict_set existsb map app]. unfold sv_rep at 1. cbn [fst snd].
  rewrite (String.eqb_sym k "stac_version").
  destruct (String.eqb_spec "stac_version" k) as [<-|_]; cbn [orb].
  - now rewrite map_rep_absent, app_nil_r.
  - f_equal. auto.
Qed.

Lemma catalog_element_set :
  NoDup (dict_keys data) -> catalog_element data = dict_set "stac_version" (JStr "0.6.1") data.
Proof.
  intros N. unfold catalog_element, chainmap_dict, chainmap_keys. cbn [rev app fold_left].
  rewrite !update_keys_add_new.
  change (dict_keys []) with (@nil string).
  change (dict_keys [("stac_version", JStr "0.6.1")]) with ["stac_version"].
  rewrite (add_new_nodup_app [] (dict_keys data)) by exact N.
  cbn [add_new app].
  assert (R : flat_map (element_entry data) (dict_keys data) = map sv_rep data)
    by (apply flat_map_rep; intros k x; now apply nodup_get).
  rewrite dict_set_rep by exact N.
  destruct (existsb (String.eqb "stac_version") (dict_keys data)) eqn:E.
  - rewrite fold_step_app by exact N. cbn [app]. now rewrite R, app_nil_r.
  - rewrite fold_step_app.
    + cbn [app]. rewrite flat_map_app, R. unfold element_entry. cbn [flat_map]. rewrite element_lookup_eq, String.eqb_refl.
      now rewrite app_nil_r.
    + apply nodup_snoc; [exact N|]. intros Hin. apply existsb_eqb_in in Hin. congruence.
Qed.
End Element.

Lemma catalog_key_id data i :
  NoDup (dict_keys data) -> dict_get "id" data = Some (JStr i) ->
  catalog_key data = Ok (if String.eqb i "ISERV" then "0.6.1/catalog.json"
                         else "0.6.1/" ++ py_replace i "ISERV" "" ++ "/catalog.json").
Proof.
  intros N H. unfold catalog_key. rewrite H. destruct (String.eqb i "ISERV"); [reflexivity|].
  rewrite catalog_element_set by exact N.
  rewrite dict_get_set_other by discriminate. now rewrite H.
Qed.

Lemma write_catalogs_all tgt2 (data_of : node -> dict) (es : list (string * node)) o p :
  (forall e, In e es -> catalog_key (data_of (snd e)) = Ok (catalog_object_key (fst e))) ->
  (forall key, tgt2 key = true) ->
  write_catalogs tgt2 (map (fun e => data_of (snd e)) es) (o, p) =
    (Ok tt, ((o ++ map (fun e => OutKey (catalog_object_key (fst e))) es)%list,
             (p ++ map (fun e => (catalog_object_key (fst e), catalog_element (data_of (snd e)))) es)%list)).
Proof.
  intros Hk Ht. revert o p. induction es as [|e es IH]; intros o p.
  - cbn. now rewrite !app_nil_r.
  - cbn [map write_catalogs]. unfold bind, lift, modify.
    rewrite (Hk e (or_introl eq_refl)). rewrite Ht.
    rewrite IH by (intros; apply Hk; now right).
    now rewrite <- !app_assoc.
Qed.

Lemma run_node_ids src tgt ks r s :
  run src tgt ks init_st = (r, s) ->
  forall p n, In (p, n) (catalogs s) -> cat_id n = if String.eqb p "root" then "ISERV" else p.
Proof.
  intros H p n Hin.
  assert (I0 : ids_ok (catalogs init_st)).
  { split; [repeat constructor; simpl; tauto|]. intros p0 n0 [E|[]] Hp. injection E as <- <-. congruence. }
  destruct (run_ids _ _ _ _ _ _ H I0) as [_ Hi].
  pose proof (proj2 (run_desc _ _ _ _ _ _ H desc_ok_init) p n Hin) as D.
  unfold node_desc_ok in D. destruct (String.eqb_spec p "root"); [exact (proj1 D)|].
  now apply Hi.
Qed.

Lemma catalog_key_root_len p :
  p <> "root" -> String.eqb p "ISERV" = false ->
  catalog_object_key p = "0.6.1/" ++ py_replace p "ISERV" "" ++ "/catalog.json".
Proof.
  intros H1 H2. unfold catalog_object_key. apply String.eqb_neq in H1. now rewrite H1, H2.
Qed.

Lemma substring_prefix p q : substring 0 (String.length p) (p ++ q) = p.
Proof. induction p as [|c p IH]; simpl; [apply substring_zero | now rewrite IH]. Qed.

Lemma no_occurrence s sub :
  forallb (fun i => negb (String.eqb (substring i (String.length sub) s) sub))
    (seq 0 (S (String.length s))) = true ->
  forall a b, s <> a ++ sub ++ b.
Proof.
  intros F a b E. subst s. rewrite forallb_forall in F.
  assert (Hi : In (String.length a) (seq 0 (S (String.length (a ++ sub ++ b))))).
  { apply in_seq. rewrite !length_append. lia. }
  specialize (F _ Hi). rewrite substring_app_l, substring_prefix, String.eqb_refl in F.
  discriminate.
Qed.

(** ** The theorems *)

(** The asset hrefs of a record are resolved against the directory of its
    key: for a key [dir/file] the source prefix is the source bucket's URL
    followed by [dir]; a key with no [/] gives the bucket's URL with an
    empty directory. *)
Theorem source_prefix_directory dir file :
  has_slash file = false ->
  source_prefix (dir ++ "/" ++ file) = "https://radiant-nasa-iserv.s3.amazonaws.com/" ++ dir /\
  source_prefix file = "https://radiant-nasa-iserv.s3.amazonaws.com/".
Proof.
  intros H. unfold source_prefix. split.
  - change (dir ++ "/" ++ file) with (dir ++ String "/" file).
    rewrite split_slash_cat, (split_slash_noslash file H), drop_last_snoc, join_split.
    reflexivity.
  - rewrite (split_slash_noslash file H). reflexivity.
Qed.

Lemma source_prefix_directory_witness :
  source_prefix ("2013/03/27" ++ "/" ++ "IP0130327141828.json") =
    "https://radiant-nasa-iserv.s3.amazonaws.com/" ++ "2013/03/27" /\
  source_prefix "IP0130327141828.json" = "https://radiant-nasa-iserv.s3.amazonaws.com/".
Proof. apply source_prefix_directory. reflexivity. Defined.

(** When the catalog tree is built for a key without error, the
    [catalog_id] the record goes to is the first three segments of the
    key joined by [/] (all segments when there are fewer), and a catalog
    with that id exists. *)
Theorem build_path_catalog_id k s cid s' :
  build_path [] (path_components k) "" s = (Ok cid, s') ->
  cid = join_slash (firstn 3 (split_slash k)) /\ In cid (map fst (catalogs s')).
Proof.
  intros H. exact (build_path_result _ _ _ _ _ _ H (path_components_nonempty k)).
Qed.

Lemma build_path_catalog_id_witness :
  "2013/03/27" = join_slash (firstn 3 (split_slash ex_key)) /\
  In "2013/03/27" (map fst (catalogs (snd (build_path [] (path_components ex_key) "" init_st)))).
Proof.
  apply (build_path_catalog_id ex_key init_st). vm_compute. reflexivity.
Defined.

(** Every object the run writes for an item (completed or not) has the key
    ["0.6.1/" ++ catalog_id ++ "/" ++ str(id) ++ ".json"], where
    [catalog_id] is the first three segments of a processed key, and the
    item's links are [root], [parent] and a [self] link to the public URL of
    that very object. *)
Theorem item_objects_placed src tgt ks r s :
  run src tgt ks init_st = (r, s) ->
  forall tkey it, In (tkey, it) (puts s) ->
    exists k, In k ks /\ skip_key k = false /\
      tkey = "0.6.1/" ++ join_slash (firstn 3 (split_slash k)) ++ "/" ++ py_str (item_id it) ++ ".json" /\
      item_links it = [mk_link "root" root_href None; mk_link "parent" "../catalog.json" None;
                       mk_link "self" ("https://iserv-stac.s3.amazonaws.com/" ++ tkey) None].
Proof.
  intros H. exact (proj2 (proj2 (run_items _ _ ks _ _ _ _ (incl_refl ks) H ids_ok_init (items_ok_init ks)))).
Qed.

Lemma item_objects_placed_witness :
  exists tkey it, In (tkey, it) (puts (snd (run (ex_src ex_record) all_ok [ex_key] init_st))) /\
    exists k, In k [ex_key] /\ skip_key k = false /\
      tkey = "0.6.1/" ++ join_slash (firstn 3 (split_slash k)) ++ "/" ++ py_str (item_id it) ++ ".json" /\
      item_links it = [mk_link "root" root_href None; mk_link "parent" "../catalog.json" None;
                       mk_link "self" ("https://iserv-stac.s3.amazonaws.com/" ++ tkey) None].
Proof.
  do 2 eexists. split; [vm_compute; left; reflexivity|].
  apply (item_objects_placed (ex_src ex_record) all_ok [ex_key] (Ok tt) _
           ltac:(vm_compute; reflexivity)).
  vm_compute. left. reflexivity.
Defined.

(** The [item] links of the catalogs and the objects written for items
    match as sets, whether the run completes or not: each [item] link,
    resolved against its catalog, is the key of a written object, and each
    written object is reached by an [item] link.  No catalog holds the same
    [item] link twice, so two records with one [id] under one date give two
    writes of one object but a single link. *)
Theorem item_links_cover_puts src tgt ks r s :
  run src tgt ks init_st = (r, s) ->
  NoDup (item_edges (catalogs s)) /\
  forall x, In x (map item_object_key (item_edges (catalogs s))) <-> In x (map fst (puts s)).
Proof.
  intros H.
  destruct (run_items _ _ ks _ _ _ _ (incl_refl ks) H ids_ok_init (items_ok_init ks)) as (N & I & _).
  auto.
Qed.

(** The example key listed twice: two writes, one [item] link. *)
Lemma item_links_cover_puts_witness :
  run (ex_src ex_record) all_ok [ex_key; ex_key] init_st =
    (Ok tt, snd (run (ex_src ex_record) all_ok [ex_key; ex_key] init_st)) /\
  (NoDup (item_edges (catalogs (snd (run (ex_src ex_record) all_ok [ex_key; ex_key] init_st)))) /\
   forall x, In x (map item_object_key
                    (item_edges (catalogs (snd (run (ex_src ex_record) all_ok [ex_key; ex_key] init_st))))) <->
             In x (map fst (puts (snd (run (ex_src ex_record) all_ok [ex_key; ex_key] init_st))))) /\
  length (puts (snd (run (ex_src ex_record) all_ok [ex_key; ex_key] init_st))) = 2 /\
  length (item_edges (catalogs (snd (run (ex_src ex_record) all_ok [ex_key; ex_key] init_st)))) = 1.
Proof.
  split; [vm_compute; reflexivity|].
  split; [|split; vm_compute; reflexivity].
  apply (item_links_cover_puts (ex_src ex_record) all_ok [ex_key; ex_key] (Ok tt) _).
  vm_compute. reflexivity.
Defined.

(** The item a successful [try] block writes is built from the record
    read for the key: the record is a dict; the item's [id], [bbox] and
    [geometry] are the record's own values; its datetime is
    [properties["datetime"]] when present, else [properties["start"]], else
    null; and its assets are the normalized asset set. *)
Theorem written_item_from_record src tgt k cid s r s' :
  try_except (try_body src tgt k cid) handler s = (r, s') -> r = Ok tt ->
  exists dj tkey it out s2,
    src k = Some (JObj dj) /\ puts s' = (puts s ++ [(tkey, it)])%list /\
    normalize_record (source_prefix k) (set_old_item (JObj dj) s) = (Ok out, s2) /\
    item_assets it = out /\
    dict_get "id" dj = Some (item_id it) /\ dict_get "bbox" dj = Some (item_bbox it) /\
    dict_get "geometry" dj = Some (item_geometry it) /\
    exists p, dict_get "properties" dj = Some (JObj p) /\
      item_datetime it = match dict_get "datetime" p with
                         | Some v => v
                         | None => match dict_get "start" p with Some v => v | None => JNull end
                         end.
Proof.
  intros H ->.
  destruct (try_block_effect _ _ _ _ _ _ _ H)
    as [(_ & _ & e & E) | (_ & j & out & s2 & oi & tkey & it & Hj & N & _ & Hr & HI & _ & P & _)];
    [discriminate|].
  unfold item_of in HI.
  destruct (getitem oi "id") as [id|] eqn:G1; [|discriminate].
  destruct (getitem oi "bbox") as [bbox|] eqn:G2; [|discriminate].
  destruct (getitem oi "geometry") as [geom|] eqn:G3; [|discriminate].
  destruct (getitem oi "properties") as [props|] eqn:G4; [|discriminate].
  destruct (props_datetime props) as [dt|] eqn:G5; [|discriminate].
  injection HI as <- <-.
  destruct oi as [| | | | | d]; try discriminate.
  destruct j as [| | | | | dj]; simpl in Hr; try discriminate.
  destruct Hr as (d' & E & Hd). injection E as <-.
  unfold getitem in G1, G2, G3, G4.
  rewrite Hd in G1, G2, G3, G4 by discriminate.
  destruct (dict_get "id" dj) eqn:I1; [injection G1 as <-|discriminate].
  destruct (dict_get "bbox" dj) eqn:I2; [injection G2 as <-|discriminate].
  destruct (dict_get "geometry" dj) eqn:I3; [injection G3 as <-|discriminate].
  destruct (dict_get "properties" dj) as [pj|] eqn:I4; [injection G4 as <-|discriminate].
  destruct pj as [| | | | | p]; try discriminate.
  simpl in G5. injection G5 as <-.
  exists dj. do 4 eexists.
  split; [exact Hj|]. split; [exact P|]. split; [exact N|]. split; [reflexivity|].
  simpl. repeat split; auto. exists p. auto.
Qed.

Lemma written_item_from_record_witness :
  let sB := snd (build_path [] (path_components ex_key) "" (set_key_var (KObj ex_key) init_st)) in
  exists dj tkey it out s2,
    ex_src ex_record ex_key = Some (JObj dj) /\
    puts (snd (try_except (try_body (ex_src ex_record) all_ok ex_key "2013/03/27") handler sB)) =
      (puts sB ++ [(tkey, it)])%list /\
    normalize_record (source_prefix ex_key) (set_old_item (JObj dj) sB) = (Ok out, s2) /\
    item_assets it = out /\
    dict_get "id" dj = Some (item_id it) /\ dict_get "bbox" dj = Some (item_bbox it) /\
    dict_get "geometry" dj = Some (item_geometry it) /\
    exists p, dict_get "properties" dj = Some (JObj p) /\
      item_datetime it = match dict_get "datetime" p with
                         | Some v => v
                         | None => match dict_get "start" p with Some v => v | None => JNull end
                         end.
Proof.
  intros sB.
  apply (written_item_from_record (ex_src ex_record) all_ok ex_key "2013/03/27" sB (Ok tt)).
  - vm_compute. reflexivity.
  - reflexivity.
Defined.

(** When the target bucket refuses the write of an item, the [except]
    handler meets [key] rebound to the target key string, so [key.key]
    fails: the [try] block ends in [AttributeError] instead of the write
    error, only the target key has been printed (not the record), and
    nothing was written nor linked. *)
Theorem write_failure_attribute_error src tgt k cid s j out s2 oi tkey it :
  src k = Some j ->
  normalize_record (source_prefix k) (set_old_item j s) = (Ok out, s2) ->
  old_item s2 = Some oi -> item_of cid oi out = Some (tkey, it) -> tgt tkey = false ->
  exists s', try_except (try_body src tgt k cid) handler s = (Err AttributeError, s') /\
    outs s' = (outs s ++ [OutKey tkey])%list /\ puts s' = puts s /\ catalogs s' = catalogs s.
Proof.
  intros Hs N Ho HI T.
  destruct (normalize_record_frame _ _ _ _ N) as (C & P & O & _).
  simpl in C, P, O.
  unfold try_except, try_body, bind, lift, modify, gets. rewrite Hs, N.
  unfold current_old_item. rewrite Ho.
  unfold item_of in HI.
  destruct (getitem oi "id"), (getitem oi "bbox"), (getitem oi "geometry"),
    (getitem oi "properties") as [props|]; try discriminate.
  destruct (props_datetime props); [|discriminate].
  injection HI as <- <-. simpl in T |- *. rewrite T. simpl.
  eexists. split; [reflexivity|]. simpl. rewrite O, P, C. auto.
Qed.

Lemma write_failure_attribute_error_witness :
  let sB := snd (build_path [] (path_components ex_key) "" (set_key_var (KObj ex_key) init_st)) in
  exists s', try_except (try_body (ex_src ex_record) (fun _ => false) ex_key "2013/03/27") handler sB =
      (Err AttributeError, s') /\
    outs s' = (outs sB ++ [OutKey "0.6.1/2013/03/27/IP0130327141828.json"])%list /\
    puts s' = puts sB /\ catalogs s' = catalogs sB.
Proof.
  intros sB.
  eapply (write_failure_attribute_error (ex_src ex_record) (fun _ => false) ex_key "2013/03/27" sB
            ex_record); [reflexivity | vm_compute; reflexivity | vm_compute; reflexivity
                        | vm_compute; reflexivity | reflexivity].
Defined.

(** When the record of a key cannot be read, the [except] handler prints
    the key and then works on whatever [old_item] still holds: before any
    record was read that name is unbound ([NameError]); otherwise the
    record of the previous key is printed without its [geometry], and the
    read error is re-raised. *)
Theorem read_failure_handler src tgt k cid s :
  key_var s = KObj k -> src k = None ->
  (old_item s = None ->
     try_except (try_body src tgt k cid) handler s = (Err NameError, emit (OutKey k) s)) /\
  (forall d d', old_item s = Some (JObj d) -> dict_del "geometry" d = Some d' ->
     try_except (try_body src tgt k cid) handler s =
       (Err ReadError, emit (OutJson (JObj d')) (set_old_item (JObj d') (emit (OutKey k) s)))).
Proof.
  intros K Hs. unfold try_except, try_body, bind, lift. rewrite Hs.
  unfold handler. rewrite K. split.
  - intros Ho. simpl. rewrite Ho. reflexivity.
  - intros d d' Ho Hd. simpl. rewrite Ho, Hd. reflexivity.
Qed.

Lemma read_failure_handler_witness :
  let s := set_key_var (KObj ex_key) init_st in
  (old_item s = None ->
     try_except (try_body (fun _ => None) all_ok ex_key "2013/03/27") handler s =
       (Err NameError, emit (OutKey ex_key) s)) /\
  (forall d d', old_item s = Some (JObj d) -> dict_del "geometry" d = Some d' ->
     try_except (try_body (fun _ => None) all_ok ex_key "2013/03/27") handler s =
       (Err ReadError, emit (OutJson (JObj d')) (set_old_item (JObj d') (emit (OutKey ex_key) s)))).
Proof. intros s. apply read_failure_handler; reflexivity. Defined.

(** A catalog at depth one is described by the month [strptime(catalog_id,
    "%Y/%m")] reads: for an id written [yyyy/mm] with four and two digits,
    the description is that year and month when the year is at least 1
    and the month between 1 and 12; for any other such id [strptime]
    raises [ValueError]. *)
Theorem describe_month y m :
  (0 <= y < 10000)%Z -> (0 <= m < 100)%Z ->
  describe 1 (pad4 y ++ "/" ++ pad2 m) =
    if valid_date y m 1 then Ok (DescMonth y m) else Err ValueError.
Proof.
  intros Hy Hm. unfold describe. rewrite strptime_ym_tail, re_year_pad4 by exact Hy.
  rewrite ym_tail_pad2 by exact Hm.
  destruct ((1 <=? m) && (m <=? 12))%Z eqn:E; [destruct (valid_date y m 1); reflexivity|].
  replace (valid_date y m 1) with false; [reflexivity|].
  unfold valid_date. destruct (1 <=? m)%Z, (m <=? 12)%Z; try discriminate;
    now rewrite ?andb_false_r.
Qed.

Lemma describe_month_witness :
  describe 1 (pad4 2013 ++ "/" ++ pad2 3) =
    if valid_date 2013 3 1 then Ok (DescMonth 2013 3) else Err ValueError.
Proof. apply describe_month; lia. Defined.

(** A catalog at depth two is described by the date [strptime(catalog_id,
    "%Y/%m/%d")] reads: for an id written [yyyy/mm/dd] with four, two and
    two digits, the description is that date exactly when it is a valid
    calendar date (year 1 to 9999, month 1 to 12, day within the month,
    leap years counted); otherwise [strptime] raises [ValueError]. *)
Theorem describe_day y m d :
  (0 <= y < 10000)%Z -> (0 <= m < 100)%Z -> (0 <= d < 100)%Z ->
  describe 2 (pad4 y ++ "/" ++ pad2 m ++ "/" ++ pad2 d) =
    if valid_date y m d then Ok (DescDay y m d) else Err ValueError.
Proof.
  intros Hy Hm Hd. unfold describe. rewrite strptime_ymd_tail, re_year_pad4 by exact Hy.
  rewrite ymd_tail_pad2 by assumption.
  destruct ((1 <=? m) && (m <=? 12) && (1 <=? d) && (d <=? 31))%Z eqn:E; [destruct (valid_date y m d); reflexivity|].
  destruct (valid_date y m d) eqn:V; [|reflexivity].
  exfalso. unfold valid_date in V. pose proof (days_in_month_le y m).
  rewrite !andb_true_iff, !Z.leb_le in V.
  assert (X : ((1 <=? m) && (m <=? 12) && (1 <=? d) && (d <=? 31))%Z = true)
    by (rewrite !andb_true_iff, !Z.leb_le; lia).
  congruence.
Qed.

Lemma describe_day_witness :
  describe 2 (pad4 2013 ++ "/" ++ pad2 2 ++ "/" ++ pad2 29) =
    if valid_date 2013 2 29 then Ok (DescDay 2013 2 29) else Err ValueError.
Proof. apply describe_day; lia. Defined.

(** Whether the run completes or not, every catalog it holds carries the
    description read off its key: the root is the [ISERV] catalog; a
    one-segment key is described by itself; a two-segment key by the year
    and month [strptime(key, "%Y/%m")] gives; a three-segment key by the
    date [strptime(key, "%Y/%m/%d")] gives. *)
Theorem catalog_descriptions src tgt ks r s :
  run src tgt ks init_st = (r, s) ->
  forall p n, In (p, n) (catalogs s) -> node_desc_ok p n.
Proof. intros H. exact (proj2 (run_desc _ _ _ _ _ _ H desc_ok_init)). Qed.

Lemma catalog_descriptions_witness :
  Forall (fun e => node_desc_ok (fst e) (snd e)) (catalogs (snd (run (ex_src ex_record) all_ok [ex_key] init_st))).
Proof.
  apply Forall_forall. intros [p n] Hin.
  apply (catalog_descriptions (ex_src ex_record) all_ok [ex_key] (Ok tt) (snd (run (ex_src ex_record) all_ok [ex_key] init_st)));
    [vm_compute; reflexivity | exact Hin].
Defined.

(** A run that completes has accepted the dates of every key it processed:
    for a key with at least two segments, its first two segments parse
    with [%Y/%m]; with at least three, its first three parse with
    [%Y/%m/%d]. *)
Theorem processed_keys_dated src tgt ks s :
  run src tgt ks init_st = (Ok tt, s) ->
  forall k, In k ks -> skip_key k = false ->
    ((2 <= length (split_slash k))%nat ->
       exists y m, strptime_ym (join_slash (firstn 2 (split_slash k))) = Some (y, m)) /\
    ((3 <= length (split_slash k))%nat ->
       exists y m d, strptime_ymd (join_slash (firstn 3 (split_slash k))) = Some (y, m, d)).
Proof.
  intros H k Hk Hs.
  pose proof (run_keys _ _ _ _ _ H) as K. simpl in K.
  destruct (run_desc _ _ _ _ _ _ H desc_ok_init) as [_ D].
  assert (Lk : length (path_components k) = Nat.min 3 (length (split_slash k)))
    by apply length_firstn.
  assert (Hin : forall n, (1 <= n <= length (path_components k))%nat ->
            exists nd, In (join_slash (firstn n (split_slash k)), nd) (catalogs s)).
  { intros n Hn. assert (I : In (join_slash (firstn n (split_slash k))) (map fst (catalogs s))).
    { rewrite K, add_new_in. right. apply in_flat_map. exists k. split.
      - apply filter_In. rewrite Hs. auto.
      - replace (firstn n (split_slash k)) with (firstn n (path_components k)).
        + now apply prefixes_in.
        + unfold path_components. rewrite firstn_firstn. f_equal. lia. }
    apply in_map_iff in I as [[p nd] [E I]]. simpl in E. subst p. eauto. }
  assert (Sp : forall n, (1 <= n <= length (split_slash k))%nat ->
            split_slash (join_slash (firstn n (split_slash k))) = firstn n (split_slash k)).
  { intros n Hn. apply split_join.
    - intros E. apply (f_equal (@length string)) in E. rewrite length_firstn in E. simpl in E. lia.
    - apply forall_firstn, split_slash_parts. }
  split.
  - intros L2. destruct (Hin 2%nat ltac:(lia)) as [nd I].
    pose proof (D _ _ I) as Nd. unfold node_desc_ok in Nd.
    rewrite Sp in Nd by lia.
    destruct (String.eqb_spec (join_slash (firstn 2 (split_slash k))) "root") as [E|_].
    + exfalso. pose proof (Sp 2%nat ltac:(lia)) as S2. rewrite E in S2.
      apply (f_equal (@length string)) in S2.
      change (length (split_slash "root")) with 1%nat in S2.
      rewrite length_firstn in S2. lia.
    + rewrite length_firstn in Nd.
      destruct (cat_desc nd) as [| |y m|]; try (destruct Nd as [L _]; lia); [contradiction|].
      destruct Nd as [_ E]. eauto.
  - intros L3. destruct (Hin 3%nat ltac:(lia)) as [nd I].
    pose proof (D _ _ I) as Nd. unfold node_desc_ok in Nd.
    rewrite Sp in Nd by lia.
    destruct (String.eqb_spec (join_slash (firstn 3 (split_slash k))) "root") as [E|_].
    + exfalso. pose proof (Sp 3%nat ltac:(lia)) as S2. rewrite E in S2.
      apply (f_equal (@length string)) in S2.
      change (length (split_slash "root")) with 1%nat in S2.
      rewrite length_firstn in S2. lia.
    + rewrite length_firstn in Nd.
      destruct (cat_desc nd) as [| | |y m d]; try (destruct Nd as [L _]; lia); [contradiction|].
      destruct Nd as [_ E]. eauto.
Qed.

Lemma processed_keys_dated_witness :
  ((2 <= length (split_slash ex_key))%nat ->
     exists y m, strptime_ym (join_slash (firstn 2 (split_slash ex_key))) = Some (y, m)) /\
  ((3 <= length (split_slash ex_key))%nat ->
     exists y m d, strptime_ymd (join_slash (firstn 3 (split_slash ex_key))) = Some (y, m, d)).
Proof.
  apply (processed_keys_dated (ex_src ex_record) all_ok [ex_key] (snd (run (ex_src ex_record) all_ok [ex_key] init_st))).
  - vm_compute. reflexivity.
  - now left.
  - reflexivity.
Defined.

(** For a list of assets whose entries all have a string [href], the
    normalized asset set has, for each of the six suffix rules, the entry
    built from the LAST href with that suffix (prefixed with the source
    prefix), or no entry when no href has it; it has no other key. *)
Theorem list_assets_last_match pre l hs :
  Forall2 (fun a h => entry_href a = Ok h) l hs ->
  exists out, normalize pre (JArr l) = (Ok out, JArr l) /\
    (forall suf key title ty, In (suf, key, title, ty) list_rules ->
       dict_get key out =
         option_map (fun h => JObj [("href", JStr (pre ++ "/" ++ h));
                                    ("title", JStr title); ("type", JStr ty)])
           (last_match suf hs)) /\
    (forall k, ~ In k (map (fun '(_, key, _, _) => key) list_rules) -> dict_get k out = None).
Proof.
  intros F. eexists. split; [unfold normalize; rewrite (list_shape_fold _ _ _ F); reflexivity|].
  split.
  - intros suf key title ty R. unfold last_match.
    assert (G : forall hs acc o,
              dict_get key acc =
                option_map (fun h => JObj [("href", JStr (pre ++ "/" ++ h));
                                           ("title", JStr title); ("type", JStr ty)]) o ->
              dict_get key (fold_left (fun a h => list_entry pre h a) hs acc) =
                option_map (fun h => JObj [("href", JStr (pre ++ "/" ++ h));
                                           ("title", JStr title); ("type", JStr ty)])
                  (fold_left (fun acc h => if endswith h suf then Some h else acc) hs o)).
    { induction hs0 as [|h r IH]; intros acc o E; simpl; [exact E|].
      apply IH. rewrite (list_entry_get _ _ _ _ _ _ _ R).
      destruct (endswith h suf); [reflexivity | exact E]. }
    apply G. reflexivity.
  - intros k Hk.
    assert (G : forall hs acc,
              dict_get k (fold_left (fun a h => list_entry pre h a) hs acc) = dict_get k acc).
    { induction hs0 as [|h r IH]; intros acc; simpl; [reflexivity|].
      rewrite IH. now apply list_entry_other. }
    rewrite G. reflexivity.
Qed.

Lemma list_assets_last_match_witness :
  exists out,
    normalize "P" (JArr [JObj [("href", JStr "a.JPG")]; JObj [("href", JStr "b.JPG")]]) =
      (Ok out, JArr [JObj [("href", JStr "a.JPG")]; JObj [("href", JStr "b.JPG")]]) /\
    (forall suf key title ty, In (suf, key, title, ty) list_rules ->
       dict_get key out =
         option_map (fun h => JObj [("href", JStr ("P" ++ "/" ++ h));
                                    ("title", JStr title); ("type", JStr ty)])
           (last_match suf ["a.JPG"; "b.JPG"])) /\
    (forall k, ~ In k (map (fun '(_, key, _, _) => key) list_rules) -> dict_get k out = None).
Proof. apply list_assets_last_match. repeat constructor. Defined.

(** The catalog object written for a catalog whose data is a dict (keys
    distinct) is that dict with [stac_version] set to ["0.6.1"]: a
    [stac_version] the data has is replaced in place, otherwise the key is
    added last, after all keys of the data. *)
Theorem catalog_element_stac_version data :
  NoDup (dict_keys data) ->
  catalog_element data = dict_set "stac_version" (JStr "0.6.1") data.
Proof. apply catalog_element_set. Qed.

Lemma catalog_element_stac_version_witness :
  catalog_element [("id", JStr "2013"); ("stac_version", JStr "0.5.0"); ("links", JArr [])] =
  dict_set "stac_version" (JStr "0.6.1") [("id", JStr "2013"); ("stac_version", JStr "0.5.0"); ("links", JArr [])].
Proof.
  apply catalog_element_stac_version.
  repeat constructor; simpl; intuition discriminate.
Defined.

(** After a completed run, when each catalog's data is a dict holding its
    own id and every [put] succeeds, the final loop writes one object per
    catalog, in the order the catalogs were created: the root catalog to
    ["0.6.1/catalog.json"], the catalog of key [p] to
    ["0.6.1/" + p.replace("ISERV", "") + "/catalog.json"] (the root's key
    again when [p] is ["ISERV"]), each with its data and [stac_version]
    ["0.6.1"]; it prints each object key before writing it. *)
Theorem catalog_objects_written src tgt ks s data_of tgt2 :
  run src tgt ks init_st = (Ok tt, s) ->
  (forall n, NoDup (dict_keys (data_of n)) /\ dict_get "id" (data_of n) = Some (JStr (cat_id n))) ->
  (forall key, tgt2 key = true) ->
  write_catalogs tgt2 (map (fun e => data_of (snd e)) (catalogs s)) ([], []) =
    (Ok tt, (map (fun e => OutKey (catalog_object_key (fst e))) (catalogs s),
             map (fun e => (catalog_object_key (fst e),
                            dict_set "stac_version" (JStr "0.6.1") (data_of (snd e)))) (catalogs s))).
Proof.
  intros H Hd Ht. rewrite write_catalogs_all; [| |exact Ht].
  - f_equal. f_equal. apply map_ext. intros e. f_equal. apply catalog_element_set, Hd.
  - intros [p n] Hin. destruct (Hd n) as [N I]. cbn [fst snd]. rewrite (catalog_key_id _ _ N I).
    rewrite (run_node_ids _ _ _ _ _ H p n Hin). unfold catalog_object_key. cbn [fst].
    destruct (String.eqb_spec p "root") as [->|Hp]; [reflexivity|].
    destruct (String.eqb p "ISERV"); reflexivity.
Qed.

Lemma catalog_objects_written_witness :
  write_catalogs all_ok (map (fun e => [("id", JStr (cat_id (snd e)))])
                           (catalogs (snd (run (ex_src ex_record) all_ok [ex_key] init_st)))) ([], []) =
    (Ok tt, (map (fun e => OutKey (catalog_object_key (fst e))) (catalogs (snd (run (ex_src ex_record) all_ok [ex_key] init_st))),
             map (fun e => (catalog_object_key (fst e),
                            dict_set "stac_version" (JStr "0.6.1") [("id", JStr (cat_id (snd e)))]))
               (catalogs (snd (run (ex_src ex_record) all_ok [ex_key] init_st))))).
Proof.
  apply (catalog_objects_written (ex_src ex_record) all_ok [ex_key] (snd (run (ex_src ex_record) all_ok [ex_key] init_st))
           (fun n => [("id", JStr (cat_id n))]) all_ok).
  - vm_compute. reflexivity.
  - intros n. split; [repeat constructor; simpl; tauto | reflexivity].
  - reflexivity.
Defined.

(** After a completed run over keys none of which contains ["ISERV"], the
    final loop writes every catalog to an object key of its own: no
    catalog object overwrites another. *)
Theorem catalog_objects_distinct src tgt ks s :
  run src tgt ks init_st = (Ok tt, s) ->
  (forall k a b, In k ks -> k <> a ++ "ISERV" ++ b) ->
  NoDup (map catalog_object_key (map fst (catalogs s))).
Proof.
  intros H Hk.
  assert (I0 : ids_ok (catalogs init_st)).
  { split; [repeat constructor; simpl; tauto|]. intros p0 n0 [E|[]] Hp. injection E as <- <-. congruence. }
  destruct (run_ids _ _ _ _ _ _ H I0) as [Nd _].
  pose proof (run_keys _ _ _ _ _ H) as K. simpl in K.
  assert (Free : forall p, In p (map fst (catalogs s)) -> p <> "root" ->
                   forall a b, p <> a ++ "ISERV" ++ b).
  { intros p Hp Hr a b E. rewrite K, add_new_in in Hp. destruct Hp as [[<-|[]]|Hp]; [tauto|].
    apply in_flat_map in Hp as (k & Hin & Hpk). apply filter_In in Hin as [Hin _].
    unfold prefixes in Hpk. apply in_map_iff in Hpk as (n & <- & _).
    destruct (join_firstn_prefix (split_slash k) (Nat.min n 3)) as [rest R].
    rewrite join_split in R. unfold path_components in E. rewrite firstn_firstn in E.
    rewrite E in R. apply (Hk k a (b ++ rest) Hin). rewrite R, <- !str_app_assoc. reflexivity. }
  apply NoDup_map_NoDup_ForallPairs; [|exact Nd].
  intros p q Hp Hq E.
  assert (Kp : forall x, In x (map fst (catalogs s)) -> x <> "root" ->
                 catalog_object_key x = "0.6.1/" ++ x ++ "/catalog.json").
  { intros x Hx Hr. rewrite catalog_key_root_len; [| exact Hr |].
    - rewrite py_replace_absent; [reflexivity | discriminate | exact (Free x Hx Hr)].
    - apply String.eqb_neq. intros ->. exact (Free _ Hx Hr "" "" eq_refl). }
  assert (Kr : catalog_object_key "root" = "0.6.1/catalog.json") by reflexivity.
  destruct (String.eqb_spec p "root") as [->|Hpr], (String.eqb_spec q "root") as [->|Hqr];
    [reflexivity| | |].
  - exfalso. rewrite Kr, (Kp q Hq Hqr) in E. apply (f_equal String.length) in E.
    rewrite !length_append in E. simpl in E. lia.
  - exfalso. rewrite Kr, (Kp p Hp Hpr) in E. apply (f_equal String.length) in E.
    rewrite !length_append in E. simpl in E. lia.
  - rewrite (Kp p Hp Hpr), (Kp q Hq Hqr) in E. injection E as E.
    exact (str_app_cancel_r _ _ _ E).
Qed.

Lemma catalog_objects_distinct_witness :
  NoDup (map catalog_object_key (map fst (catalogs (snd (run (ex_src ex_record) all_ok [ex_key] init_st))))).
Proof.
  apply (catalog_objects_distinct (ex_src ex_record) all_ok [ex_key]).
  - vm_compute. reflexivity.
  - intros k a b [<-|[]]. apply no_occurrence. vm_compute. reflexivity.
Defined.
